(** * keyplus, xmega port: matrix scanner, AES wrapper and nRF24 bring-up

    A shallow embedding of
      - ports/xmega-c/src/matrix_scanner.c
      - ports/xmega-c/src/aes.c
      - ports/xmega-c/src/nrf24.c
    as state-passing functions over a machine record, followed by the
    properties of the design document that concern them.

    Integers are [Z] with the C conversions written out ([u8], [u16]; on
    AVR [int] is 16 bits wide).  The memory-mapped port registers follow
    the XMEGA register semantics the source relies on (strobe registers
    DIRSET/DIRCLR/OUTSET/OUTCLR, write-one-to-clear INTFLAGS, MPCMASK).
    Every register store, delay and collaborator call is also appended to
    an event log, which is what the ordering properties are stated on. *)

From Stdlib Require Import ZArith List Bool Lia.
From stdpp Require Import base list.
Import ListNotations.
Local Open Scope Z_scope.

(** ** Fixed-width integers *)

Definition u8 (x : Z) : Z := x mod 256.
Definition u16 (x : Z) : Z := x mod 65536.

(** C truth value of an integer, and the integer value of a [bool]. *)
Definition truthy (x : Z) : bool := negb (x =? 0).
Definition b2z (b : bool) : Z := if b then 1 else 0.

(** [0; 1; ...; n-1], the values taken by a [uint8_t] loop counter
    [for (i = 0; i < n; i++)]. *)
Definition upto (n : Z) : list Z := map Z.of_nat (seq 0 (Z.to_nat n)).

(** ** Constants of <avr/io.h> (avr-libc, ATxmega) used by the sources *)

Definition PORT_INVEN_bm : Z := 0x40.
Definition PORT_OPC_PULLDOWN_gc : Z := 0x10.
Definition PORT_OPC_PULLUP_gc : Z := 0x18.
Definition PORT_OPC_WIREDOR_gc : Z := 0x20.
Definition PORT_OPC_WIREDAND_gc : Z := 0x28.
Definition PORT_ISC_BOTHEDGES_gc : Z := 0x00.
Definition PORT_OPC_gm : Z := 0x38.
Definition PORT_ISC_gm : Z := 0x07.
Definition PORT_INT0LVL_gm : Z := 0x03.
Definition PORT_INT0LVL_OFF_gc : Z := 0x00.
Definition PORT_INT0LVL_LO_gc : Z := 0x01.
Definition PORT_INT0IF_bm : Z := 0x01.
Definition SPI_IF_bm : Z := 0x80.
Definition SPI_ENABLE_bm : Z := 0x40.
Definition SPI_MASTER_bm : Z := 0x10.
Definition SPI_MODE_0_gc : Z := 0x00.
Definition SPI_CLK2X_bm : Z := 0x80.
Definition SPI_PRESCALER_DIV4_gc : Z := 0x00.

(** ** I/O ports *)

Inductive io_port : Type :=
  PORTA | PORTB | PORTC | PORTD | PORTE | PORTF | PORTR.

#[global] Instance io_port_eq_dec : EqDecision io_port.
Proof. solve_decision. Defined.

(** The registers of one port that the sources touch.  [PINCTRL] holds
    PIN0CTRL .. PIN7CTRL. *)
Record port_regs : Type := mk_port_regs {
  DIR : Z;
  OUT : Z;
  INTCTRL : Z;
  INT0MASK : Z;
  INTFLAGS : Z;
  PINCTRL : list Z
}.

Definition port_reset : port_regs := mk_port_regs 0 0 0 0 0 (replicate 8 0).

(** The register names a store can address. *)
Inductive port_reg : Type :=
  | R_DIRSET | R_DIRCLR | R_OUTSET | R_OUTCLR
  | R_INTCTRL | R_INT0MASK | R_INTFLAGS | R_PIN0CTRL.

(** PINnCTRL update under MPCMASK: with a non-zero mask every PINnCTRL
    whose bit is set in the mask takes the value; with a zero mask the
    function is disabled and PIN0CTRL itself is written (comment in
    [setup_columns]). *)
Definition pinctrl_write (mpc v : Z) (ctl : list Z) : list Z :=
  if mpc =? 0 then <[0%nat := v]> ctl
  else imap (fun n old => if Z.testbit mpc (Z.of_nat n) then v else old) ctl.

(** Effect of storing [v] to register [r] of a port.  [mpc] is the
    current PORTCFG.MPCMASK. *)
Definition reg_store (r : port_reg) (v mpc : Z) (p : port_regs) : port_regs :=
  match r with
  | R_DIRSET => mk_port_regs (Z.lor (DIR p) v) (OUT p) (INTCTRL p) (INT0MASK p) (INTFLAGS p) (PINCTRL p)
  | R_DIRCLR => mk_port_regs (Z.ldiff (DIR p) v) (OUT p) (INTCTRL p) (INT0MASK p) (INTFLAGS p) (PINCTRL p)
  | R_OUTSET => mk_port_regs (DIR p) (Z.lor (OUT p) v) (INTCTRL p) (INT0MASK p) (INTFLAGS p) (PINCTRL p)
  | R_OUTCLR => mk_port_regs (DIR p) (Z.ldiff (OUT p) v) (INTCTRL p) (INT0MASK p) (INTFLAGS p) (PINCTRL p)
  | R_INTCTRL => mk_port_regs (DIR p) (OUT p) v (INT0MASK p) (INTFLAGS p) (PINCTRL p)
  | R_INT0MASK => mk_port_regs (DIR p) (OUT p) (INTCTRL p) v (INTFLAGS p) (PINCTRL p)
  | R_INTFLAGS => mk_port_regs (DIR p) (OUT p) (INTCTRL p) (INT0MASK p) (Z.ldiff (INTFLAGS p) v) (PINCTRL p)
  | R_PIN0CTRL => mk_port_regs (DIR p) (OUT p) (INTCTRL p) (INT0MASK p) (INTFLAGS p) (pinctrl_write mpc v (PINCTRL p))
  end.

(** ** Decoding a PINnCTRL value *)

Inductive pull_cfg : Type :=
  | OPC_TOTEM | OPC_BUSKEEPER | OPC_PULLDOWN | OPC_PULLUP
  | OPC_WIREDOR | OPC_WIREDAND | OPC_WIREDORPULL | OPC_WIREDANDPULL.

Inductive sense_cfg : Type :=
  | ISC_BOTHEDGES | ISC_RISING | ISC_FALLING | ISC_LEVEL | ISC_OTHER.

Record pin_cfg : Type := mk_pin_cfg {
  cfg_inverted : bool;
  cfg_opc : pull_cfg;
  cfg_isc : sense_cfg
}.

Definition decode_opc (v : Z) : pull_cfg :=
  match Z.shiftr (Z.land v PORT_OPC_gm) 3 with
  | 0 => OPC_TOTEM | 1 => OPC_BUSKEEPER | 2 => OPC_PULLDOWN | 3 => OPC_PULLUP
  | 4 => OPC_WIREDOR | 5 => OPC_WIREDAND | 6 => OPC_WIREDORPULL
  | _ => OPC_WIREDANDPULL
  end.

Definition decode_isc (v : Z) : sense_cfg :=
  match Z.land v PORT_ISC_gm with
  | 0 => ISC_BOTHEDGES | 1 => ISC_RISING | 2 => ISC_FALLING | 3 => ISC_LEVEL
  | _ => ISC_OTHER
  end.

Definition decode_pinctrl (v : Z) : pin_cfg :=
  mk_pin_cfg (truthy (Z.land v PORT_INVEN_bm)) (decode_opc v) (decode_isc v).

(** Output stage of a pin in a wired mode.  The OUT bit passes through
    the inversion stage first (PORT_INVEN_bm, "inverted output"); a
    wired-AND driver releases the pin at level 1 and connects it to GND at
    level 0, a wired-OR driver releases it at level 0 ("WiredAND
    disconnects the pin when written to 1", "WiredOR disconnects the pin
    when written to 0" in [setup_rows]).  This is the reading under which
    [unselect_row], which writes OUTSET in every mode, floats a row.
    [pin_disconnected c b] tells whether the pin floats once [b] has been
    written to its OUT bit. *)
Definition pin_disconnected (c : pin_cfg) (out_bit : bool) : bool :=
  let level := xorb out_bit (cfg_inverted c) in
  match cfg_opc c with
  | OPC_WIREDAND | OPC_WIREDANDPULL => level
  | OPC_WIREDOR | OPC_WIREDORPULL => negb level
  | _ => false
  end.

(** ** Error kinds (core/error.h) *)

Inductive error_code : Type :=
  | ERROR_PIN_MAPPING_CONFLICT
  | ERROR_UNSUPPORTED_SCAN_MODE
  | ERROR_MATRIX_PINS_CONFIG_TOO_LARGE
  | ERROR_NRF24_BAD_SPI_CONNECTION.

(** ** The scan plan (core/matrix_scanner.h), fields used by the port *)

Record matrix_scan_plan_t : Type := mk_plan {
  mode : Z;
  rows : Z;
  cols : Z;
  max_col_pin_num : Z;
  parasitic_discharge_delay_idle : Z;
  parasitic_discharge_delay_debouncing : Z
}.

(** [memset(&g_scan_plan, 0, sizeof(matrix_scan_plan_t))] *)
Definition plan_zero : matrix_scan_plan_t := mk_plan 0 0 0 0 0 0.

(** ** Build-time constants and macros that live in headers outside the
    port sources.  They are parameters of the development. *)

Class Board : Type := mk_board {
  MAX_NUM_ROWS : Z;
  IO_PORT_MAX_PIN_NUM : Z;
  IO_PORT_COUNT : Z;
  IO_PORT_SIZE : Z;
  CLOCK_SPEED_SLOW : Z;
  F_CPU : Z;
  MATRIX_SCANNER_MODE_COL_ROW : Z;
  MATRIX_SCANNER_MODE_ROW_COL : Z;
  MATRIX_SCANNER_MODE_PIN_GND : Z;
  MATRIX_SCANNER_MODE_PIN_VCC : Z;
  PORT_A_NUM : Z;
  PORT_B_NUM : Z;
  PORT_C_NUM : Z;
  PORT_D_NUM : Z;
  PORT_E_NUM : Z;
  PORT_F_NUM : Z;
  PORT_R_NUM : Z;
  IO_MAP_GET_PORT : Z -> io_port;
  IO_MAP_GET_PIN_PORT : Z -> Z;
  IO_MAP_GET_PIN_BIT : Z -> Z;
  INT_DIV_ROUND_UP : Z -> Z -> Z;
  PORT_TO_NUM : io_port -> Z;
  NRF24_CE_PORT : io_port;
  NRF24_CE_PIN : Z;
  NRF24_IRQ_PORT : io_port;
  NRF24_IRQ_PIN_MASK : Z;
  NRF_NOP : Z;
  SPI_PRESCALER_DIV8_gc : Z
}.

(** The case labels of the mode switches are pairwise different (a C
    compiler rejects duplicate labels). *)
Definition mode_labels_distinct `{Board} : Prop :=
  NoDup [MATRIX_SCANNER_MODE_COL_ROW; MATRIX_SCANNER_MODE_ROW_COL;
         MATRIX_SCANNER_MODE_PIN_GND; MATRIX_SCANNER_MODE_PIN_VCC].

(** ** Collaborators: the pin ledger, the error sink, the debouncer and
    the electrical environment.  Only their interfaces are visible to the
    port. *)

Class Collaborators : Type := mk_collab {
  ledger_t : Type;
  errors_t : Type;
  debounce_t : Type;
  (** returns [true] (non-zero) when the claim conflicts *)
  io_map_claim_pins : Z -> Z -> ledger_t -> bool * ledger_t;
  register_error : error_code -> errors_t -> errors_t;
  has_critical_error : errors_t -> bool;
  io_map_get_col_pin : Z -> Z;
  io_map_get_row_pin : Z -> Z;
  scanner_debounce_row : Z -> list Z -> Z -> debounce_t -> bool * debounce_t;
  get_matrix_num_keys_debouncing : debounce_t -> Z;
  init_matrix_scanner_utils : debounce_t -> debounce_t;
  (** level read from [PORTx.IN], given what the ports currently drive *)
  port_IN : (io_port -> port_regs) -> io_port -> Z;
  (** value returned by the n-th read of the SPI STATUS register *)
  spi_status : nat -> Z
}.

(** ** Observable events *)

Inductive clock_regime : Type := SLOW_CLOCK | FAST_CLOCK.

Inductive spi_reg : Type := R_SPI_CTRL | R_SPI_INTCTRL | R_SPI_DATA.

Inductive event : Type :=
  | EvClaimPins (port_num mask : Z)
  | EvRegisterError (e : error_code)
  | EvPortStore (p : io_port) (r : port_reg) (v : Z)
  | EvMpcmask (v : Z)
  | EvDelay (c : clock_regime) (cycles : Z)
  | EvDebounceRow (row : Z) (sample : list Z) (bytes_per_row : Z) (changed : bool)
  | EvTriggeredFlag (b : bool)
  | EvSpiStore (r : spi_reg) (v : Z).

(** ** Machine state *)

Section Machine.
Context `{B : Board} `{C : Collaborators}.

(** File-scope variables of matrix_scanner.c.  A null [s_row_ports]
    entry is [None]. *)
Record scanner_vars : Type := mk_scanner_vars {
  has_scan_irq_triggered : bool;
  s_col_masks : list Z;
  s_row_port_masks : list Z;
  s_row_pin_mask : list Z;
  s_row_ports : list (option io_port);
  s_bytes_per_row : Z;
  s_parasitic_discharge_delay_idle : Z;
  s_parasitic_discharge_delay_debouncing : Z
}.

Record spi_regs : Type := mk_spi_regs {
  SPI_CTRL : Z;
  SPI_INTCTRL : Z;
  SPI_DATA : Z;
  spi_status_reads : nat
}.

Record machine : Type := mk_machine {
  g_scan_plan : matrix_scan_plan_t;
  g_slow_clock_mode : bool;
  rf_disabled : bool;
  is_nrf24_initialized : bool;
  sv : scanner_vars;
  ports : io_port -> port_regs;
  MPCMASK : Z;
  SPIC : spi_regs;
  ledger : ledger_t;
  errors : errors_t;
  debounce : debounce_t;
  log : list event
}.

Definition with_plan (p : matrix_scan_plan_t) (m : machine) : machine :=
  mk_machine p (g_slow_clock_mode m) (rf_disabled m) (is_nrf24_initialized m)
    (sv m) (ports m) (MPCMASK m) (SPIC m) (ledger m) (errors m) (debounce m) (log m).

Definition with_nrf24_initialized (b : bool) (m : machine) : machine :=
  mk_machine (g_scan_plan m) (g_slow_clock_mode m) (rf_disabled m) b
    (sv m) (ports m) (MPCMASK m) (SPIC m) (ledger m) (errors m) (debounce m) (log m).

Definition with_sv (s : scanner_vars) (m : machine) : machine :=
  mk_machine (g_scan_plan m) (g_slow_clock_mode m) (rf_disabled m) (is_nrf24_initialized m)
    s (ports m) (MPCMASK m) (SPIC m) (ledger m) (errors m) (debounce m) (log m).

Definition with_ports (f : io_port -> port_regs) (m : machine) : machine :=
  mk_machine (g_scan_plan m) (g_slow_clock_mode m) (rf_disabled m) (is_nrf24_initialized m)
    (sv m) f (MPCMASK m) (SPIC m) (ledger m) (errors m) (debounce m) (log m).

Definition with_MPCMASK (v : Z) (m : machine) : machine :=
  mk_machine (g_scan_plan m) (g_slow_clock_mode m) (rf_disabled m) (is_nrf24_initialized m)
    (sv m) (ports m) v (SPIC m) (ledger m) (errors m) (debounce m) (log m).

Definition with_SPIC (s : spi_regs) (m : machine) : machine :=
  mk_machine (g_scan_plan m) (g_slow_clock_mode m) (rf_disabled m) (is_nrf24_initialized m)
    (sv m) (ports m) (MPCMASK m) s (ledger m) (errors m) (debounce m) (log m).

Definition with_ledger (l : ledger_t) (m : machine) : machine :=
  mk_machine (g_scan_plan m) (g_slow_clock_mode m) (rf_disabled m) (is_nrf24_initialized m)
    (sv m) (ports m) (MPCMASK m) (SPIC m) l (errors m) (debounce m) (log m).

Definition with_errors (e : errors_t) (m : machine) : machine :=
  mk_machine (g_scan_plan m) (g_slow_clock_mode m) (rf_disabled m) (is_nrf24_initialized m)
    (sv m) (ports m) (MPCMASK m) (SPIC m) (ledger m) e (debounce m) (log m).

Definition with_debounce (d : debounce_t) (m : machine) : machine :=
  mk_machine (g_scan_plan m) (g_slow_clock_mode m) (rf_disabled m) (is_nrf24_initialized m)
    (sv m) (ports m) (MPCMASK m) (SPIC m) (ledger m) (errors m) d (log m).

Definition emit (e : event) (m : machine) : machine :=
  mk_machine (g_scan_plan m) (g_slow_clock_mode m) (rf_disabled m) (is_nrf24_initialized m)
    (sv m) (ports m) (MPCMASK m) (SPIC m) (ledger m) (errors m) (debounce m) (log m ++ [e]).

(** ** Primitive effects *)

(** A store to a register of port [p].  A PINnCTRL store clears MPCMASK
    afterwards. *)
Definition port_store (p : io_port) (r : port_reg) (v : Z) (m : machine) : machine :=
  let regs := reg_store r v (MPCMASK m) (ports m p) in
  let m1 := with_ports (fun q => if decide (q = p) then regs else ports m q) m in
  let m2 := match r with R_PIN0CTRL => with_MPCMASK 0 m1 | _ => m1 end in
  emit (EvPortStore p r v) m2.

(** [PORTCFG.MPCMASK = v] *)
Definition store_MPCMASK (v : Z) (m : machine) : machine :=
  emit (EvMpcmask v) (with_MPCMASK v m).

(** [io_map_claim_pins(port_num, mask)]; the result is the C truth value
    (non-zero on conflict). *)
Definition claim_pins (port_num mask : Z) (m : machine) : bool * machine :=
  let r := io_map_claim_pins port_num mask (ledger m) in
  (fst r, emit (EvClaimPins port_num mask) (with_ledger (snd r) m)).

(** [register_error(e)] *)
Definition raise_error (e : error_code) (m : machine) : machine :=
  emit (EvRegisterError e) (with_errors (register_error e (errors m)) m).

(** The busy-wait macros PARASITIC_DISCHARGE_DELAY_SLOW_CLOCK and
    PARASITIC_DISCHARGE_DELAY_FAST_CLOCK: time is not modelled, the
    requested cycle count is recorded. *)
Definition parasitic_discharge_delay (c : clock_regime) (cycles : Z) (m : machine) : machine :=
  emit (EvDelay c cycles) m.

Definition set_triggered (b : bool) (m : machine) : machine :=
  let s := sv m in
  emit (EvTriggeredFlag b)
    (with_sv (mk_scanner_vars b (s_col_masks s) (s_row_port_masks s) (s_row_pin_mask s)
                (s_row_ports s) (s_bytes_per_row s)
                (s_parasitic_discharge_delay_idle s)
                (s_parasitic_discharge_delay_debouncing s)) m).

(** Array accesses.  Reads outside the array return 0 (null for
    pointers) and writes outside it are dropped; in C both are undefined. *)
Definition arr_get (l : list Z) (i : Z) : Z := l !!! Z.to_nat i.
Definition arr_set (l : list Z) (i v : Z) : list Z := <[Z.to_nat i := v]> l.

Definition col_mask_of (m : machine) (port_num : Z) : Z :=
  arr_get (s_col_masks (sv m)) port_num.
Definition row_port_mask_of (m : machine) (port_num : Z) : Z :=
  arr_get (s_row_port_masks (sv m)) port_num.
Definition row_pin_mask_of (m : machine) (row : Z) : Z :=
  arr_get (s_row_pin_mask (sv m)) row.
Definition row_port_of (m : machine) (row : Z) : option io_port :=
  mjoin (s_row_ports (sv m) !! Z.to_nat row).

Definition set_col_masks (l : list Z) (m : machine) : machine :=
  let s := sv m in
  with_sv (mk_scanner_vars (has_scan_irq_triggered s) l (s_row_port_masks s)
             (s_row_pin_mask s) (s_row_ports s) (s_bytes_per_row s)
             (s_parasitic_discharge_delay_idle s)
             (s_parasitic_discharge_delay_debouncing s)) m.

Definition set_row_tables (pm : list Z) (rm : list Z) (rp : list (option io_port))
    (m : machine) : machine :=
  let s := sv m in
  with_sv (mk_scanner_vars (has_scan_irq_triggered s) (s_col_masks s) pm rm rp
             (s_bytes_per_row s)
             (s_parasitic_discharge_delay_idle s)
             (s_parasitic_discharge_delay_debouncing s)) m.

Definition set_bytes_per_row (v : Z) (m : machine) : machine :=
  let s := sv m in
  with_sv (mk_scanner_vars (has_scan_irq_triggered s) (s_col_masks s) (s_row_port_masks s)
             (s_row_pin_mask s) (s_row_ports s) v
             (s_parasitic_discharge_delay_idle s)
             (s_parasitic_discharge_delay_debouncing s)) m.

Definition set_delays (idle debouncing : Z) (m : machine) : machine :=
  let s := sv m in
  with_sv (mk_scanner_vars (has_scan_irq_triggered s) (s_col_masks s) (s_row_port_masks s)
             (s_row_pin_mask s) (s_row_ports s) (s_bytes_per_row s) idle debouncing) m.

End Machine.

(** ** matrix_scanner.c *)

Section Scanner.
Context `{B : Board} `{C : Collaborators}.

(** The ports named one by one in the straight-line port sequences of the
    file, each with the index of its mask-table entry.  PORTF takes part
    only under [#if IO_PORT_COUNT >= 7]. *)
Definition scanner_ports : list (io_port * Z) :=
  [(PORTA, PORT_A_NUM); (PORTB, PORT_B_NUM); (PORTC, PORT_C_NUM);
   (PORTD, PORT_D_NUM); (PORTE, PORT_E_NUM)]
  ++ (if 7 <=? IO_PORT_COUNT then [(PORTF, PORT_F_NUM)] else [])
  ++ [(PORTR, PORT_R_NUM)].

(** First loop of [setup_columns]: one column pin into the mask table. *)
Definition add_col_mask (m : machine) (col_pin_i : Z) : machine :=
  let pin_number := u8 (io_map_get_col_pin col_pin_i) in
  let col_port_num := u8 (IO_MAP_GET_PIN_PORT pin_number) in
  let col_pin_bit := u8 (IO_MAP_GET_PIN_BIT pin_number) in
  set_col_masks
    (arr_set (s_col_masks (sv m)) col_port_num
       (u8 (Z.lor (col_mask_of m col_port_num) (Z.shiftl 1 col_pin_bit)))) m.

(** The hardware block of [setup_columns] for one port.  The result is
    [false] when the function returns from the [default:] case. *)
Definition setup_column_port (port : io_port) (col_mask : Z) (m : machine)
    : bool * machine :=
  let m := port_store port R_DIRCLR col_mask m in
  let m := port_store port R_INT0MASK (u8 (Z.lor (INT0MASK (ports m port)) col_mask)) m in
  let m := store_MPCMASK col_mask m in
  let md := mode (g_scan_plan m) in
  if (md =? MATRIX_SCANNER_MODE_ROW_COL) || (md =? MATRIX_SCANNER_MODE_PIN_VCC) then
    (true, port_store port R_PIN0CTRL
             (Z.lor PORT_OPC_PULLDOWN_gc PORT_ISC_BOTHEDGES_gc) m)
  else if (md =? MATRIX_SCANNER_MODE_COL_ROW) || (md =? MATRIX_SCANNER_MODE_PIN_GND) then
    (true, port_store port R_PIN0CTRL
             (Z.lor (Z.lor PORT_INVEN_bm PORT_OPC_PULLUP_gc) PORT_ISC_BOTHEDGES_gc) m)
  else
    (false, raise_error ERROR_UNSUPPORTED_SCAN_MODE m).

(** Second loop of [setup_columns], over the port indices still to visit. *)
Fixpoint setup_columns_ports (port_iis : list Z) (m : machine) : machine :=
  match port_iis with
  | [] => m
  | port_ii :: rest =>
      let port := IO_MAP_GET_PORT port_ii in
      let col_mask := col_mask_of m port_ii in
      if col_mask =? 0 then setup_columns_ports rest m
      else
        let cl := claim_pins port_ii col_mask m in
        if fst cl then raise_error ERROR_PIN_MAPPING_CONFLICT (snd cl)
        else
          let r := setup_column_port port col_mask (snd cl) in
          if fst r then setup_columns_ports rest (snd r) else snd r
  end.

Definition setup_columns (m : machine) : machine :=
  let m := fold_left add_col_mask (upto (cols (g_scan_plan m))) m in
  let max_col_pin_num := max_col_pin_num (g_scan_plan m) in
  let max_port_num := u8 (INT_DIV_ROUND_UP (max_col_pin_num + 1) IO_PORT_SIZE) in
  setup_columns_ports (upto max_port_num) m.

(** The hardware block of [setup_rows] for one row pin.  The result is
    [false] when the function returns from the [default:] case. *)
Definition setup_row_pin (port : io_port) (row_bit_mask : Z) (m : machine)
    : bool * machine :=
  let m := port_store port R_DIRSET row_bit_mask m in
  let m := port_store port R_OUTSET row_bit_mask m in
  let m := store_MPCMASK row_bit_mask m in
  let md := mode (g_scan_plan m) in
  if (md =? MATRIX_SCANNER_MODE_ROW_COL) || (md =? MATRIX_SCANNER_MODE_PIN_VCC) then
    (true, port_store port R_PIN0CTRL (Z.lor PORT_INVEN_bm PORT_OPC_WIREDOR_gc) m)
  else if (md =? MATRIX_SCANNER_MODE_COL_ROW) || (md =? MATRIX_SCANNER_MODE_PIN_GND) then
    (true, port_store port R_PIN0CTRL PORT_OPC_WIREDAND_gc m)
  else
    (false, raise_error ERROR_UNSUPPORTED_SCAN_MODE m).

Fixpoint setup_rows_loop (row_pin_is : list Z) (m : machine) : machine :=
  match row_pin_is with
  | [] => m
  | row_pin_i :: rest =>
      let pin_number := u8 (io_map_get_row_pin row_pin_i) in
      let row_port_num := u8 (IO_MAP_GET_PIN_PORT pin_number) in
      let row_pin_bit := u8 (IO_MAP_GET_PIN_BIT pin_number) in
      let port := IO_MAP_GET_PORT row_port_num in
      let row_bit_mask := u8 (Z.shiftl 1 row_pin_bit) in
      let cl := claim_pins row_port_num row_bit_mask m in
      if fst cl then raise_error ERROR_PIN_MAPPING_CONFLICT (snd cl)
      else
        let m := snd cl in
        let m :=
          set_row_tables
            (arr_set (s_row_port_masks (sv m)) row_port_num
               (u8 (Z.lor (row_port_mask_of m row_port_num) row_bit_mask)))
            (arr_set (s_row_pin_mask (sv m)) row_pin_i row_bit_mask)
            (<[Z.to_nat row_pin_i := Some port]> (s_row_ports (sv m))) m in
        let r := setup_row_pin port row_bit_mask m in
        if fst r then setup_rows_loop rest (snd r) else snd r
  end.

Definition setup_rows (m : machine) : machine :=
  let m :=
    set_row_tables (replicate (Z.to_nat IO_PORT_COUNT) 0)
      (s_row_pin_mask (sv m)) (s_row_ports (sv m)) m in
  setup_rows_loop (upto (rows (g_scan_plan m))) m.

Definition unselect_all_rows (m : machine) : machine :=
  fold_left (fun m pn => port_store (fst pn) R_OUTSET (row_port_mask_of m (snd pn)) m)
    scanner_ports m.

Definition select_all_rows (m : machine) : machine :=
  fold_left (fun m pn => port_store (fst pn) R_OUTCLR (row_port_mask_of m (snd pn)) m)
    scanner_ports m.

Definition matrix_has_active_row (m : machine) : bool :=
  existsb (fun pn => truthy (Z.land (port_IN (ports m) (fst pn)) (col_mask_of m (snd pn))))
    scanner_ports.

Definition get_col_mask (m : machine) (port_num : Z) : Z := col_mask_of m port_num.

(** A row whose descriptor was never filled in has a null port pointer;
    the store through it reaches no port register and is left out. *)
Definition select_row (row : Z) (m : machine) : machine :=
  match row_port_of m row with
  | Some port => port_store port R_OUTCLR (row_pin_mask_of m row) m
  | None => m
  end.

Definition unselect_row (row : Z) (m : machine) : machine :=
  match row_port_of m row with
  | Some port => port_store port R_OUTSET (row_pin_mask_of m row) m
  | None => m
  end.

Definition matrix_scan_irq_clear_flags (m : machine) : machine :=
  fold_left
    (fun m pn =>
       port_store (fst pn) R_INTFLAGS
         (u8 (Z.lor (INTFLAGS (ports m (fst pn))) PORT_INT0IF_bm)) m)
    scanner_ports m.

Definition matrix_scan_irq_has_triggered (m : machine) : bool :=
  has_scan_irq_triggered (sv m).

Definition matrix_scan_irq_clear (m : machine) : machine := set_triggered false m.

(** [PORTx.INTCTRL = (PORTx.INTCTRL & ~PORT_INT0LVL_gm) | lvl] on each port *)
Definition set_int0_level (lvl : Z) (m : machine) : machine :=
  fold_left
    (fun m pn =>
       port_store (fst pn) R_INTCTRL
         (u8 (Z.lor (Z.land (INTCTRL (ports m (fst pn))) (Z.lnot PORT_INT0LVL_gm)) lvl)) m)
    scanner_ports m.

Definition matrix_scan_irq_disable (m : machine) : machine :=
  let m := set_int0_level PORT_INT0LVL_OFF_gc m in
  unselect_all_rows m.

Definition matrix_scan_irq_enable (m : machine) : machine :=
  let m := select_all_rows m in
  let m := parasitic_discharge_delay SLOW_CLOCK
             (s_parasitic_discharge_delay_idle (sv m)) m in
  let m := matrix_scan_irq_clear_flags m in
  let m := matrix_scan_irq_clear m in
  set_int0_level PORT_INT0LVL_LO_gc m.

Definition matrix_scan_irq (m : machine) : machine :=
  let m := matrix_scan_irq_clear_flags m in
  set_triggered true m.

(** [ISR(PORTx_INT0_vect) { matrix_scan_irq(); }], for x in A B C D E R *)
Definition ISR_PORT_INT0 (triggering : io_port) (m : machine) : machine :=
  matrix_scan_irq m.

Definition matrix_scanner_init (m : machine) : machine :=
  if (MAX_NUM_ROWS <? rows (g_scan_plan m))
     || (IO_PORT_MAX_PIN_NUM <? max_col_pin_num (g_scan_plan m))
  then
    let m := with_plan plan_zero m in
    raise_error ERROR_MATRIX_PINS_CONFIG_TOO_LARGE m
  else
    let m := set_bytes_per_row
               (u8 (INT_DIV_ROUND_UP (max_col_pin_num (g_scan_plan m) + 1) IO_PORT_SIZE)) m in
    let m :=
      if (mode (g_scan_plan m) =? MATRIX_SCANNER_MODE_COL_ROW)
         || (mode (g_scan_plan m) =? MATRIX_SCANNER_MODE_ROW_COL)
      then setup_rows m else m in
    let m := setup_columns m in
    let m := matrix_scan_irq_disable m in
    let m := unselect_all_rows m in
    let m := with_debounce (init_matrix_scanner_utils (debounce m)) m in
    if g_slow_clock_mode m then
      let base_factor := u8 (16000000 / 1000000) in
      let slow_factor := u8 (CLOCK_SPEED_SLOW / 1000000) in
      set_delays
        (u8 (u16 (u16 (parasitic_discharge_delay_idle (g_scan_plan m)) * slow_factor)
             / base_factor))
        (u8 (u16 (u16 (parasitic_discharge_delay_debouncing (g_scan_plan m)) * slow_factor)
             / base_factor)) m
    else
      set_delays (parasitic_discharge_delay_idle (g_scan_plan m))
                 (parasitic_discharge_delay_debouncing (g_scan_plan m)) m.

(** [scan_row]: the sample is taken from the IN registers in port order
    and handed to the debouncer; the result is its [uint8_t] return
    value. *)
Definition scan_row (row : Z) (m : machine) : Z * machine :=
  let new_row :=
    map (fun pn => Z.land (port_IN (ports m) (fst pn)) (col_mask_of m (snd pn)))
      scanner_ports in
  let r := scanner_debounce_row row new_row (s_bytes_per_row (sv m)) (debounce m) in
  (b2z (fst r),
   emit (EvDebounceRow row new_row (s_bytes_per_row (sv m)) (fst r))
     (with_debounce (snd r) m)).

(** The settle delay of one loop iteration (the [if] around the four
    delay macros). *)
Definition settle_delay (m : machine) : machine :=
  if truthy (get_matrix_num_keys_debouncing (debounce m)) then
    if g_slow_clock_mode m then
      parasitic_discharge_delay SLOW_CLOCK
        (s_parasitic_discharge_delay_debouncing (sv m)) m
    else
      parasitic_discharge_delay FAST_CLOCK
        (s_parasitic_discharge_delay_debouncing (sv m)) m
  else
    if g_slow_clock_mode m then
      parasitic_discharge_delay SLOW_CLOCK (s_parasitic_discharge_delay_idle (sv m)) m
    else
      parasitic_discharge_delay FAST_CLOCK (s_parasitic_discharge_delay_idle (sv m)) m.

(** Body of the [for] loop of [matrix_scan_row_col_mode]. *)
Definition scan_loop_body (row : Z) (acc : bool * machine) : bool * machine :=
  let scan_changed := fst acc in
  let m := select_row row (snd acc) in
  let m := settle_delay m in
  let r := scan_row row m in
  let scan_changed := truthy (Z.lor (b2z scan_changed) (fst r)) in
  let m := unselect_row row (snd r) in
  (scan_changed, m).

Definition matrix_scan_row_col_mode (m : machine) : bool * machine :=
  fold_left (fun acc row => scan_loop_body row acc) (upto (rows (g_scan_plan m))) (false, m).

Definition matrix_scan_pin_mode (m : machine) : bool * machine :=
  let r := scan_row 0 m in
  (truthy (fst r), snd r).

Definition matrix_scan (m : machine) : bool * machine :=
  let md := mode (g_scan_plan m) in
  if (md =? MATRIX_SCANNER_MODE_COL_ROW) || (md =? MATRIX_SCANNER_MODE_ROW_COL) then
    matrix_scan_row_col_mode m
  else if (md =? MATRIX_SCANNER_MODE_PIN_GND) || (md =? MATRIX_SCANNER_MODE_PIN_VCC) then
    matrix_scan_pin_mode m
  else (false, m).

End Scanner.

(** ** nrf24.c: bring-up of the radio's SPI link *)

Section Nrf24.
Context `{B : Board} `{C : Collaborators}.

Definition NRF24_SPI_PORT : io_port := PORTC.

Definition SS : Z := 4.
Definition MOSI : Z := 5.
Definition MISO : Z := 6.
Definition SCK : Z := 7.

Definition SPI_PIN_MASK : Z :=
  Z.lor (Z.lor (Z.lor (Z.shiftl 1 SS) (Z.shiftl 1 MOSI)) (Z.shiftl 1 MISO)) (Z.shiftl 1 SCK).

Definition MAX_NRF24_SPI_SPEED : Z := 10000000.

Definition SPI_MODE : Z := Z.lor (Z.lor SPI_ENABLE_bm SPI_MASTER_bm) SPI_MODE_0_gc.

Definition SPI_SETTINGS : Z :=
  if F_CPU / 2 <=? MAX_NRF24_SPI_SPEED then
    Z.lor (Z.lor SPI_MODE SPI_CLK2X_bm) SPI_PRESCALER_DIV4_gc
  else if F_CPU / 4 <=? MAX_NRF24_SPI_SPEED then
    Z.lor SPI_MODE SPI_PRESCALER_DIV4_gc
  else
    Z.lor SPI_MODE SPI_PRESCALER_DIV8_gc.

Definition SPI_SETTINGS_SLOW_CLOCK : Z :=
  if CLOCK_SPEED_SLOW / 2 <=? MAX_NRF24_SPI_SPEED then
    Z.lor (Z.lor SPI_SETTINGS SPI_CLK2X_bm) SPI_PRESCALER_DIV4_gc
  else if CLOCK_SPEED_SLOW / 4 <=? MAX_NRF24_SPI_SPEED then
    Z.lor SPI_SETTINGS SPI_PRESCALER_DIV4_gc
  else
    Z.lor SPI_SETTINGS SPI_PRESCALER_DIV8_gc.

Definition SPI_TIMEOUT_COUNTER : Z := 32000.

(** A store to a register of the SPI module. *)
Definition spi_store (r : spi_reg) (v : Z) (m : machine) : machine :=
  let s := SPIC m in
  let s' :=
    match r with
    | R_SPI_CTRL => mk_spi_regs v (SPI_INTCTRL s) (SPI_DATA s) (spi_status_reads s)
    | R_SPI_INTCTRL => mk_spi_regs (SPI_CTRL s) v (SPI_DATA s) (spi_status_reads s)
    | R_SPI_DATA => mk_spi_regs (SPI_CTRL s) (SPI_INTCTRL s) v (spi_status_reads s)
    end in
  emit (EvSpiStore r v) (with_SPIC s' m).

(** A volatile read of [spi->STATUS]: the environment supplies the value
    of each successive read. *)
Definition spi_read_status (m : machine) : Z * machine :=
  let s := SPIC m in
  (u8 (spi_status (spi_status_reads s)),
   with_SPIC (mk_spi_regs (SPI_CTRL s) (SPI_INTCTRL s) (SPI_DATA s)
                (S (spi_status_reads s))) m).

(** [while (spi->STATUS & SPI_IF_bm) { read spi->DATA; }]: [None] when
    the fuel runs out before the flag reads as clear. *)
Fixpoint spi_drain (fuel : nat) (m : machine) : option machine :=
  match fuel with
  | O => None
  | S fuel' =>
      let r := spi_read_status m in
      if truthy (Z.land (fst r) SPI_IF_bm) then spi_drain fuel' (snd r)
      else Some (snd r)
  end.

Definition spi_init (fuel : nat) (port : io_port) (m : machine) : option machine :=
  let m := port_store port R_DIRSET
             (Z.lor (Z.lor (Z.shiftl 1 SS) (Z.shiftl 1 MOSI)) (Z.shiftl 1 SCK)) m in
  let m := port_store port R_OUTSET (Z.shiftl 1 SS) m in
  let m := spi_store R_SPI_INTCTRL 0 m in
  let m :=
    if g_slow_clock_mode m then spi_store R_SPI_CTRL SPI_SETTINGS_SLOW_CLOCK m
    else spi_store R_SPI_CTRL SPI_SETTINGS m in
  spi_drain fuel m.

Definition nrf24_ce_set (port : io_port) (val : Z) (m : machine) : machine :=
  if truthy val then port_store port R_OUTSET NRF24_CE_PIN m
  else port_store port R_OUTCLR NRF24_CE_PIN m.

Definition nrf24_ce_init (port : io_port) (m : machine) : machine :=
  port_store port R_DIRSET NRF24_CE_PIN m.

(** The polling loop of [nrf24_test_spi_connection]; the result is the
    [uint8_t] return value (0, or [(uint8_t)-1] on timeout). *)
Fixpoint test_spi_poll (fuel : nat) (counter : Z) (m : machine) : option (Z * machine) :=
  match fuel with
  | O => None
  | S fuel' =>
      let r := spi_read_status m in
      if truthy (Z.land (fst r) SPI_IF_bm) then Some (0, snd r)
      else
        let counter := u16 (counter + 1) in
        if SPI_TIMEOUT_COUNTER <? counter then Some (u8 (-1), snd r)
        else test_spi_poll fuel' counter (snd r)
  end.

Definition nrf24_test_spi_connection (fuel : nat) (m : machine) : option (Z * machine) :=
  let m := spi_store R_SPI_DATA NRF_NOP m in
  test_spi_poll fuel 0 m.

Definition nrf24_init (fuel : nat) (m : machine) : option machine :=
  if is_nrf24_initialized m || rf_disabled m then Some m
  else
    let m := with_nrf24_initialized true m in
    let cl := claim_pins (PORT_TO_NUM NRF24_SPI_PORT) SPI_PIN_MASK m in
    if fst cl then Some (raise_error ERROR_PIN_MAPPING_CONFLICT (snd cl))
    else
      match spi_init fuel NRF24_SPI_PORT (snd cl) with
      | None => None
      | Some m =>
          let m := snd (claim_pins (PORT_TO_NUM NRF24_CE_PORT) NRF24_CE_PIN m) in
          let m := snd (claim_pins (PORT_TO_NUM NRF24_IRQ_PORT) NRF24_IRQ_PIN_MASK m) in
          if has_critical_error (errors m) then
            Some (raise_error ERROR_PIN_MAPPING_CONFLICT m)
          else
            match nrf24_test_spi_connection fuel m with
            | None => None
            | Some r =>
                if truthy (fst r) then
                  Some (raise_error ERROR_NRF24_BAD_SPI_CONNECTION (snd r))
                else
                  let m := nrf24_ce_init NRF24_CE_PORT (snd r) in
                  Some (nrf24_ce_set NRF24_CE_PORT 0 m)
            end
      end.

End Nrf24.

(** ** aes.c: the wrapper around the block cipher of avr-crypto-lib *)

Module Aes.

(** Interface of aes/avr-crypto-lib/aes.h.  The context is passed by
    pointer to all three functions, so each may update it. *)
Class Aes128 : Type := mk_aes128 {
  aes128_ctx_t : Type;
  aes128_init : list Z -> aes128_ctx_t -> aes128_ctx_t;
  aes128_enc : list Z -> aes128_ctx_t -> list Z * aes128_ctx_t;
  aes128_dec : list Z -> aes128_ctx_t -> list Z * aes128_ctx_t
}.

Section Wrapper.
Context `{A : Aes128}.

(** The only state of the file is [static aes128_ctx_t aes_ctx]. *)
Definition aes_key_init (ekey dkey : list Z) (aes_ctx : aes128_ctx_t) : aes128_ctx_t :=
  aes128_init ekey aes_ctx.

Definition aes_encrypt (block : list Z) (aes_ctx : aes128_ctx_t) : list Z * aes128_ctx_t :=
  aes128_enc block aes_ctx.

Definition aes_decrypt (block : list Z) (aes_ctx : aes128_ctx_t) : list Z * aes128_ctx_t :=
  aes128_dec block aes_ctx.

(** A later use of the cipher, and a run of such uses from a context;
    the result lists the blocks produced. *)
Inductive cipher_op : Type :=
  | OpEncrypt (block : list Z)
  | OpDecrypt (block : list Z).

Fixpoint run_ops (ops : list cipher_op) (aes_ctx : aes128_ctx_t) : list (list Z) :=
  match ops with
  | [] => []
  | OpEncrypt b :: rest =>
      let r := aes_encrypt b aes_ctx in fst r :: run_ops rest (snd r)
  | OpDecrypt b :: rest =>
      let r := aes_decrypt b aes_ctx in fst r :: run_ops rest (snd r)
  end.

End Wrapper.
End Aes.

(** ** A concrete board and concrete collaborators

    Used to evaluate the model: a six-port part with a 1 MHz slow clock,
    rows on port A, one column on port B and one on port C, a bitmask
    ledger, an error list, and a debouncer that compares each sample with
    the previous one of the same row. *)

Module Example.

Definition port_of_num (n : Z) : io_port :=
  match n with
  | 0 => PORTA | 1 => PORTB | 2 => PORTC | 3 => PORTD | 4 => PORTE | _ => PORTR
  end.

Definition num_of_port (p : io_port) : Z :=
  match p with
  | PORTA => 0 | PORTB => 1 | PORTC => 2 | PORTD => 3 | PORTE => 4
  | PORTF => 6 | PORTR => 5
  end.

#[local] Instance board : Board := {|
  MAX_NUM_ROWS := 18;
  IO_PORT_MAX_PIN_NUM := 47;
  IO_PORT_COUNT := 6;
  IO_PORT_SIZE := 8;
  CLOCK_SPEED_SLOW := 1000000;
  F_CPU := 32000000;
  MATRIX_SCANNER_MODE_COL_ROW := 1;
  MATRIX_SCANNER_MODE_ROW_COL := 2;
  MATRIX_SCANNER_MODE_PIN_GND := 3;
  MATRIX_SCANNER_MODE_PIN_VCC := 4;
  PORT_A_NUM := 0;
  PORT_B_NUM := 1;
  PORT_C_NUM := 2;
  PORT_D_NUM := 3;
  PORT_E_NUM := 4;
  PORT_F_NUM := 6;
  PORT_R_NUM := 5;
  IO_MAP_GET_PORT := port_of_num;
  IO_MAP_GET_PIN_PORT := fun pin => Z.shiftr pin 3;
  IO_MAP_GET_PIN_BIT := fun pin => Z.land pin 7;
  INT_DIV_ROUND_UP := fun a b => (a + b - 1) / b;
  PORT_TO_NUM := num_of_port;
  NRF24_CE_PORT := PORTC;
  NRF24_CE_PIN := 0x08;
  NRF24_IRQ_PORT := PORTC;
  NRF24_IRQ_PIN_MASK := 0x04;
  NRF_NOP := 0xFF;
  SPI_PRESCALER_DIV8_gc := 0x01
|}.

(** The ledger of section 4.1 of the design: one claimed-bits mask per
    port; a claim that overlaps fails and changes nothing. *)
Definition claim (port_num mask : Z) (l : list Z) : bool * list Z :=
  if Z.land (arr_get l port_num) mask =? 0
  then (false, arr_set l port_num (Z.lor (arr_get l port_num) mask))
  else (true, l).

(** Previous sample of each row, and the count of keys in debounce. *)
Definition debouncer : Type := list (list Z) * Z.

Definition debounce_row (row : Z) (sample : list Z) (bytes : Z) (d : debouncer)
    : bool * debouncer :=
  let prev := fst d !!! Z.to_nat row in
  (negb (bool_decide (prev = sample)), (<[Z.to_nat row := sample]> (fst d), snd d)).

(** One key, at row 2 / column 0: PB0 reads 1 exactly while PA2 is
    driven (its OUT bit cleared). *)
Definition key_matrix (regs : io_port -> port_regs) (p : io_port) : Z :=
  match p with
  | PORTB => if Z.testbit (OUT (regs PORTA)) 2 then 0 else 1
  | _ => 0
  end.

#[local] Instance collab : Collaborators := {|
  ledger_t := list Z;
  errors_t := list error_code;
  debounce_t := debouncer;
  io_map_claim_pins := claim;
  register_error := fun e l => l ++ [e];
  has_critical_error := fun l => negb (bool_decide (l = []));
  io_map_get_col_pin := fun i => 8 * (i + 1);
  io_map_get_row_pin := fun i => i;
  scanner_debounce_row := debounce_row;
  get_matrix_num_keys_debouncing := fun d => snd d;
  init_matrix_scanner_utils := fun _ => (replicate 18 (replicate 6 0), 0);
  port_IN := key_matrix;
  spi_status := fun n => if (n <? 2)%nat then 0 else 0x80
|}.

Definition vars0 : scanner_vars :=
  mk_scanner_vars false (replicate 6 0) (replicate 6 0) (replicate 18 0)
    (replicate 18 None) 0 0 0.

(** The machine after reset with plan [p] loaded. *)
Definition boot (p : matrix_scan_plan_t) (slow : bool) : machine :=
  mk_machine p slow false false vars0 (fun _ => port_reset) 0
    (mk_spi_regs 0 0 0 0) (replicate 6 0) [] (replicate 18 (replicate 6 0), 0) [].

(** A 3 x 2 matrix (columns on PB0 and PC0, highest column pin 16) with
    nominal delays 40 / 40. *)
Definition plan_3x2 (md : Z) : matrix_scan_plan_t := mk_plan md 3 2 16 40 40.

#[local] Instance xor_cipher : Aes.Aes128 := {|
  Aes.aes128_ctx_t := list Z;
  Aes.aes128_init := fun key _ => key;
  Aes.aes128_enc := fun b ctx => (zip_with Z.lxor b ctx, ctx);
  Aes.aes128_dec := fun b ctx => (zip_with Z.lxor b ctx, ctx)
|}.

End Example.

(** ** Vocabulary of the properties *)

(** The four wiring topologies of the design document. *)
Inductive topology : Type := ROW_COL | COL_ROW | PIN_VCC | PIN_GND.

Definition mode_value `{Board} (t : topology) : Z :=
  match t with
  | ROW_COL => MATRIX_SCANNER_MODE_ROW_COL
  | COL_ROW => MATRIX_SCANNER_MODE_COL_ROW
  | PIN_VCC => MATRIX_SCANNER_MODE_PIN_VCC
  | PIN_GND => MATRIX_SCANNER_MODE_PIN_GND
  end.

Definition known_mode `{Board} (md : Z) : Prop := exists t, md = mode_value t.

(** Column side of the mode table: pull resistor, input inversion, edge
    sensitivity. *)
Record column_policy : Type := mk_column_policy {
  col_pull : pull_cfg;
  col_inverted : bool;
  col_sense : sense_cfg
}.

Definition table_column (t : topology) : column_policy :=
  match t with
  | ROW_COL | PIN_VCC => mk_column_policy OPC_PULLDOWN false ISC_BOTHEDGES
  | COL_ROW | PIN_GND => mk_column_policy OPC_PULLUP true ISC_BOTHEDGES
  end.

(** Row side of the mode table: output inversion, and the value whose
    write to the OUT bit disconnects the pin.  [None] is the table's
    "n/a". *)
Record row_policy : Type := mk_row_policy {
  row_inverted : bool;
  row_disconnect_on_write : bool
}.

(** The table as the design document prints it. *)
Definition table_row (t : topology) : option row_policy :=
  match t with
  | ROW_COL => Some (mk_row_policy true true)
  | COL_ROW => Some (mk_row_policy false false)
  | PIN_VCC | PIN_GND => None
  end.

(** The table with the COL_ROW row entry as the port configures it:
    wired-AND, not inverted, released by writing 1 (which is what
    [unselect_row] writes in both modes). *)
Definition table_row_amended (t : topology) : option row_policy :=
  match t with
  | ROW_COL => Some (mk_row_policy true true)
  | COL_ROW => Some (mk_row_policy false true)
  | PIN_VCC | PIN_GND => None
  end.

Definition pull_cfg_eqb (a b : pull_cfg) : bool :=
  match a, b with
  | OPC_TOTEM, OPC_TOTEM | OPC_BUSKEEPER, OPC_BUSKEEPER
  | OPC_PULLDOWN, OPC_PULLDOWN | OPC_PULLUP, OPC_PULLUP
  | OPC_WIREDOR, OPC_WIREDOR | OPC_WIREDAND, OPC_WIREDAND
  | OPC_WIREDORPULL, OPC_WIREDORPULL | OPC_WIREDANDPULL, OPC_WIREDANDPULL => true
  | _, _ => false
  end.

Definition sense_cfg_eqb (a b : sense_cfg) : bool :=
  match a, b with
  | ISC_BOTHEDGES, ISC_BOTHEDGES | ISC_RISING, ISC_RISING
  | ISC_FALLING, ISC_FALLING | ISC_LEVEL, ISC_LEVEL | ISC_OTHER, ISC_OTHER => true
  | _, _ => false
  end.

Definition column_cfg_matches (pol : column_policy) (c : pin_cfg) : bool :=
  pull_cfg_eqb (cfg_opc c) (col_pull pol)
  && Bool.eqb (cfg_inverted c) (col_inverted pol)
  && sense_cfg_eqb (cfg_isc c) (col_sense pol).

(** A pin follows a row policy when its inversion bit is the policy's and
    it floats after the policy's value is written and drives after the
    other one. *)
Definition row_cfg_matches (pol : row_policy) (c : pin_cfg) : bool :=
  Bool.eqb (cfg_inverted c) (row_inverted pol)
  && pin_disconnected c (row_disconnect_on_write pol)
  && negb (pin_disconnected c (negb (row_disconnect_on_write pol))).

(** Configuration of pin [n] of port [p]. *)
Definition pin_config `{Board} `{Collaborators} (m : machine) (p : io_port) (n : Z) : pin_cfg :=
  decode_pinctrl (arr_get (PINCTRL (ports m p)) n).

(** Events that turn a pin into a row: making it an output, or giving it
    a wired output stage. *)
Definition is_row_config_event (e : event) : bool :=
  match e with
  | EvPortStore _ R_DIRSET _ => true
  | EvPortStore _ R_PIN0CTRL v =>
      match decode_opc v with
      | OPC_PULLDOWN | OPC_PULLUP => false
      | _ => true
      end
  | _ => false
  end.

Definition not_row_config (e : event) : Prop := is_row_config_event e = false.

Definition is_port_store (e : event) : bool :=
  match e with EvPortStore _ _ _ => true | _ => false end.

(** Rows and verdicts of the debounce calls in a stretch of the log. *)
Definition debounce_rows (evs : list event) : list Z :=
  omap (fun e => match e with EvDebounceRow r _ _ _ => Some r | _ => None end) evs.

Definition debounce_verdicts (evs : list event) : list bool :=
  omap (fun e => match e with EvDebounceRow _ _ _ b => Some b | _ => None end) evs.

(** Settle delays in a stretch of the log. *)
Definition delays (evs : list event) : list (clock_regime * Z) :=
  omap (fun e => match e with EvDelay c n => Some (c, n) | _ => None end) evs.

Section RowDrive.
Context `{B : Board} `{C : Collaborators}.

(** The store [select_row] / [unselect_row] performs for a row. *)
Definition row_store_event (m : machine) (r : port_reg) (row : Z) : list event :=
  match row_port_of m row with
  | Some p => [EvPortStore p r (row_pin_mask_of m row)]
  | None => []
  end.

(** A row is asserted when all OUT bits of its pin mask are cleared and
    released when they are all set. *)
Definition row_asserted (m : machine) (row : Z) : Prop :=
  exists p, row_port_of m row = Some p /\
            Z.land (OUT (ports m p)) (row_pin_mask_of m row) = 0.

Definition row_released (m : machine) (row : Z) : Prop :=
  exists p, row_port_of m row = Some p /\
            Z.land (OUT (ports m p)) (row_pin_mask_of m row) = row_pin_mask_of m row.

(** Row descriptors as a successful [setup_rows] leaves them: every row
    has a port and a non-empty pin mask, and two rows never share a pin. *)
Definition row_descriptors_ok (m : machine) : Prop :=
  (forall row, 0 <= row < rows (g_scan_plan m) ->
     exists p, row_port_of m row = Some p /\
               0 < row_pin_mask_of m row) /\
  (forall r1 r2, 0 <= r1 < rows (g_scan_plan m) -> 0 <= r2 < rows (g_scan_plan m) ->
     r1 <> r2 -> row_port_of m r1 = row_port_of m r2 ->
     Z.land (row_pin_mask_of m r1) (row_pin_mask_of m r2) = 0).

(** Machine just before the loop iteration of row [k], and at the
    instant row [k] is sampled (after its select and settle delay). *)
Definition scan_prefix (m : machine) (k : Z) : bool * machine :=
  fold_left (fun acc row => scan_loop_body row acc) (upto k) (false, m).

Definition at_sampling (m : machine) (k : Z) : machine :=
  settle_delay (select_row k (snd (scan_prefix m k))).

(** The settle delay the design asks for in a machine state: the
    debouncing length when the debouncer reports any key in debounce,
    the idle length otherwise, in the active clock regime. *)
Definition expected_delay (m : machine) : clock_regime * Z :=
  (if g_slow_clock_mode m then SLOW_CLOCK else FAST_CLOCK,
   if truthy (get_matrix_num_keys_debouncing (debounce m))
   then s_parasitic_discharge_delay_debouncing (sv m)
   else s_parasitic_discharge_delay_idle (sv m)).

(** The sample [scan_row] reads in a machine state. *)
Definition column_sample (m : machine) : list Z :=
  map (fun pn => Z.land (port_IN (ports m) (fst pn)) (col_mask_of m (snd pn)))
    scanner_ports.

(** The events of the loop iteration of [row] started in state [m]:
    select, settle, debounce call, unselect. *)
Definition iteration_events (m : machine) (row : Z) : list event :=
  let m1 := settle_delay (select_row row m) in
  row_store_event m R_OUTCLR row
  ++ [EvDelay (fst (expected_delay m)) (snd (expected_delay m));
      EvDebounceRow row (column_sample m1) (s_bytes_per_row (sv m))
        (fst (scanner_debounce_row row (column_sample m1) (s_bytes_per_row (sv m))
                (debounce m)))]
  ++ row_store_event m R_OUTSET row.

(** The debounce calls of one scan cycle, replayed on the collaborator
    alone: the rows are handed to [scanner_debounce_row] one after the
    other, row [k] with the sample [sample k], each call on the debouncer
    state the previous call returned.  The result lists the verdicts in
    call order and gives the debouncer state after the last call. *)
Definition debounce_step (sample : Z -> list Z) (bytes : Z)
    (acc : list bool * debounce_t) (k : Z) : list bool * debounce_t :=
  let r := scanner_debounce_row k (sample k) bytes (snd acc) in
  (fst acc ++ [fst r], snd r).

Definition debounce_calls (sample : Z -> list Z) (bytes : Z) (row_list : list Z)
    (d : debounce_t) : list bool * debounce_t :=
  fold_left (debounce_step sample bytes) row_list ([], d).


Definition scanner_port_names : list io_port := map fst scanner_ports.

End RowDrive.

Section Observations.
Context `{B : Board} `{C : Collaborators}.

(** The part of the machine the delay rescaling reads. *)
Definition config_of (m : machine) : matrix_scan_plan_t * bool :=
  (g_scan_plan m, g_slow_clock_mode m).

(** The events a run from [m] to [m'] added to the log. *)
Definition new_events (m m' : machine) : list event :=
  drop (length (log m)) (log m').

(** The run from [m] to [m'] only appended events, all satisfying [Q]. *)
Definition extends_log (Q : event -> Prop) (m m' : machine) : Prop :=
  exists evs, log m' = log m ++ evs /\ Forall Q evs.

(** The row descriptor tables. *)
Definition row_tables_of (m : machine)
    : list Z * list Z * list (option io_port) :=
  (s_row_port_masks (sv m), s_row_pin_mask (sv m), s_row_ports (sv m)).



(** The two flags [nrf24_init] tests on entry. *)
Definition flags_of (m : machine) : bool * bool :=
  (is_nrf24_initialized m, rf_disabled m).

(** A sweep stores to register [r] of each listed port a value computed
    from the current machine; the straight-line port sequences of
    matrix_scanner.c are sweeps over [scanner_ports]. *)
Definition sweep (r : port_reg) (val : machine -> io_port * Z -> Z)
    (l : list (io_port * Z)) (m : machine) : machine :=
  fold_left (fun s pn => port_store (fst pn) r (val s pn) s) l m.

(** An observation of the machine that does not look at the hardware
    registers, the collaborators' state or the log. *)
Record hw_blind {T : Type} (obs : machine -> T) : Prop := mk_hw_blind {
  blind_ports : forall f m, obs (with_ports f m) = obs m;
  blind_MPCMASK : forall v m, obs (with_MPCMASK v m) = obs m;
  blind_SPIC : forall s m, obs (with_SPIC s m) = obs m;
  blind_ledger : forall l m, obs (with_ledger l m) = obs m;
  blind_errors : forall e m, obs (with_errors e m) = obs m;
  blind_debounce : forall d m, obs (with_debounce d m) = obs m;
  blind_emit : forall e m, obs (emit e m) = obs m
}.

End Observations.

(** The example machines the properties are evaluated on. *)
Module Runs.
Import Example.
#[local] Existing Instance board.
#[local] Existing Instance collab.

(** A plan with 19 rows on a board that allows 18. *)
Definition oversized : machine := boot (mk_plan 1 19 2 16 40 40) true.

(** The 3 x 2 matrix, before initialisation, in each mode and clock regime. *)
Definition fresh (md : Z) (slow : bool) : machine := boot (plan_3x2 md) slow.

(** The 3 x 2 COL_ROW matrix after [matrix_scanner_init]. *)
Definition ready : machine := matrix_scanner_init (fresh 1 true).

(** [ready] armed for idle wake. *)
Definition armed : machine := matrix_scan_irq_enable ready.



(** The machine after the radio bring-up on the fresh 3 x 2 board. *)
Definition after_radio_init : machine :=
  match nrf24_init 5 (fresh 1 true) with
  | Some m' => m'
  | None => fresh 1 true
  end.

End Runs.

(** ** The remaining pin-level functions of nrf24.c *)

Section Nrf24Pins.
Context `{B : Board} `{C : Collaborators}.

Definition spi_ss (port : io_port) (val : Z) (m : machine) : machine :=
  if truthy val then port_store port R_OUTSET (Z.shiftl 1 SS) m
  else port_store port R_OUTCLR (Z.shiftl 1 SS) m.

Definition nrf24_csn (val : Z) (m : machine) : machine :=
  spi_ss NRF24_SPI_PORT val m.

Definition nrf24_ce (val : Z) (m : machine) : machine :=
  nrf24_ce_set NRF24_CE_PORT val m.

(** [while (!(spi->STATUS & SPI_IF_bm));]: [None] when the fuel runs out
    before the flag reads as set. *)
Fixpoint spi_wait_flag (fuel : nat) (m : machine) : option machine :=
  match fuel with
  | O => None
  | S fuel' =>
      let r := spi_read_status m in
      if truthy (Z.land (fst r) SPI_IF_bm) then Some (snd r)
      else spi_wait_flag fuel' (snd r)
  end.

(** The machine after [n] further reads of the SPI status register. *)
Definition spi_after_reads (n : nat) (m : machine) : machine :=
  with_SPIC (mk_spi_regs (SPI_CTRL (SPIC m)) (SPI_INTCTRL (SPIC m)) (SPI_DATA (SPIC m))
               (n + spi_status_reads (SPIC m))) m.

(** The status read number [j] from now shows the SPI interrupt flag. *)
Definition spi_flag_at (m : machine) (j : nat) : bool :=
  truthy (Z.land (u8 (spi_status (j + spi_status_reads (SPIC m)))) SPI_IF_bm).

(** The byte the SPI module has received, as a volatile read of
    [spi->DATA] returns it after [n] reads of the status register. *)
Class SpiLine : Type := mk_spi_line {
  spi_data_in : nat -> Z
}.

Definition spi_send_byte `{SpiLine} (fuel : nat) (byte : Z) (m : machine)
    : option (Z * machine) :=
  let m := spi_store R_SPI_DATA byte m in
  match spi_wait_flag fuel m with
  | None => None
  | Some m' => Some (u8 (spi_data_in (spi_status_reads (SPIC m'))), m')
  end.

Definition nrf24_spi_send_byte `{SpiLine} (fuel : nat) (byte : Z) (m : machine)
    : option (Z * machine) :=
  spi_send_byte fuel byte m.

(** [nrf24_power_set] belongs to the portable radio driver
    (core/nrf24.h); the port only calls it. *)
Class RadioCore : Type := mk_radio_core {
  nrf24_power_set : Z -> machine -> machine
}.

Definition nrf24_disable `{RadioCore} (m : machine) : machine :=
  if is_nrf24_initialized m then
    let m := nrf24_power_set 0 m in
    let m := port_store NRF24_SPI_PORT R_DIRCLR
               (Z.lor (Z.lor (Z.shiftl 1 SS) (Z.shiftl 1 MOSI)) (Z.shiftl 1 SCK)) m in
    let m := port_store NRF24_CE_PORT R_DIRSET NRF24_CE_PIN m in
    with_nrf24_initialized false m
  else m.

End Nrf24Pins.

(** ** Further vocabulary *)

Definition is_error_event (e : event) : bool :=
  match e with EvRegisterError _ => true | _ => false end.

Definition no_error (e : event) : Prop := is_error_event e = false.

Definition is_collaborator_call (e : event) : bool :=
  match e with
  | EvClaimPins _ _ | EvRegisterError _ => true
  | _ => false
  end.

Section MoreObservations.
Context `{B : Board} `{C : Collaborators}.

(** The pin a row index maps to: its port and its one-bit mask, as
    [setup_rows] computes them. *)
Definition row_pin_port (row_pin_i : Z) : io_port :=
  IO_MAP_GET_PORT (u8 (IO_MAP_GET_PIN_PORT (u8 (io_map_get_row_pin row_pin_i)))).

Definition row_pin_bit_mask (row_pin_i : Z) : Z :=
  u8 (Z.shiftl 1 (u8 (IO_MAP_GET_PIN_BIT (u8 (io_map_get_row_pin row_pin_i))))).

(** Port index and bit of a column, as [setup_columns] computes them. *)
Definition col_pin_port_num (col_pin_i : Z) : Z :=
  u8 (IO_MAP_GET_PIN_PORT (u8 (io_map_get_col_pin col_pin_i))).

Definition col_pin_bit (col_pin_i : Z) : Z :=
  u8 (IO_MAP_GET_PIN_BIT (u8 (io_map_get_col_pin col_pin_i))).

(** The plan passes the validation of [matrix_scanner_init]. *)
Definition plan_accepted (m : machine) : Prop :=
  rows (g_scan_plan m) <= MAX_NUM_ROWS
  /\ max_col_pin_num (g_scan_plan m) <= IO_PORT_MAX_PIN_NUM.

(** Every bit set in [a] is set in [b]. *)
Definition bits_within (a b : Z) : Prop :=
  forall i, 0 <= i -> Z.testbit a i = true -> Z.testbit b i = true.

(** What column setup may do to a port: clear DIR bits and add INT0MASK
    bits, nothing to OUT, INTCTRL and INTFLAGS. *)
Definition column_setup_keeps (m m' : machine) : Prop :=
  forall q,
    OUT (ports m' q) = OUT (ports m q)
    /\ INTCTRL (ports m' q) = INTCTRL (ports m q)
    /\ INTFLAGS (ports m' q) = INTFLAGS (ports m q)
    /\ bits_within (DIR (ports m' q)) (DIR (ports m q))
    /\ (forall i, 0 <= i < 8 -> Z.testbit (INT0MASK (ports m q)) i = true ->
          Z.testbit (INT0MASK (ports m' q)) i = true).

(** What row setup and row release may do to a port: add DIR and OUT
    bits. *)
Definition outputs_only_grow (m m' : machine) : Prop :=
  forall q,
    bits_within (DIR (ports m q)) (DIR (ports m' q))
    /\ bits_within (OUT (ports m q)) (OUT (ports m' q)).

(** The descriptor tables can hold row [i]. *)
Definition row_slot_exists (m : machine) (i : Z) : Prop :=
  (Z.to_nat i < length (s_row_pin_mask (sv m)))%nat
  /\ (Z.to_nat i < length (s_row_ports (sv m)))%nat.

(** Row [i] is set up: its descriptor names its pin, the pin is an
    output and its OUT bit is set. *)
Definition row_configured (m : machine) (i : Z) : Prop :=
  row_port_of m i = Some (row_pin_port i)
  /\ row_pin_mask_of m i = row_pin_bit_mask i
  /\ Z.land (DIR (ports m (row_pin_port i))) (row_pin_bit_mask i) = row_pin_bit_mask i
  /\ Z.land (OUT (ports m (row_pin_port i))) (row_pin_bit_mask i) = row_pin_bit_mask i.

(** State outside the port registers and the debouncer that a scan has
    no business touching. *)
Definition scan_frame (m : machine) :=
  (g_scan_plan m, g_slow_clock_mode m, rf_disabled m, is_nrf24_initialized m,
   sv m, MPCMASK m, SPIC m, ledger m, errors m).

(** The interrupt handlers run for the listed ports, one after the other. *)
Definition run_isrs (ps : list io_port) (m : machine) : machine :=
  fold_left (fun s p => ISR_PORT_INT0 p s) ps m.

End MoreObservations.

Module MoreExamples.

#[local] Instance silent_line : SpiLine := {| spi_data_in := fun _ => 0x0E |}.

(** A board whose slow clock is set to 32 MHz, above the 16 MHz
    reference of the delay rescaling. *)
#[local] Instance board_32mhz : Board := {|
  MAX_NUM_ROWS := 18;
  IO_PORT_MAX_PIN_NUM := 47;
  IO_PORT_COUNT := 6;
  IO_PORT_SIZE := 8;
  CLOCK_SPEED_SLOW := 32000000;
  F_CPU := 32000000;
  MATRIX_SCANNER_MODE_COL_ROW := 1;
  MATRIX_SCANNER_MODE_ROW_COL := 2;
  MATRIX_SCANNER_MODE_PIN_GND := 3;
  MATRIX_SCANNER_MODE_PIN_VCC := 4;
  PORT_A_NUM := 0;
  PORT_B_NUM := 1;
  PORT_C_NUM := 2;
  PORT_D_NUM := 3;
  PORT_E_NUM := 4;
  PORT_F_NUM := 6;
  PORT_R_NUM := 5;
  IO_MAP_GET_PORT := Example.port_of_num;
  IO_MAP_GET_PIN_PORT := fun pin => Z.shiftr pin 3;
  IO_MAP_GET_PIN_BIT := fun pin => Z.land pin 7;
  INT_DIV_ROUND_UP := fun a b => (a + b - 1) / b;
  PORT_TO_NUM := Example.num_of_port;
  NRF24_CE_PORT := PORTC;
  NRF24_CE_PIN := 0x08;
  NRF24_IRQ_PORT := PORTC;
  NRF24_IRQ_PIN_MASK := 0x04;
  NRF_NOP := 0xFF;
  SPI_PRESCALER_DIV8_gc := 0x01
|}.

(** Collaborators of the example whose SPI flag never sets (no radio
    on the bus). *)
#[local] Instance collab_no_radio : Collaborators := {|
  ledger_t := list Z;
  errors_t := list error_code;
  debounce_t := Example.debouncer;
  io_map_claim_pins := Example.claim;
  register_error := fun e l => l ++ [e];
  has_critical_error := fun l => negb (bool_decide (l = []));
  io_map_get_col_pin := fun i => 8 * (i + 1);
  io_map_get_row_pin := fun i => i;
  scanner_debounce_row := Example.debounce_row;
  get_matrix_num_keys_debouncing := fun d => snd d;
  init_matrix_scanner_utils := fun _ => (replicate 18 (replicate 6 0), 0);
  port_IN := Example.key_matrix;
  spi_status := fun _ => 0
|}.

(** The example board after reset, with no radio on the bus. *)
Definition no_radio : @machine collab_no_radio :=
  @mk_machine collab_no_radio (Example.plan_3x2 1) true false false Example.vars0
    (fun _ => port_reset) 0 (mk_spi_regs 0 0 0 0) (replicate 6 0) []
    (replicate 18 (replicate 6 0), 0) [].

(** The example board after reset with PC4, the SS pin, already claimed
    by another user. *)
Definition spi_pin_taken : @machine Example.collab :=
  @with_ledger Example.collab [0; 0; 0x10; 0; 0; 0]
    (Example.boot (Example.plan_3x2 1) true).

(** A radio driver whose power-down leaves the machine alone. *)
#[local] Instance radio_stub : @RadioCore Example.collab :=
  {| nrf24_power_set := fun _ m => m |}.

(** The 3 x 2 matrix with nominal delays of 200 cycles. *)
Definition long_delays : @machine Example.collab :=
  Example.boot (mk_plan 1 3 2 16 200 200) true.

End MoreExamples.

(** * Properties *)

(** ** Frame facts: what the scanner's code leaves alone *)

Lemma fold_left_invariant {S X T : Type} (f : S -> X -> S) (obs : S -> T) (l : list X) :
  (forall s x, obs (f s x) = obs s) -> forall s, obs (fold_left f l s) = obs s.
Proof.
  intros Hf. induction l as [|x l IH]; intros s; simpl; [reflexivity|].
  rewrite IH. apply Hf.
Qed.

Section Frames.
Context `{B : Board} `{C : Collaborators}.

Lemma config_blind : hw_blind config_of.
Proof. constructor; reflexivity. Qed.

Lemma row_tables_blind : hw_blind row_tables_of.
Proof. constructor; reflexivity. Qed.

Lemma flags_blind : hw_blind flags_of.
Proof. constructor; reflexivity. Qed.

Lemma sv_blind : hw_blind sv.
Proof. constructor; reflexivity. Qed.

Context {T : Type} (obs : machine -> T) (Hobs : hw_blind obs).

Lemma obs_port_store p r v m : obs (port_store p r v m) = obs m.
Proof.
  unfold port_store. rewrite (blind_emit _ Hobs).
  destruct r; rewrite ?(blind_MPCMASK _ Hobs); apply (blind_ports _ Hobs).
Qed.

Lemma obs_store_MPCMASK v m : obs (store_MPCMASK v m) = obs m.
Proof.
  unfold store_MPCMASK. now rewrite (blind_emit _ Hobs), (blind_MPCMASK _ Hobs).
Qed.

Lemma obs_claim_pins n mask m : obs (snd (claim_pins n mask m)) = obs m.
Proof.
  unfold claim_pins. cbn [snd]. now rewrite (blind_emit _ Hobs), (blind_ledger _ Hobs).
Qed.

Lemma obs_raise_error e m : obs (raise_error e m) = obs m.
Proof.
  unfold raise_error. now rewrite (blind_emit _ Hobs), (blind_errors _ Hobs).
Qed.

Lemma obs_setup_column_port p mask m :
  obs (snd (setup_column_port p mask m)) = obs m.
Proof.
  unfold setup_column_port.
  repeat match goal with |- context [if ?c then _ else _] => destruct c end;
    cbn [snd];
    rewrite ?obs_raise_error, ?obs_port_store, ?obs_store_MPCMASK, ?obs_port_store;
    reflexivity.
Qed.

Lemma obs_setup_row_pin p mask m :
  obs (snd (setup_row_pin p mask m)) = obs m.
Proof.
  unfold setup_row_pin.
  repeat match goal with |- context [if ?c then _ else _] => destruct c end;
    cbn [snd];
    rewrite ?obs_raise_error, ?obs_port_store, ?obs_store_MPCMASK, ?obs_port_store;
    reflexivity.
Qed.

Lemma obs_setup_columns_ports l : forall m,
  obs (setup_columns_ports l m) = obs m.
Proof.
  induction l as [|ii l IH]; intros m; cbn [setup_columns_ports]; [reflexivity|].
  destruct (col_mask_of m ii =? 0); [apply IH|].
  destruct (fst (claim_pins ii (col_mask_of m ii) m)).
  - now rewrite obs_raise_error, obs_claim_pins.
  - destruct (fst (setup_column_port _ _ _)).
    + now rewrite IH, obs_setup_column_port, obs_claim_pins.
    + now rewrite obs_setup_column_port, obs_claim_pins.
Qed.

Lemma obs_setup_columns m :
  (forall l m, obs (set_col_masks l m) = obs m) ->
  obs (setup_columns m) = obs m.
Proof.
  intros Hcm. unfold setup_columns. rewrite obs_setup_columns_ports.
  apply (fold_left_invariant add_col_mask obs). intros; apply Hcm.
Qed.

Lemma obs_setup_rows_loop l :
  (forall a b c m, obs (set_row_tables a b c m) = obs m) ->
  forall m, obs (setup_rows_loop l m) = obs m.
Proof.
  intros Hrt.
  induction l as [|i l IH]; intros m; cbn [setup_rows_loop]; [reflexivity|].
  destruct (fst (claim_pins _ _ m)).
  - now rewrite obs_raise_error, obs_claim_pins.
  - destruct (fst (setup_row_pin _ _ _)).
    + now rewrite IH, obs_setup_row_pin, Hrt, obs_claim_pins.
    + now rewrite obs_setup_row_pin, Hrt, obs_claim_pins.
Qed.

Lemma obs_setup_rows m :
  (forall a b c m, obs (set_row_tables a b c m) = obs m) ->
  obs (setup_rows m) = obs m.
Proof. intros Hrt. unfold setup_rows. now rewrite obs_setup_rows_loop, Hrt. Qed.

Lemma obs_unselect_all_rows m : obs (unselect_all_rows m) = obs m.
Proof. apply (fold_left_invariant _ obs). intros; apply obs_port_store. Qed.

Lemma obs_select_all_rows m : obs (select_all_rows m) = obs m.
Proof. apply (fold_left_invariant _ obs). intros; apply obs_port_store. Qed.

Lemma obs_set_int0_level lvl m : obs (set_int0_level lvl m) = obs m.
Proof. apply (fold_left_invariant _ obs). intros; apply obs_port_store. Qed.

Lemma obs_matrix_scan_irq_clear_flags m : obs (matrix_scan_irq_clear_flags m) = obs m.
Proof. apply (fold_left_invariant _ obs). intros; apply obs_port_store. Qed.

Lemma obs_matrix_scan_irq_disable m : obs (matrix_scan_irq_disable m) = obs m.
Proof.
  unfold matrix_scan_irq_disable. now rewrite obs_unselect_all_rows, obs_set_int0_level.
Qed.

Lemma obs_select_row row m : obs (select_row row m) = obs m.
Proof. unfold select_row. destruct (row_port_of m row); [apply obs_port_store | reflexivity]. Qed.

Lemma obs_unselect_row row m : obs (unselect_row row m) = obs m.
Proof. unfold unselect_row. destruct (row_port_of m row); [apply obs_port_store | reflexivity]. Qed.

Lemma obs_settle_delay m : obs (settle_delay m) = obs m.
Proof.
  unfold settle_delay, parasitic_discharge_delay.
  repeat match goal with |- context [if ?c then _ else _] => destruct c end;
    apply (blind_emit _ Hobs).
Qed.

Lemma obs_scan_row row m : obs (snd (scan_row row m)) = obs m.
Proof.
  unfold scan_row. cbn [snd]. now rewrite (blind_emit _ Hobs), (blind_debounce _ Hobs).
Qed.

Lemma obs_scan_loop_body row acc : obs (snd (scan_loop_body row acc)) = obs (snd acc).
Proof.
  unfold scan_loop_body. cbn [snd].
  now rewrite obs_unselect_row, obs_scan_row, obs_settle_delay, obs_select_row.
Qed.

End Frames.

(** ** Validation gate and delay rescaling *)

Section Init.
Context `{B : Board} `{C : Collaborators}.

(** C1.  A scan plan whose row count exceeds MAX_NUM_ROWS or whose highest
    column pin index exceeds IO_PORT_MAX_PIN_NUM makes [matrix_scanner_init]
    zero the plan, register ERROR_MATRIX_PINS_CONFIG_TOO_LARGE and return:
    the only event is the error registration (no pin claim, no register
    store), and the ledger, the ports, MPCMASK, the SPI module and the
    scanner's own variables are untouched. *)
Theorem init_rejects_oversized_plan (m : machine) :
  MAX_NUM_ROWS < rows (g_scan_plan m)
  \/ IO_PORT_MAX_PIN_NUM < max_col_pin_num (g_scan_plan m) ->
  let m' := matrix_scanner_init m in
  g_scan_plan m' = plan_zero
  /\ errors m' = register_error ERROR_MATRIX_PINS_CONFIG_TOO_LARGE (errors m)
  /\ log m' = log m ++ [EvRegisterError ERROR_MATRIX_PINS_CONFIG_TOO_LARGE]
  /\ ledger m' = ledger m
  /\ ports m' = ports m
  /\ MPCMASK m' = MPCMASK m
  /\ SPIC m' = SPIC m
  /\ sv m' = sv m
  /\ debounce m' = debounce m.
Proof.
  intros Hbig m'. subst m'. unfold matrix_scanner_init.
  assert ((MAX_NUM_ROWS <? rows (g_scan_plan m))
          || (IO_PORT_MAX_PIN_NUM <? max_col_pin_num (g_scan_plan m)) = true) as ->.
  { apply orb_true_iff. destruct Hbig; [left | right]; now apply Z.ltb_lt. }
  repeat split.
Qed.

Lemma init_config_preserved (m : machine) :
  (MAX_NUM_ROWS <? rows (g_scan_plan m))
  || (IO_PORT_MAX_PIN_NUM <? max_col_pin_num (g_scan_plan m)) = false ->
  exists m1, config_of m1 = config_of m /\
    matrix_scanner_init m =
      if g_slow_clock_mode m1 then
        set_delays
          (u8 (u16 (u16 (parasitic_discharge_delay_idle (g_scan_plan m1))
                    * u8 (CLOCK_SPEED_SLOW / 1000000)) / u8 (16000000 / 1000000)))
          (u8 (u16 (u16 (parasitic_discharge_delay_debouncing (g_scan_plan m1))
                    * u8 (CLOCK_SPEED_SLOW / 1000000)) / u8 (16000000 / 1000000))) m1
      else
        set_delays (parasitic_discharge_delay_idle (g_scan_plan m1))
                   (parasitic_discharge_delay_debouncing (g_scan_plan m1)) m1.
Proof.
  intros Hok. unfold matrix_scanner_init. rewrite Hok.
  eexists. split; [|reflexivity].
  unfold config_of at 1. cbn [g_scan_plan g_slow_clock_mode with_debounce].
  change (config_of (unselect_all_rows (matrix_scan_irq_disable (setup_columns
    (if (mode (g_scan_plan (set_bytes_per_row
            (u8 (INT_DIV_ROUND_UP (max_col_pin_num (g_scan_plan m) + 1) IO_PORT_SIZE)) m))
          =? MATRIX_SCANNER_MODE_COL_ROW)
        || (mode (g_scan_plan (set_bytes_per_row
            (u8 (INT_DIV_ROUND_UP (max_col_pin_num (g_scan_plan m) + 1) IO_PORT_SIZE)) m))
          =? MATRIX_SCANNER_MODE_ROW_COL)
     then setup_rows (set_bytes_per_row
            (u8 (INT_DIV_ROUND_UP (max_col_pin_num (g_scan_plan m) + 1) IO_PORT_SIZE)) m)
     else set_bytes_per_row
            (u8 (INT_DIV_ROUND_UP (max_col_pin_num (g_scan_plan m) + 1) IO_PORT_SIZE)) m))))
    = config_of m).
  rewrite (obs_unselect_all_rows _ config_blind),
    (obs_matrix_scan_irq_disable _ config_blind),
    (obs_setup_columns _ config_blind) by reflexivity.
  match goal with |- context [if ?c then _ else _] => destruct c end;
    [rewrite (obs_setup_rows _ config_blind) by reflexivity|]; reflexivity.
Qed.

(** C2.  For a plan that passes validation, with 8-bit nominal delays and a
    slow clock no faster than the 16 MHz reference: in slow-clock mode
    [matrix_scanner_init] stores D * (CLOCK_SPEED_SLOW / 1000000) / 16 for
    each nominal delay D, with integer (truncating) divisions; the 16-bit
    product does not wrap; for a slow clock that is a whole number of MHz
    this is floor(D * CLOCK_SPEED_SLOW / 16000000).  Outside slow-clock
    mode it stores D unchanged. *)
Theorem init_rescales_delays (m : machine) :
  rows (g_scan_plan m) <= MAX_NUM_ROWS ->
  max_col_pin_num (g_scan_plan m) <= IO_PORT_MAX_PIN_NUM ->
  0 <= parasitic_discharge_delay_idle (g_scan_plan m) < 256 ->
  0 <= parasitic_discharge_delay_debouncing (g_scan_plan m) < 256 ->
  0 <= CLOCK_SPEED_SLOW <= 16000000 ->
  let Di := parasitic_discharge_delay_idle (g_scan_plan m) in
  let Dd := parasitic_discharge_delay_debouncing (g_scan_plan m) in
  let slow_factor := CLOCK_SPEED_SLOW / 1000000 in
  let s' := sv (matrix_scanner_init m) in
  if g_slow_clock_mode m then
    s_parasitic_discharge_delay_idle s' = Di * slow_factor / 16
    /\ s_parasitic_discharge_delay_debouncing s' = Dd * slow_factor / 16
    /\ Di * slow_factor < 65536
    /\ Dd * slow_factor < 65536
    /\ (CLOCK_SPEED_SLOW mod 1000000 = 0 ->
        s_parasitic_discharge_delay_idle s' = Di * CLOCK_SPEED_SLOW / 16000000
        /\ s_parasitic_discharge_delay_debouncing s' = Dd * CLOCK_SPEED_SLOW / 16000000)
  else
    s_parasitic_discharge_delay_idle s' = Di
    /\ s_parasitic_discharge_delay_debouncing s' = Dd.
Proof.
  intros Hrows Hpins HDi HDd Hclk Di Dd slow_factor s'.
  destruct (init_config_preserved m) as (m1 & Hcfg & Hinit).
  { apply orb_false_iff. split; apply Z.ltb_ge; assumption. }
  injection Hcfg as Hplan Hslow.
  subst s'. rewrite Hinit, Hslow, Hplan. fold Di Dd.
  destruct (g_slow_clock_mode m); [|split; reflexivity].
  cbn [sv set_delays with_sv s_parasitic_discharge_delay_idle
       s_parasitic_discharge_delay_debouncing].
  assert (Hsf : 0 <= slow_factor <= 16).
  { subst slow_factor. split.
    - apply Z.div_pos; lia.
    - apply Z.div_le_upper_bound; lia. }
  assert (Hscale : forall D, 0 <= D < 256 ->
            u8 (u16 (u16 D * u8 (CLOCK_SPEED_SLOW / 1000000)) / u8 (16000000 / 1000000))
            = D * slow_factor / 16 /\ D * slow_factor < 65536).
  { intros D HD. fold slow_factor. change (16000000 / 1000000) with 16.
    unfold u8, u16.
    rewrite (Z.mod_small D) by lia.
    rewrite (Z.mod_small slow_factor) by lia.
    rewrite (Z.mod_small 16) by lia.
    assert (0 <= D * slow_factor <= 255 * 16) by nia.
    rewrite (Z.mod_small (D * slow_factor)) by lia.
    split; [|lia].
    apply Z.mod_small. split.
    - apply Z.div_pos; lia.
    - apply Z.div_lt_upper_bound; lia. }
  destruct (Hscale Di HDi) as [Ei Bi], (Hscale Dd HDd) as [Ed Bd].
  rewrite Ei, Ed. repeat split; try assumption.
  - assert (E : CLOCK_SPEED_SLOW = slow_factor * 1000000).
    { subst slow_factor. pose proof (Z.div_mod CLOCK_SPEED_SLOW 1000000). lia. }
    rewrite E. change 16000000 with (16 * 1000000).
    rewrite Z.mul_assoc. now rewrite Z.div_mul_cancel_r by lia.
  - assert (E : CLOCK_SPEED_SLOW = slow_factor * 1000000).
    { subst slow_factor. pose proof (Z.div_mod CLOCK_SPEED_SLOW 1000000). lia. }
    rewrite E. change 16000000 with (16 * 1000000).
    rewrite Z.mul_assoc. now rewrite Z.div_mul_cancel_r by lia.
Qed.

End Init.

(** ** Mode table *)

Section ModeTable.
Context `{B : Board} `{C : Collaborators}.

Lemma mode_labels_neq :
  mode_labels_distinct ->
  MATRIX_SCANNER_MODE_COL_ROW <> MATRIX_SCANNER_MODE_ROW_COL
  /\ MATRIX_SCANNER_MODE_COL_ROW <> MATRIX_SCANNER_MODE_PIN_GND
  /\ MATRIX_SCANNER_MODE_COL_ROW <> MATRIX_SCANNER_MODE_PIN_VCC
  /\ MATRIX_SCANNER_MODE_ROW_COL <> MATRIX_SCANNER_MODE_PIN_GND
  /\ MATRIX_SCANNER_MODE_ROW_COL <> MATRIX_SCANNER_MODE_PIN_VCC
  /\ MATRIX_SCANNER_MODE_PIN_GND <> MATRIX_SCANNER_MODE_PIN_VCC.
Proof.
  unfold mode_labels_distinct. intros Hd.
  apply NoDup_ListNoDup in Hd.
  apply List.NoDup_cons_iff in Hd as [H1 Hd].
  apply List.NoDup_cons_iff in Hd as [H2 Hd].
  apply List.NoDup_cons_iff in Hd as [H3 _].
  cbn [In] in H1, H2, H3.
  repeat split; intros E; rewrite E in *; tauto.
Qed.

(** Which arm of the two mode switches a known mode selects. *)
Lemma switch_pulldown_arm t :
  mode_labels_distinct ->
  (mode_value t =? MATRIX_SCANNER_MODE_ROW_COL)
  || (mode_value t =? MATRIX_SCANNER_MODE_PIN_VCC)
  = match t with ROW_COL | PIN_VCC => true | _ => false end.
Proof.
  intros Hd. destruct (mode_labels_neq Hd) as (?&?&?&?&?&?).
  destruct t; cbn [mode_value];
    rewrite ?Z.eqb_refl, ?orb_true_r; try reflexivity;
    apply orb_false_iff; split; apply Z.eqb_neq; congruence.
Qed.

Lemma switch_pullup_arm t :
  mode_labels_distinct ->
  (mode_value t =? MATRIX_SCANNER_MODE_COL_ROW)
  || (mode_value t =? MATRIX_SCANNER_MODE_PIN_GND)
  = match t with COL_ROW | PIN_GND => true | _ => false end.
Proof.
  intros Hd. destruct (mode_labels_neq Hd) as (?&?&?&?&?&?).
  destruct t; cbn [mode_value];
    rewrite ?Z.eqb_refl, ?orb_true_r; try reflexivity;
    apply orb_false_iff; split; apply Z.eqb_neq; congruence.
Qed.

Lemma switch_default_arm md :
  ~ known_mode md ->
  (md =? MATRIX_SCANNER_MODE_ROW_COL) || (md =? MATRIX_SCANNER_MODE_PIN_VCC) = false
  /\ (md =? MATRIX_SCANNER_MODE_COL_ROW) || (md =? MATRIX_SCANNER_MODE_PIN_GND) = false.
Proof.
  intros Hu.
  split; apply orb_false_iff; split; apply Z.eqb_neq; intros E; apply Hu.
  - now exists ROW_COL.
  - now exists PIN_VCC.
  - now exists COL_ROW.
  - now exists PIN_GND.
Qed.

(** A PINnCTRL store reaches every pin selected by a non-zero MPCMASK. *)
Lemma pinctrl_write_hit mpc v ctl n :
  length ctl = 8%nat -> 0 <= n < 8 -> Z.testbit mpc n = true ->
  arr_get (pinctrl_write mpc v ctl) n = v.
Proof.
  intros Hlen Hn Hbit. unfold arr_get, pinctrl_write.
  assert (mpc <> 0) as ->%Z.eqb_neq.
  { intros ->. now rewrite Z.bits_0 in Hbit. }
  rewrite list_lookup_total_alt, list_lookup_imap.
  destruct (lookup_lt_is_Some_2 ctl (Z.to_nat n)) as [x ->]; [lia|].
  cbn. now rewrite Z2Nat.id, Hbit by lia.
Qed.

Lemma pin_config_after_pin0ctrl p v m n :
  length (PINCTRL (ports m p)) = 8%nat -> 0 <= n < 8 ->
  Z.testbit (MPCMASK m) n = true ->
  pin_config (port_store p R_PIN0CTRL v m) p n = decode_pinctrl v.
Proof.
  intros Hlen Hn Hbit. unfold pin_config, port_store.
  cbn [ports emit with_MPCMASK with_ports].
  destruct (decide (p = p)); [|congruence].
  cbn [reg_store PINCTRL]. now rewrite pinctrl_write_hit.
Qed.

Lemma ports_port_store p r v m q :
  ports (port_store p r v m) q =
  if decide (q = p) then reg_store r v (MPCMASK m) (ports m p) else ports m q.
Proof. unfold port_store. destruct r; reflexivity. Qed.

Lemma MPCMASK_port_store_other p r v m :
  r <> R_PIN0CTRL -> MPCMASK (port_store p r v m) = MPCMASK m.
Proof. unfold port_store. destruct r; intros; congruence || reflexivity. Qed.


Lemma plan_blind : hw_blind g_scan_plan.
Proof. constructor; reflexivity. Qed.

Lemma errors_port_store p r v m : errors (port_store p r v m) = errors m.
Proof. destruct r; reflexivity. Qed.

Lemma u8_testbit_low x n : 0 <= n < 8 -> Z.testbit (u8 x) n = Z.testbit x n.
Proof.
  intros Hn. unfold u8. change 256 with (2 ^ 8).
  apply Z.mod_pow2_bits_low. lia.
Qed.

(** Columns under a known mode. *)
Lemma setup_column_port_known t m port mask n :
  mode_labels_distinct ->
  mode (g_scan_plan m) = mode_value t ->
  length (PINCTRL (ports m port)) = 8%nat -> 0 <= n < 8 ->
  Z.testbit mask n = true ->
  let r := setup_column_port port mask m in
  fst r = true
  /\ column_cfg_matches (table_column t) (pin_config (snd r) port n) = true
  /\ Z.testbit (DIR (ports (snd r) port)) n = false
  /\ Z.testbit (INT0MASK (ports (snd r) port)) n = true.
Proof.
  intros Hd Hmode Hlen Hn Hbit r. subst r. unfold setup_column_port.
  rewrite (obs_store_MPCMASK _ plan_blind), !(obs_port_store _ plan_blind), Hmode.
  rewrite (switch_pulldown_arm t Hd), (switch_pullup_arm t Hd).
  set (m3 := store_MPCMASK mask _).
  assert (Hlen3 : length (PINCTRL (ports m3 port)) = 8%nat).
  { subst m3. cbn. destruct (decide (port = port)); [|congruence]. cbn.
    destruct (decide (port = port)); [|congruence]. exact Hlen. }
  assert (Hmpc : Z.testbit (MPCMASK m3) n = true) by exact Hbit.
  assert (Hdir : Z.testbit (DIR (ports m3 port)) n = false).
  { subst m3. cbn. destruct (decide (port = port)); [|congruence]. cbn.
    destruct (decide (port = port)); [|congruence]. cbn.
    rewrite Z.ldiff_spec, Hbit by lia. apply andb_false_r. }
  assert (Hint : Z.testbit (INT0MASK (ports m3 port)) n = true).
  { subst m3. cbn. destruct (decide (port = port)); [|congruence]. cbn.
    rewrite u8_testbit_low, Z.lor_spec, Hbit by lia. apply orb_true_r. }
  assert (Hkeep : forall v,
            DIR (ports (port_store port R_PIN0CTRL v m3) port) = DIR (ports m3 port)
            /\ INT0MASK (ports (port_store port R_PIN0CTRL v m3) port)
               = INT0MASK (ports m3 port)).
  { intros v. rewrite ports_port_store.
    destruct (decide (port = port)); [|congruence]. split; reflexivity. }
  destruct t; cbn [fst snd];
    rewrite pin_config_after_pin0ctrl by assumption;
    (split; [reflexivity|]); (split; [reflexivity|]);
    match goal with |- context [port_store port R_PIN0CTRL ?v m3] =>
      destruct (Hkeep v) as [-> ->] end;
    split; assumption.
Qed.

(** Rows under ROW_COL and COL_ROW. *)
Lemma setup_row_pin_known t pol m port mask n :
  mode_labels_distinct ->
  mode (g_scan_plan m) = mode_value t ->
  table_row_amended t = Some pol ->
  length (PINCTRL (ports m port)) = 8%nat -> 0 <= n < 8 ->
  Z.testbit mask n = true ->
  let r := setup_row_pin port mask m in
  fst r = true
  /\ pin_config (snd r) port n
     = mk_pin_cfg (row_inverted pol)
         (if row_inverted pol then OPC_WIREDOR else OPC_WIREDAND) ISC_BOTHEDGES
  /\ row_cfg_matches pol (pin_config (snd r) port n) = true
  /\ Z.testbit (DIR (ports (snd r) port)) n = true.
Proof.
  intros Hd Hmode Hpol Hlen Hn Hbit r. subst r. unfold setup_row_pin.
  rewrite (obs_store_MPCMASK _ plan_blind), !(obs_port_store _ plan_blind), Hmode.
  rewrite (switch_pulldown_arm t Hd), (switch_pullup_arm t Hd).
  set (m3 := store_MPCMASK mask _).
  assert (Hlen3 : length (PINCTRL (ports m3 port)) = 8%nat).
  { subst m3. cbn. destruct (decide (port = port)); [|congruence]. cbn.
    destruct (decide (port = port)); [|congruence]. exact Hlen. }
  assert (Hmpc : Z.testbit (MPCMASK m3) n = true) by exact Hbit.
  assert (Hdir : Z.testbit (DIR (ports m3 port)) n = true).
  { subst m3. cbn. destruct (decide (port = port)); [|congruence]. cbn.
    destruct (decide (port = port)); [|congruence]. cbn.
    rewrite Z.lor_spec, Hbit by lia. apply orb_true_r. }
  assert (Hkeep : forall v,
            DIR (ports (port_store port R_PIN0CTRL v m3) port) = DIR (ports m3 port)).
  { intros v. rewrite ports_port_store.
    destruct (decide (port = port)); [|congruence]. reflexivity. }
  destruct t; cbn in Hpol; try discriminate; injection Hpol as <-; cbn [fst snd];
    rewrite pin_config_after_pin0ctrl by assumption;
    (split; [reflexivity|]); (split; [reflexivity|]); (split; [reflexivity|]);
    rewrite Hkeep; assumption.
Qed.

(** Any other mode value: the hardware block reports failure, registers
    the error and writes no PINnCTRL. *)
Lemma setup_column_port_unknown m port mask :
  ~ known_mode (mode (g_scan_plan m)) ->
  let r := setup_column_port port mask m in
  fst r = false
  /\ errors (snd r) = register_error ERROR_UNSUPPORTED_SCAN_MODE (errors m)
  /\ (forall q, PINCTRL (ports (snd r) q) = PINCTRL (ports m q))
  /\ last (log (snd r)) = Some (EvRegisterError ERROR_UNSUPPORTED_SCAN_MODE).
Proof.
  intros Hu r. subst r. unfold setup_column_port.
  rewrite (obs_store_MPCMASK _ plan_blind), !(obs_port_store _ plan_blind).
  destruct (switch_default_arm _ Hu) as [-> ->]. cbn [fst snd].
  split; [reflexivity|]. split; [reflexivity|]. split.
  - intros q. cbn.
    repeat (destruct (decide _) as [?|?]; cbn); subst; reflexivity || congruence.
  - unfold raise_error, emit. cbn [log]. apply last_snoc.
Qed.

Lemma setup_row_pin_unknown m port mask :
  ~ known_mode (mode (g_scan_plan m)) ->
  let r := setup_row_pin port mask m in
  fst r = false
  /\ errors (snd r) = register_error ERROR_UNSUPPORTED_SCAN_MODE (errors m)
  /\ (forall q, PINCTRL (ports (snd r) q) = PINCTRL (ports m q))
  /\ last (log (snd r)) = Some (EvRegisterError ERROR_UNSUPPORTED_SCAN_MODE).
Proof.
  intros Hu r. subst r. unfold setup_row_pin.
  rewrite (obs_store_MPCMASK _ plan_blind), !(obs_port_store _ plan_blind).
  destruct (switch_default_arm _ Hu) as [-> ->]. cbn [fst snd].
  split; [reflexivity|]. split; [reflexivity|]. split.
  - intros q. cbn.
    repeat (destruct (decide _) as [?|?]; cbn); subst; reflexivity || congruence.
  - unfold raise_error, emit. cbn [log]. apply last_snoc.
Qed.

(** After the default case no further port or row is visited. *)
Lemma setup_columns_ports_unknown_stops m ii rest :
  ~ known_mode (mode (g_scan_plan m)) ->
  col_mask_of m ii <> 0 ->
  setup_columns_ports (ii :: rest) m = setup_columns_ports [ii] m.
Proof.
  intros Hu Hmask. cbn [setup_columns_ports].
  apply Z.eqb_neq in Hmask. rewrite Hmask.
  destruct (fst (claim_pins ii (col_mask_of m ii) m)); [reflexivity|].
  destruct (setup_column_port_unknown (snd (claim_pins ii (col_mask_of m ii) m))
              (IO_MAP_GET_PORT ii) (col_mask_of m ii)) as [-> _]; [|reflexivity].
  now rewrite (obs_claim_pins _ plan_blind).
Qed.

Lemma setup_rows_loop_unknown_stops m i rest :
  ~ known_mode (mode (g_scan_plan m)) ->
  setup_rows_loop (i :: rest) m = setup_rows_loop [i] m.
Proof.
  intros Hu. cbn [setup_rows_loop].
  destruct (fst (claim_pins _ _ m)); [reflexivity|].
  match goal with |- context [setup_row_pin ?p ?k ?x] =>
    destruct (setup_row_pin_unknown x p k) as [-> _]; [|reflexivity] end.
  unfold set_row_tables, with_sv. cbn [g_scan_plan].
  now rewrite (obs_claim_pins _ plan_blind).
Qed.

End ModeTable.

(** ** Reasoning about the event log *)

Section Log.
Context `{B : Board} `{C : Collaborators}.
Variable Q : event -> Prop.

Lemma extends_refl m : extends_log Q m m.
Proof. exists []. split; [now rewrite app_nil_r | constructor]. Qed.

Lemma extends_same_log m m' : log m' = log m -> extends_log Q m m'.
Proof. intros E. exists []. split; [now rewrite app_nil_r | constructor]. Qed.

Lemma extends_trans m1 m2 m3 :
  extends_log Q m1 m2 -> extends_log Q m2 m3 -> extends_log Q m1 m3.
Proof.
  intros (e1 & L1 & F1) (e2 & L2 & F2). exists (e1 ++ e2). split.
  - now rewrite L2, L1, app_assoc.
  - now apply Forall_app.
Qed.

Lemma extends_emit e m : Q e -> extends_log Q m (emit e m).
Proof. intros He. exists [e]. split; [reflexivity | now constructor]. Qed.

Lemma extends_port_store p r v m :
  Q (EvPortStore p r v) -> extends_log Q m (port_store p r v m).
Proof. intros He. exists [EvPortStore p r v]. split; [now destruct r | now constructor]. Qed.

Lemma extends_claim_pins n mask m :
  Q (EvClaimPins n mask) -> extends_log Q m (snd (claim_pins n mask m)).
Proof. intros He. exists [EvClaimPins n mask]. split; [reflexivity | now constructor]. Qed.

Lemma extends_raise_error e m :
  Q (EvRegisterError e) -> extends_log Q m (raise_error e m).
Proof. intros He. exists [EvRegisterError e]. split; [reflexivity | now constructor]. Qed.

Lemma extends_fold {X : Type} (f : machine -> X -> machine) (l : list X) :
  (forall s x, extends_log Q s (f s x)) ->
  forall s, extends_log Q s (fold_left f l s).
Proof.
  intros Hf. induction l as [|x l IH]; intros s; cbn [fold_left].
  - apply extends_refl.
  - eapply extends_trans; [apply Hf | apply IH].
Qed.

Lemma new_events_extends m m' evs :
  log m' = log m ++ evs -> new_events m m' = evs.
Proof. intros E. unfold new_events. rewrite E. apply drop_app_length. Qed.

End Log.

(** ** Pin modes configure no row pin *)

Section NoRows.
Context `{B : Board} `{C : Collaborators}.

Lemma no_rows_setup_column_port p mask m :
  extends_log not_row_config m (snd (setup_column_port p mask m)).
Proof.
  unfold setup_column_port.
  repeat match goal with |- context [if ?c then _ else _] => destruct c end;
    cbn [snd];
    repeat (eapply extends_trans;
            [| first [ apply extends_port_store; reflexivity
                     | apply extends_raise_error; reflexivity
                     | apply extends_emit; reflexivity ] ]);
    apply extends_refl.
Qed.

Lemma no_rows_setup_columns_ports l : forall m,
  extends_log not_row_config m (setup_columns_ports l m).
Proof.
  induction l as [|ii l IH]; intros m; cbn [setup_columns_ports].
  - apply extends_refl.
  - destruct (col_mask_of m ii =? 0); [apply IH|].
    assert (Hcl : extends_log not_row_config m (snd (claim_pins ii (col_mask_of m ii) m))).
    { apply extends_claim_pins. reflexivity. }
    destruct (fst (claim_pins ii (col_mask_of m ii) m)).
    + eapply extends_trans; [exact Hcl | apply extends_raise_error; reflexivity].
    + eapply extends_trans; [exact Hcl|].
      destruct (fst (setup_column_port _ _ _)).
      * eapply extends_trans; [apply no_rows_setup_column_port | apply IH].
      * apply no_rows_setup_column_port.
Qed.

Lemma no_rows_setup_columns m : extends_log not_row_config m (setup_columns m).
Proof.
  unfold setup_columns.
  eapply extends_trans; [|apply no_rows_setup_columns_ports].
  apply extends_same_log.
  apply (fold_left_invariant add_col_mask log). reflexivity.
Qed.

Lemma no_rows_irq_disable m : extends_log not_row_config m (matrix_scan_irq_disable m).
Proof.
  unfold matrix_scan_irq_disable.
  eapply extends_trans; apply extends_fold; intros; apply extends_port_store; reflexivity.
Qed.

Lemma no_rows_unselect_all m : extends_log not_row_config m (unselect_all_rows m).
Proof. apply extends_fold; intros; apply extends_port_store; reflexivity. Qed.

(** When the mode is neither COL_ROW nor ROW_COL, initialisation of a
    valid plan makes no pin an output and leaves the row tables alone. *)
Lemma init_without_row_setup m :
  (MAX_NUM_ROWS <? rows (g_scan_plan m))
  || (IO_PORT_MAX_PIN_NUM <? max_col_pin_num (g_scan_plan m)) = false ->
  (mode (g_scan_plan m) =? MATRIX_SCANNER_MODE_COL_ROW)
  || (mode (g_scan_plan m) =? MATRIX_SCANNER_MODE_ROW_COL) = false ->
  extends_log not_row_config m (matrix_scanner_init m)
  /\ row_tables_of (matrix_scanner_init m) = row_tables_of m.
Proof.
  intros Hok Hmode. unfold matrix_scanner_init. rewrite Hok.
  cbn [g_scan_plan set_bytes_per_row with_sv]. rewrite Hmode.
  set (m0 := set_bytes_per_row _ m).
  set (m4 := with_debounce _ _).
  assert (Hlog : extends_log not_row_config m m4).
  { subst m4. eapply extends_trans; [|apply extends_same_log; reflexivity].
    eapply extends_trans; [|apply no_rows_unselect_all].
    eapply extends_trans; [|apply no_rows_irq_disable].
    eapply extends_trans; [|apply no_rows_setup_columns].
    apply extends_same_log. reflexivity. }
  assert (Htab : row_tables_of m4 = row_tables_of m).
  { subst m4. rewrite (blind_debounce _ row_tables_blind).
    rewrite (obs_unselect_all_rows _ row_tables_blind),
      (obs_matrix_scan_irq_disable _ row_tables_blind),
      (obs_setup_columns _ row_tables_blind) by reflexivity.
    reflexivity. }
  destruct (g_slow_clock_mode m4); (split;
    [ eapply extends_trans; [exact Hlog | apply extends_same_log; reflexivity]
    | rewrite <- Htab; reflexivity ]).
Qed.

End NoRows.

Section ModeTableTheorem.
Context `{B : Board} `{C : Collaborators}.

(** C3 (amended).  With pairwise different mode labels, for a pin [n]
    selected by the mask handed to the hardware block of a port:
    - columns: under ROW_COL and PIN_VCC the pin becomes an input with
      pull-down, no inversion and both-edge sensing; under COL_ROW and
      PIN_GND an input with pull-up, inversion and both-edge sensing; its
      INT0MASK bit is set;
    - rows: under ROW_COL the pin becomes an inverted wired-OR output and
      under COL_ROW a non-inverted wired-AND output; in both cases the pin
      is disconnected by writing 1 to its OUT bit and driven by writing 0;
    - under PIN_VCC and PIN_GND initialisation of a valid plan performs no
      row configuration (no DIRSET store, no wired output stage) and
      leaves the row tables unchanged;
    - under any other mode value, once the hardware block of a port or of
      a row is reached, ERROR_UNSUPPORTED_SCAN_MODE is registered as the
      last action, no PINnCTRL register is written, and the enclosing
      loop visits no further port or row. *)
Theorem mode_table_configuration (m : machine) (port : io_port) (mask n : Z) :
  mode_labels_distinct ->
  length (PINCTRL (ports m port)) = 8%nat ->
  0 <= n < 8 ->
  Z.testbit mask n = true ->
  (forall t, mode (g_scan_plan m) = mode_value t ->
     fst (setup_column_port port mask m) = true
     /\ column_cfg_matches (table_column t)
          (pin_config (snd (setup_column_port port mask m)) port n) = true
     /\ Z.testbit (DIR (ports (snd (setup_column_port port mask m)) port)) n = false
     /\ Z.testbit (INT0MASK (ports (snd (setup_column_port port mask m)) port)) n = true)
  /\ (forall t pol, mode (g_scan_plan m) = mode_value t ->
        table_row_amended t = Some pol ->
        fst (setup_row_pin port mask m) = true
        /\ pin_config (snd (setup_row_pin port mask m)) port n
           = mk_pin_cfg (row_inverted pol)
               (if row_inverted pol then OPC_WIREDOR else OPC_WIREDAND) ISC_BOTHEDGES
        /\ row_cfg_matches pol (pin_config (snd (setup_row_pin port mask m)) port n) = true
        /\ Z.testbit (DIR (ports (snd (setup_row_pin port mask m)) port)) n = true)
  /\ (forall t, mode (g_scan_plan m) = mode_value t ->
        table_row_amended t = None ->
        rows (g_scan_plan m) <= MAX_NUM_ROWS ->
        max_col_pin_num (g_scan_plan m) <= IO_PORT_MAX_PIN_NUM ->
        Forall not_row_config (new_events m (matrix_scanner_init m))
        /\ row_tables_of (matrix_scanner_init m) = row_tables_of m)
  /\ (~ known_mode (mode (g_scan_plan m)) ->
        (fst (setup_column_port port mask m) = false
         /\ errors (snd (setup_column_port port mask m))
            = register_error ERROR_UNSUPPORTED_SCAN_MODE (errors m)
         /\ (forall q, PINCTRL (ports (snd (setup_column_port port mask m)) q)
                       = PINCTRL (ports m q))
         /\ last (log (snd (setup_column_port port mask m)))
            = Some (EvRegisterError ERROR_UNSUPPORTED_SCAN_MODE))
        /\ (fst (setup_row_pin port mask m) = false
            /\ errors (snd (setup_row_pin port mask m))
               = register_error ERROR_UNSUPPORTED_SCAN_MODE (errors m)
            /\ (forall q, PINCTRL (ports (snd (setup_row_pin port mask m)) q)
                          = PINCTRL (ports m q))
            /\ last (log (snd (setup_row_pin port mask m)))
               = Some (EvRegisterError ERROR_UNSUPPORTED_SCAN_MODE))
        /\ (forall ii rest, col_mask_of m ii <> 0 ->
              setup_columns_ports (ii :: rest) m = setup_columns_ports [ii] m)
        /\ (forall i rest, setup_rows_loop (i :: rest) m = setup_rows_loop [i] m)).
Proof.
  intros Hd Hlen Hn Hbit. split; [|split; [|split]].
  - intros t Ht. now apply setup_column_port_known.
  - intros t pol Ht Hpol. now apply setup_row_pin_known with (t := t).
  - intros t Ht Hnone Hrows Hpins.
    destruct (init_without_row_setup m) as [(evs & Hlog & Hall) Htab].
    + apply orb_false_iff. split; apply Z.ltb_ge; assumption.
    + rewrite Ht. destruct (mode_labels_neq Hd) as (?&?&?&?&?&?).
      destruct t; try discriminate; cbn [mode_value];
        apply orb_false_iff; split; apply Z.eqb_neq; congruence.
    + split; [|exact Htab]. now rewrite (new_events_extends _ _ _ Hlog).
  - intros Hu. split; [|split; [|split]].
    + now apply setup_column_port_unknown.
    + now apply setup_row_pin_unknown.
    + intros ii rest Hmask. now apply setup_columns_ports_unknown_stops.
    + intros i rest. now apply setup_rows_loop_unknown_stops.
Qed.

End ModeTableTheorem.

Section ExampleRuns.
#[local] Existing Instance Example.board.
#[local] Existing Instance Example.collab.

Lemma example_labels_distinct : mode_labels_distinct.
Proof.
  unfold mode_labels_distinct. apply NoDup_ListNoDup.
  repeat (constructor; [cbn; lia|]). constructor.
Qed.

(** C1, evaluated on a plan with 19 rows where 18 are allowed. *)
Lemma init_rejects_oversized_plan_witness :
  g_scan_plan (matrix_scanner_init Runs.oversized) = plan_zero
  /\ log (matrix_scanner_init Runs.oversized)
     = [EvRegisterError ERROR_MATRIX_PINS_CONFIG_TOO_LARGE].
Proof.
  destruct (init_rejects_oversized_plan Runs.oversized) as (Hp & _ & Hl & _).
  - left. reflexivity.
  - split; [exact Hp | exact Hl].
Defined.

(** C2, evaluated at D = 40 with a 1 MHz slow clock: the stored delays
    are 2. *)
Lemma init_rescales_delays_witness :
  s_parasitic_discharge_delay_idle (sv (matrix_scanner_init (Runs.fresh 1 true))) = 2
  /\ s_parasitic_discharge_delay_debouncing (sv (matrix_scanner_init (Runs.fresh 1 true))) = 2
  /\ s_parasitic_discharge_delay_idle (sv (matrix_scanner_init (Runs.fresh 1 false))) = 40.
Proof.
  pose proof (init_rescales_delays (Runs.fresh 1 true)) as Hs.
  pose proof (init_rescales_delays (Runs.fresh 1 false)) as Hf.
  cbv zeta in Hs, Hf.
  destruct Hs as (Hi & Hdb & _); [cbn; lia | cbn; lia | cbn; lia | cbn; lia | cbn; lia |].
  destruct Hf as (Hi' & _); [cbn; lia | cbn; lia | cbn; lia | cbn; lia | cbn; lia |].
  split; [exact Hi | split; [exact Hdb | exact Hi']].
Defined.

(** C3 as the design document states it fails on COL_ROW rows.  After
    [matrix_scanner_init] of the 3 x 2 COL_ROW matrix, row 0 sits on PA0
    with PIN0CTRL = PORT_OPC_WIREDAND_gc: the table asks for a pin
    released by writing 0, while this wired-AND, non-inverted pin floats
    after a 1 is written and drives after a 0. *)
Lemma col_row_row_pin_contradicts_table :
  mode (g_scan_plan Runs.ready) = mode_value COL_ROW
  /\ row_port_of Runs.ready 0 = Some PORTA
  /\ row_pin_mask_of Runs.ready 0 = 1
  /\ arr_get (PINCTRL (ports Runs.ready PORTA)) 0 = PORT_OPC_WIREDAND_gc
  /\ table_row COL_ROW = Some (mk_row_policy false false)
  /\ row_cfg_matches (mk_row_policy false false) (pin_config Runs.ready PORTA 0) = false
  /\ pin_disconnected (pin_config Runs.ready PORTA 0) false = false
  /\ pin_disconnected (pin_config Runs.ready PORTA 0) true = true.
Proof. repeat split. Qed.

Lemma mode_table_configuration_witness :
  column_cfg_matches (table_column COL_ROW)
    (pin_config (snd (setup_column_port PORTA 1 (Runs.fresh 1 true))) PORTA 0) = true
  /\ row_cfg_matches (mk_row_policy false true)
       (pin_config (snd (setup_row_pin PORTA 1 (Runs.fresh 1 true))) PORTA 0) = true.
Proof.
  destruct (mode_table_configuration (Runs.fresh 1 true) PORTA 1 0) as (Hc & Hr & _).
  - exact example_labels_distinct.
  - reflexivity.
  - lia.
  - reflexivity.
  - destruct (Hc COL_ROW eq_refl) as (_ & Hcol & _).
    destruct (Hr COL_ROW (mk_row_policy false true) eq_refl eq_refl) as (_ & _ & Hrow & _).
    split; [exact Hcol | exact Hrow].
Defined.

End ExampleRuns.

(** ** The scan loop *)

Lemma upto_nonpos k : k <= 0 -> upto k = [].
Proof.
  intros Hk. unfold upto. destruct k; try lia; try reflexivity.
Qed.

Lemma upto_succ k : 0 <= k -> upto (k + 1) = upto k ++ [k].
Proof.
  intros Hk. unfold upto.
  replace (Z.to_nat (k + 1)) with (S (Z.to_nat k)) by lia.
  rewrite seq_S, map_app. cbn [map Nat.add]. now rewrite Z2Nat.id.
Qed.

Lemma upto_elem k j : In j (upto k) <-> 0 <= j < k.
Proof.
  unfold upto. rewrite in_map_iff. split.
  - intros (n & <- & Hn%in_seq). lia.
  - intros Hj. exists (Z.to_nat j). split; [lia|]. apply in_seq. lia.
Qed.

Section ScanLoop.
Context `{B : Board} `{C : Collaborators}.

Lemma row_store_event_sv m m' r row :
  sv m' = sv m -> row_store_event m' r row = row_store_event m r row.
Proof.
  intros E. unfold row_store_event, row_port_of, row_pin_mask_of. now rewrite E.
Qed.

Lemma log_select_row row m :
  log (select_row row m) = log m ++ row_store_event m R_OUTCLR row.
Proof.
  unfold select_row, row_store_event.
  destruct (row_port_of m row); [reflexivity | now rewrite app_nil_r].
Qed.

Lemma log_unselect_row row m :
  log (unselect_row row m) = log m ++ row_store_event m R_OUTSET row.
Proof.
  unfold unselect_row, row_store_event.
  destruct (row_port_of m row); [reflexivity | now rewrite app_nil_r].
Qed.

Lemma log_settle_delay m :
  log (settle_delay m)
  = log m ++ [EvDelay (fst (expected_delay m)) (snd (expected_delay m))].
Proof.
  unfold settle_delay, expected_delay. cbn [fst snd].
  destruct (truthy _), (g_slow_clock_mode m); reflexivity.
Qed.

Lemma ports_settle_delay m : ports (settle_delay m) = ports m.
Proof.
  unfold settle_delay. destruct (truthy _), (g_slow_clock_mode m); reflexivity.
Qed.

Lemma debounce_settle_delay m : debounce (settle_delay m) = debounce m.
Proof.
  unfold settle_delay. destruct (truthy _), (g_slow_clock_mode m); reflexivity.
Qed.

Lemma debounce_select_row row m : debounce (select_row row m) = debounce m.
Proof.
  unfold select_row. destruct (row_port_of m row) as [p|]; [|reflexivity].
  reflexivity.
Qed.

Lemma slow_clock_select_row row m :
  g_slow_clock_mode (select_row row m) = g_slow_clock_mode m.
Proof.
  unfold select_row. destruct (row_port_of m row) as [p|]; reflexivity.
Qed.

Lemma expected_delay_select_row row m :
  expected_delay (select_row row m) = expected_delay m.
Proof.
  unfold expected_delay.
  now rewrite slow_clock_select_row, debounce_select_row, (obs_select_row _ sv_blind).
Qed.

Lemma or_into_changed b v : truthy (Z.lor (b2z b) (b2z v)) = b || v.
Proof. destruct b, v; reflexivity. Qed.

(** One loop iteration: its events and the updated result flag. *)
Lemma scan_loop_body_spec row b m :
  exists v,
    log (snd (scan_loop_body row (b, m))) = log m ++ iteration_events m row
    /\ debounce_verdicts (iteration_events m row) = [v]
    /\ fst (scan_loop_body row (b, m)) = b || v.
Proof.
  unfold scan_loop_body. cbn [fst snd].
  set (m1 := settle_delay (select_row row m)).
  exists (fst (scanner_debounce_row row (column_sample m1) (s_bytes_per_row (sv m))
                 (debounce m))).
  assert (Hsv1 : sv m1 = sv m).
  { subst m1. now rewrite (obs_settle_delay _ sv_blind), (obs_select_row _ sv_blind). }
  assert (Hdb1 : debounce m1 = debounce m).
  { subst m1. now rewrite debounce_settle_delay, debounce_select_row. }
  split; [|split].
  - rewrite log_unselect_row.
    rewrite (row_store_event_sv m) by (now rewrite (obs_scan_row _ sv_blind)).
    unfold scan_row at 1. cbn [snd log emit with_debounce].
    fold (column_sample m1). rewrite Hsv1, Hdb1.
    subst m1. rewrite log_settle_delay, log_select_row, expected_delay_select_row.
    unfold iteration_events. rewrite <- !app_assoc. reflexivity.
  - unfold iteration_events, debounce_verdicts, row_store_event.
    rewrite !omap_app. fold m1.
    destruct (row_port_of m row); reflexivity.
  - unfold scan_row. cbn [fst]. fold (column_sample m1). rewrite Hsv1, Hdb1.
    apply or_into_changed.
Qed.

Lemma scan_prefix_nonpos m k : k <= 0 -> scan_prefix m k = (false, m).
Proof. intros Hk. unfold scan_prefix. now rewrite upto_nonpos. Qed.

Lemma scan_prefix_succ m k :
  0 <= k -> scan_prefix m (k + 1) = scan_loop_body k (scan_prefix m k).
Proof.
  intros Hk. unfold scan_prefix. rewrite upto_succ by assumption.
  now rewrite fold_left_app.
Qed.

Lemma obs_scan_prefix {T : Type} (obs : machine -> T) (Hobs : hw_blind obs) m k :
  obs (snd (scan_prefix m k)) = obs m.
Proof.
  unfold scan_prefix.
  apply (fold_left_invariant (fun acc row => scan_loop_body row acc) (fun acc => obs (snd acc))).
  intros acc row. now apply obs_scan_loop_body.
Qed.

(** The log of the first [k] iterations, and the result flag so far. *)
Lemma scan_prefix_spec m k :
  0 <= k ->
  log (snd (scan_prefix m k))
  = log m ++ flat_map (fun j => iteration_events (snd (scan_prefix m j)) j) (upto k)
  /\ fst (scan_prefix m k)
     = existsb id (debounce_verdicts
         (flat_map (fun j => iteration_events (snd (scan_prefix m j)) j) (upto k))).
Proof.
  intros Hk. pattern k. apply natlike_ind; [| |exact Hk]; clear k Hk.
  - rewrite scan_prefix_nonpos by lia. cbn. now rewrite app_nil_r.
  - intros k Hk [IHlog IHres]. change (Z.succ k) with (k + 1).
    rewrite scan_prefix_succ, upto_succ, flat_map_app by assumption.
    cbn [flat_map]. rewrite app_nil_r.
    destruct (scan_prefix m k) as [b mk] eqn:E. cbn [fst snd] in *.
    destruct (scan_loop_body_spec k b mk) as (v & Hlog & Hv & Hres).
    split.
    + now rewrite Hlog, IHlog, <- app_assoc.
    + rewrite Hres, IHres. unfold debounce_verdicts in *.
      rewrite omap_app, existsb_app, Hv. cbn. now rewrite orb_false_r.
Qed.

Lemma debounce_rows_iteration m row : debounce_rows (iteration_events m row) = [row].
Proof.
  unfold iteration_events, debounce_rows, row_store_event. rewrite !omap_app.
  destruct (row_port_of m row); reflexivity.
Qed.

Lemma delays_iteration m row : delays (iteration_events m row) = [expected_delay m].
Proof.
  unfold iteration_events, delays, row_store_event. rewrite !omap_app.
  destruct (expected_delay m). destruct (row_port_of m row); reflexivity.
Qed.

Lemma stores_iteration m row :
  List.filter is_port_store (iteration_events m row)
  = row_store_event m R_OUTCLR row ++ row_store_event m R_OUTSET row.
Proof.
  unfold iteration_events, row_store_event. rewrite !List.filter_app.
  destruct (row_port_of m row); reflexivity.
Qed.

Lemma omap_flat_map {X Y Z' : Type} (g : Y -> option Z') (f : X -> list Y) (l : list X) :
  omap g (flat_map f l) = flat_map (fun x => omap g (f x)) l.
Proof.
  induction l as [|x l IH]; cbn; [reflexivity|]. now rewrite omap_app, IH.
Qed.

Lemma filter_flat_map {X Y : Type} (g : Y -> bool) (f : X -> list Y) (l : list X) :
  List.filter g (flat_map f l) = flat_map (fun x => List.filter g (f x)) l.
Proof.
  induction l as [|x l IH]; cbn; [reflexivity|]. now rewrite List.filter_app, IH.
Qed.

Lemma flat_map_singleton {X Y : Type} (f : X -> Y) (l : list X) :
  flat_map (fun x => [f x]) l = map f l.
Proof. induction l as [|x l IH]; cbn; [reflexivity|]. now rewrite IH. Qed.

End ScanLoop.

(** ** Rows are driven one at a time *)

Ltac bitwise :=
  apply Z.bits_inj'; intros i Hi;
  rewrite ?Z.land_spec, ?Z.lor_spec, ?Z.ldiff_spec, ?Z.bits_0.

Lemma disjoint_bits K R i : Z.land K R = 0 -> Z.testbit K i && Z.testbit R i = false.
Proof. intros E. rewrite <- Z.land_spec, E. apply Z.bits_0. Qed.

Lemma land_ldiff_same O K : Z.land (Z.ldiff O K) K = 0.
Proof. bitwise. destruct (Z.testbit O i), (Z.testbit K i); reflexivity. Qed.

Lemma land_ldiff_disjoint O K R :
  Z.land K R = 0 -> Z.land (Z.ldiff O K) R = Z.land O R.
Proof.
  intros E. bitwise. pose proof (disjoint_bits K R i E).
  destruct (Z.testbit O i), (Z.testbit K i), (Z.testbit R i); cbn in *; congruence.
Qed.

Lemma land_lor_same O K : Z.land (Z.lor O K) K = K.
Proof. bitwise. destruct (Z.testbit O i), (Z.testbit K i); reflexivity. Qed.

Lemma land_lor_disjoint O K R :
  Z.land K R = 0 -> Z.land (Z.lor O K) R = Z.land O R.
Proof.
  intros E. bitwise. pose proof (disjoint_bits K R i E).
  destruct (Z.testbit O i), (Z.testbit K i), (Z.testbit R i); cbn in *; congruence.
Qed.

Section RowExclusion.
Context `{B : Board} `{C : Collaborators}.

Lemma row_port_of_sv m m' row : sv m' = sv m -> row_port_of m' row = row_port_of m row.
Proof. intros E. unfold row_port_of. now rewrite E. Qed.

Lemma row_pin_mask_of_sv m m' row :
  sv m' = sv m -> row_pin_mask_of m' row = row_pin_mask_of m row.
Proof. intros E. unfold row_pin_mask_of. now rewrite E. Qed.

Lemma row_released_transport m m' row :
  sv m' = sv m -> ports m' = ports m -> row_released m row -> row_released m' row.
Proof.
  intros Es Ep (p & Hp & Hout). exists p.
  now rewrite (row_port_of_sv m), (row_pin_mask_of_sv m), Ep.
Qed.

Lemma row_asserted_transport m m' row :
  sv m' = sv m -> ports m' = ports m -> row_asserted m row -> row_asserted m' row.
Proof.
  intros Es Ep (p & Hp & Hout). exists p.
  now rewrite (row_port_of_sv m), (row_pin_mask_of_sv m), Ep.
Qed.

Lemma released_not_asserted m row :
  0 < row_pin_mask_of m row -> row_released m row -> ~ row_asserted m row.
Proof.
  intros Hmask (p & Hp & Hout) (p' & Hp' & Hout').
  rewrite Hp in Hp'. injection Hp' as <-. lia.
Qed.

Lemma OUT_select_row m k pk q :
  row_port_of m k = Some pk ->
  OUT (ports (select_row k m) q)
  = if decide (q = pk) then Z.ldiff (OUT (ports m pk)) (row_pin_mask_of m k)
    else OUT (ports m q).
Proof.
  intros Hp. unfold select_row. rewrite Hp, ports_port_store.
  destruct (decide (q = pk)); reflexivity.
Qed.

Lemma OUT_unselect_row m k pk q :
  row_port_of m k = Some pk ->
  OUT (ports (unselect_row k m) q)
  = if decide (q = pk) then Z.lor (OUT (ports m pk)) (row_pin_mask_of m k)
    else OUT (ports m q).
Proof.
  intros Hp. unfold unselect_row. rewrite Hp, ports_port_store.
  destruct (decide (q = pk)); reflexivity.
Qed.

(** Selecting row [k] while every row floats asserts [k] alone. *)
Lemma select_row_asserts_only m k :
  row_descriptors_ok m -> 0 <= k < rows (g_scan_plan m) ->
  (forall r, 0 <= r < rows (g_scan_plan m) -> row_released m r) ->
  row_asserted (select_row k m) k
  /\ (forall r, 0 <= r < rows (g_scan_plan m) -> r <> k -> row_released (select_row k m) r).
Proof.
  intros [Hdesc Hdisj] Hk Hrel.
  destruct (Hdesc k Hk) as (pk & Hpk & Hmk).
  assert (Hsv : sv (select_row k m) = sv m) by apply (obs_select_row _ sv_blind).
  split.
  - exists pk. rewrite (row_port_of_sv m), (row_pin_mask_of_sv m) by assumption.
    split; [assumption|]. rewrite (OUT_select_row m k pk) by assumption.
    destruct (decide (pk = pk)); [|congruence]. apply land_ldiff_same.
  - intros r Hr Hne. destruct (Hrel r Hr) as (pr & Hpr & Hout).
    exists pr. rewrite (row_port_of_sv m), (row_pin_mask_of_sv m) by assumption.
    split; [assumption|]. rewrite (OUT_select_row m k pk) by assumption.
    destruct (decide (pr = pk)) as [->|]; [|assumption].
    rewrite land_ldiff_disjoint; [assumption|].
    apply Hdisj; try assumption; congruence.
Qed.

(** Unselecting the only asserted row leaves every row floating. *)
Lemma unselect_row_releases m k :
  row_descriptors_ok m -> 0 <= k < rows (g_scan_plan m) ->
  (forall r, 0 <= r < rows (g_scan_plan m) -> r <> k -> row_released m r) ->
  forall r, 0 <= r < rows (g_scan_plan m) -> row_released (unselect_row k m) r.
Proof.
  intros [Hdesc Hdisj] Hk Hrel r Hr.
  destruct (Hdesc k Hk) as (pk & Hpk & Hmk).
  assert (Hsv : sv (unselect_row k m) = sv m) by apply (obs_unselect_row _ sv_blind).
  destruct (Z.eq_dec r k) as [->|Hne].
  - exists pk. rewrite (row_port_of_sv m), (row_pin_mask_of_sv m) by assumption.
    split; [assumption|]. rewrite (OUT_unselect_row m k pk) by assumption.
    destruct (decide (pk = pk)); [|congruence]. apply land_lor_same.
  - destruct (Hrel r Hr Hne) as (pr & Hpr & Hout).
    exists pr. rewrite (row_port_of_sv m), (row_pin_mask_of_sv m) by assumption.
    split; [assumption|]. rewrite (OUT_unselect_row m k pk) by assumption.
    destruct (decide (pr = pk)) as [->|]; [|assumption].
    rewrite land_lor_disjoint; [assumption|].
    apply Hdisj; try assumption; congruence.
Qed.

Lemma row_descriptors_ok_transport m m' :
  sv m' = sv m -> g_scan_plan m' = g_scan_plan m ->
  row_descriptors_ok m -> row_descriptors_ok m'.
Proof.
  intros Es Ep [Hdesc Hdisj]. unfold row_descriptors_ok. rewrite Ep. split.
  - intros row Hrow. rewrite (row_port_of_sv m), (row_pin_mask_of_sv m) by assumption.
    now apply Hdesc.
  - intros r1 r2 H1 H2 Hne.
    rewrite (row_port_of_sv m m' r1), (row_port_of_sv m m' r2),
      (row_pin_mask_of_sv m m' r1), (row_pin_mask_of_sv m m' r2) by assumption.
    now apply Hdisj.
Qed.

Lemma ports_scan_row row m : ports (snd (scan_row row m)) = ports m.
Proof. reflexivity. Qed.

(** One iteration started with all rows floating: at the sampling
    instant only its row is asserted, and afterwards all rows float
    again. *)
Lemma iteration_exclusive m b k :
  row_descriptors_ok m -> 0 <= k < rows (g_scan_plan m) ->
  (forall r, 0 <= r < rows (g_scan_plan m) -> row_released m r) ->
  row_asserted (settle_delay (select_row k m)) k
  /\ (forall r, 0 <= r < rows (g_scan_plan m) -> r <> k ->
        row_released (settle_delay (select_row k m)) r)
  /\ (forall r, 0 <= r < rows (g_scan_plan m) ->
        row_released (snd (scan_loop_body k (b, m))) r).
Proof.
  intros Hok Hk Hrel.
  destruct (select_row_asserts_only m k Hok Hk Hrel) as [Ha Hr].
  set (m1 := select_row k m) in *.
  assert (Hsv1 : sv m1 = sv m) by apply (obs_select_row _ sv_blind).
  assert (Hpl1 : g_scan_plan m1 = g_scan_plan m) by apply (obs_select_row _ plan_blind).
  assert (Hsv2 : sv (settle_delay m1) = sv m1) by apply (obs_settle_delay _ sv_blind).
  split; [|split].
  - eapply row_asserted_transport; [exact Hsv2 | apply ports_settle_delay | exact Ha].
  - intros r Hr' Hne.
    eapply row_released_transport; [exact Hsv2 | apply ports_settle_delay | now apply Hr].
  - unfold scan_loop_body. cbn [fst snd]. fold m1.
    set (m3 := snd (scan_row k (settle_delay m1))).
    assert (Hsv3 : sv m3 = sv m1).
    { subst m3. now rewrite (obs_scan_row _ sv_blind). }
    assert (Hpl3 : g_scan_plan m3 = g_scan_plan m).
    { subst m3. now rewrite (obs_scan_row _ plan_blind), (obs_settle_delay _ plan_blind). }
    assert (Hp3 : ports m3 = ports m1).
    { subst m3. now rewrite ports_scan_row, ports_settle_delay. }
    rewrite <- Hpl3. apply unselect_row_releases.
    + apply (row_descriptors_ok_transport m); [congruence | assumption | assumption].
    + now rewrite Hpl3.
    + rewrite Hpl3. intros r Hr' Hne.
      eapply row_released_transport; [exact Hsv3 | exact Hp3 | now apply Hr].
Qed.

(** Between iterations every row floats. *)
Lemma scan_prefix_released m k :
  row_descriptors_ok m ->
  (forall r, 0 <= r < rows (g_scan_plan m) -> row_released m r) ->
  0 <= k <= rows (g_scan_plan m) ->
  forall r, 0 <= r < rows (g_scan_plan m) -> row_released (snd (scan_prefix m k)) r.
Proof.
  intros Hok Hrel [Hk0 Hk]. revert Hk. pattern k.
  apply natlike_ind; [| |exact Hk0]; clear k Hk0.
  - intros _. now rewrite scan_prefix_nonpos by lia.
  - intros k Hk0 IH Hk. change (Z.succ k) with (k + 1) in *.
    rewrite scan_prefix_succ by assumption.
    destruct (scan_prefix m k) as [b mk] eqn:E.
    assert (Hsv : sv mk = sv m).
    { change mk with (snd (b, mk)). rewrite <- E. apply (obs_scan_prefix _ sv_blind). }
    assert (Hpl : g_scan_plan mk = g_scan_plan m).
    { change mk with (snd (b, mk)). rewrite <- E. apply (obs_scan_prefix _ plan_blind). }
    cbn [snd] in IH.
    destruct (iteration_exclusive mk b k) as (_ & _ & Hall).
    + now apply (row_descriptors_ok_transport m).
    + rewrite Hpl. lia.
    + rewrite Hpl. apply IH. lia.
    + rewrite Hpl in Hall. exact Hall.
Qed.

End RowExclusion.

Section ScanTheorems.
Context `{B : Board} `{C : Collaborators}.

Lemma new_events_self m : new_events m m = [].
Proof. unfold new_events. apply drop_all. Qed.

(** The whole loop, for any row count. *)
Lemma scan_prefix_events m k :
  new_events m (snd (scan_prefix m k))
  = flat_map (fun j => iteration_events (snd (scan_prefix m j)) j) (upto k)
  /\ fst (scan_prefix m k)
     = existsb id (debounce_verdicts (new_events m (snd (scan_prefix m k)))).
Proof.
  destruct (Z.le_gt_cases 0 k) as [Hk|Hk].
  - destruct (scan_prefix_spec m k Hk) as [Hlog Hres].
    rewrite (new_events_extends _ _ _ Hlog). split; [reflexivity | exact Hres].
  - rewrite scan_prefix_nonpos, upto_nonpos by lia. cbn [snd fst flat_map].
    rewrite new_events_self. split; reflexivity.
Qed.

Lemma matrix_scan_row_col m :
  mode (g_scan_plan m) = MATRIX_SCANNER_MODE_COL_ROW
  \/ mode (g_scan_plan m) = MATRIX_SCANNER_MODE_ROW_COL ->
  matrix_scan m = scan_prefix m (rows (g_scan_plan m)).
Proof.
  intros Hmode. unfold matrix_scan.
  assert ((mode (g_scan_plan m) =? MATRIX_SCANNER_MODE_COL_ROW)
          || (mode (g_scan_plan m) =? MATRIX_SCANNER_MODE_ROW_COL) = true) as ->.
  { apply orb_true_iff. destruct Hmode; [left | right]; now apply Z.eqb_eq. }
  reflexivity.
Qed.

(** C4.  In COL_ROW or ROW_COL mode one call of [matrix_scan] is the row
    loop; its events are, for the rows 0, 1, ..., rows-1 in this order,
    the row's select store, the settle delay, the debounce call on the
    sample taken at that instant and the row's unselect store; so the
    port stores of the cycle are select k, unselect k for ascending k.
    When the row descriptors are those of a successful setup and every
    row floats on entry, then at the instant row k is sampled row k is
    asserted and every other row is released and not asserted. *)
Theorem scan_asserts_one_row_at_a_time (m : machine) :
  mode (g_scan_plan m) = MATRIX_SCANNER_MODE_COL_ROW
  \/ mode (g_scan_plan m) = MATRIX_SCANNER_MODE_ROW_COL ->
  matrix_scan m = scan_prefix m (rows (g_scan_plan m))
  /\ new_events m (snd (matrix_scan m))
     = flat_map (fun k => iteration_events (snd (scan_prefix m k)) k)
         (upto (rows (g_scan_plan m)))
  /\ List.filter is_port_store (new_events m (snd (matrix_scan m)))
     = flat_map (fun k => row_store_event m R_OUTCLR k ++ row_store_event m R_OUTSET k)
         (upto (rows (g_scan_plan m)))
  /\ (row_descriptors_ok m ->
      (forall r, 0 <= r < rows (g_scan_plan m) -> row_released m r) ->
      forall k, 0 <= k < rows (g_scan_plan m) ->
        row_asserted (at_sampling m k) k
        /\ (forall r, 0 <= r < rows (g_scan_plan m) -> r <> k ->
              row_released (at_sampling m k) r
              /\ ~ row_asserted (at_sampling m k) r)).
Proof.
  intros Hmode. rewrite (matrix_scan_row_col m Hmode).
  destruct (scan_prefix_events m (rows (g_scan_plan m))) as [Hev _].
  split; [reflexivity|]. split; [exact Hev|]. split.
  - rewrite Hev, filter_flat_map. apply flat_map_ext. intros k.
    rewrite stores_iteration.
    rewrite (row_store_event_sv m _ R_OUTCLR) by apply (obs_scan_prefix _ sv_blind).
    now rewrite (row_store_event_sv m _ R_OUTSET) by apply (obs_scan_prefix _ sv_blind).
  - intros Hok Hrel k Hk. unfold at_sampling.
    destruct (scan_prefix m k) as [b mk] eqn:E.
    assert (Hsv : sv mk = sv m).
    { change mk with (snd (b, mk)). rewrite <- E. apply (obs_scan_prefix _ sv_blind). }
    assert (Hpl : g_scan_plan mk = g_scan_plan m).
    { change mk with (snd (b, mk)). rewrite <- E. apply (obs_scan_prefix _ plan_blind). }
    assert (Hrelk : forall r, 0 <= r < rows (g_scan_plan m) -> row_released mk r).
    { intros r Hr. change mk with (snd (b, mk)). rewrite <- E.
      apply scan_prefix_released; try assumption. lia. }
    cbn [snd].
    destruct (iteration_exclusive mk b k) as (Ha & Hr & _).
    + now apply (row_descriptors_ok_transport m).
    + now rewrite Hpl.
    + now rewrite Hpl.
    + split; [exact Ha|]. intros r Hr' Hne. rewrite Hpl in Hr.
      split; [now apply Hr|].
      apply released_not_asserted; [|now apply Hr].
      destruct Hok as [Hdesc _]. destruct (Hdesc r Hr') as (p & _ & Hpos).
      rewrite (row_pin_mask_of_sv m); [exact Hpos|].
      now rewrite (obs_settle_delay _ sv_blind), (obs_select_row _ sv_blind).
Qed.

Lemma length_upto k : length (upto k) = Z.to_nat k.
Proof. unfold upto. now rewrite length_map, length_seq. Qed.

Lemma debounce_unselect_row row m : debounce (unselect_row row m) = debounce m.
Proof.
  unfold unselect_row. destruct (row_port_of m row) as [p|]; reflexivity.
Qed.

(** One loop iteration against the collaborator: the verdict or-ed into
    the result and the debouncer state kept are those of the one call
    [scanner_debounce_row] on the sample of the sampling instant. *)
Lemma scan_loop_body_debounce row b m :
  fst (scan_loop_body row (b, m))
  = b || fst (scanner_debounce_row row (column_sample (settle_delay (select_row row m)))
                (s_bytes_per_row (sv m)) (debounce m))
  /\ debounce (snd (scan_loop_body row (b, m)))
     = snd (scanner_debounce_row row (column_sample (settle_delay (select_row row m)))
              (s_bytes_per_row (sv m)) (debounce m))
  /\ debounce_verdicts (iteration_events m row)
     = [fst (scanner_debounce_row row (column_sample (settle_delay (select_row row m)))
               (s_bytes_per_row (sv m)) (debounce m))].
Proof.
  unfold scan_loop_body. cbn [fst snd].
  set (m1 := settle_delay (select_row row m)).
  assert (Hsv1 : sv m1 = sv m).
  { subst m1. now rewrite (obs_settle_delay _ sv_blind), (obs_select_row _ sv_blind). }
  assert (Hdb1 : debounce m1 = debounce m).
  { subst m1. now rewrite debounce_settle_delay, debounce_select_row. }
  split; [|split].
  - unfold scan_row. cbn [fst]. fold (column_sample m1). rewrite Hsv1, Hdb1.
    apply or_into_changed.
  - rewrite debounce_unselect_row. unfold scan_row. cbn [snd debounce emit with_debounce].
    fold (column_sample m1). now rewrite Hsv1, Hdb1.
  - unfold iteration_events, debounce_verdicts, row_store_event.
    rewrite !omap_app. fold m1.
    destruct (row_port_of m row); reflexivity.
Qed.

Lemma debounce_calls_snoc sample bytes l k d :
  debounce_calls sample bytes (l ++ [k]) d
  = debounce_step sample bytes (debounce_calls sample bytes l d) k.
Proof. unfold debounce_calls. now rewrite fold_left_app. Qed.

(** The first [k] iterations against the collaborator. *)
Lemma scan_prefix_debounce m k :
  0 <= k ->
  debounce (snd (scan_prefix m k))
  = snd (debounce_calls (fun j => column_sample (at_sampling m j))
           (s_bytes_per_row (sv m)) (upto k) (debounce m))
  /\ fst (scan_prefix m k)
     = existsb id (fst (debounce_calls (fun j => column_sample (at_sampling m j))
                          (s_bytes_per_row (sv m)) (upto k) (debounce m)))
  /\ debounce_verdicts
       (flat_map (fun j => iteration_events (snd (scan_prefix m j)) j) (upto k))
     = fst (debounce_calls (fun j => column_sample (at_sampling m j))
              (s_bytes_per_row (sv m)) (upto k) (debounce m)).
Proof.
  intros Hk. pattern k. apply natlike_ind; [| |exact Hk]; clear k Hk.
  - rewrite scan_prefix_nonpos by lia. rewrite upto_nonpos by lia.
    repeat split; reflexivity.
  - intros k Hk (IHd & IHr & IHv). change (Z.succ k) with (k + 1).
    rewrite scan_prefix_succ, upto_succ, flat_map_app by assumption.
    cbn [flat_map]. rewrite app_nil_r.
    rewrite !debounce_calls_snoc. unfold debounce_step. cbn [fst snd].
    assert (Hat : at_sampling m k = settle_delay (select_row k (snd (scan_prefix m k))))
      by reflexivity.
    rewrite !Hat.
    assert (Hsv : sv (snd (scan_prefix m k)) = sv m)
      by apply (obs_scan_prefix _ sv_blind).
    destruct (scan_loop_body_debounce k (fst (scan_prefix m k)) (snd (scan_prefix m k)))
      as (Hres & Hdb & Hv).
    rewrite <- surjective_pairing in Hres, Hdb.
    rewrite Hsv, IHd in Hres, Hdb, Hv.
    split; [exact Hdb|]. split.
    + rewrite Hres, IHr, existsb_app. cbn [existsb id]. now rewrite orb_false_r.
    + unfold debounce_verdicts in *. now rewrite omap_app, IHv, Hv.
Qed.

(** C5.  With pairwise different mode labels: in COL_ROW or ROW_COL mode
    [matrix_scan] calls the debouncer for the rows 0, 1, ..., rows-1, in
    this order and once each, row k with the column sample taken while
    row k is asserted and on the debouncer state the call for row k-1
    returned; it returns true exactly when one of these calls of
    [scanner_debounce_row] returned true, and the debouncer is left in the
    state the last call returned.  In PIN_GND or PIN_VCC mode it calls the
    debouncer once, for row 0 with the sample of the entry state, returns
    that call's verdict and keeps that call's debouncer state. *)
Theorem scan_debounces_each_row_once (m : machine) :
  mode_labels_distinct ->
  (mode (g_scan_plan m) = MATRIX_SCANNER_MODE_COL_ROW
   \/ mode (g_scan_plan m) = MATRIX_SCANNER_MODE_ROW_COL ->
   debounce_rows (new_events m (snd (matrix_scan m))) = upto (rows (g_scan_plan m))
   /\ length (debounce_verdicts (new_events m (snd (matrix_scan m))))
      = Z.to_nat (rows (g_scan_plan m))
   /\ fst (matrix_scan m)
      = existsb id (debounce_verdicts (new_events m (snd (matrix_scan m))))
   /\ debounce_verdicts (new_events m (snd (matrix_scan m)))
      = fst (debounce_calls (fun k => column_sample (at_sampling m k))
               (s_bytes_per_row (sv m)) (upto (rows (g_scan_plan m))) (debounce m))
   /\ fst (matrix_scan m)
      = existsb id
          (fst (debounce_calls (fun k => column_sample (at_sampling m k))
                  (s_bytes_per_row (sv m)) (upto (rows (g_scan_plan m))) (debounce m)))
   /\ debounce (snd (matrix_scan m))
      = snd (debounce_calls (fun k => column_sample (at_sampling m k))
               (s_bytes_per_row (sv m)) (upto (rows (g_scan_plan m))) (debounce m)))
  /\ (mode (g_scan_plan m) = MATRIX_SCANNER_MODE_PIN_GND
      \/ mode (g_scan_plan m) = MATRIX_SCANNER_MODE_PIN_VCC ->
      debounce_rows (new_events m (snd (matrix_scan m))) = [0]
      /\ debounce_verdicts (new_events m (snd (matrix_scan m))) = [fst (matrix_scan m)]
      /\ new_events m (snd (matrix_scan m))
         = [EvDebounceRow 0 (column_sample m) (s_bytes_per_row (sv m))
              (fst (scanner_debounce_row 0 (column_sample m) (s_bytes_per_row (sv m))
                      (debounce m)))]
      /\ fst (matrix_scan m)
         = fst (scanner_debounce_row 0 (column_sample m) (s_bytes_per_row (sv m))
                  (debounce m))
      /\ debounce (snd (matrix_scan m))
         = snd (scanner_debounce_row 0 (column_sample m) (s_bytes_per_row (sv m))
                  (debounce m))).
Proof.
  intros Hd. split.
  - intros Hmode. rewrite (matrix_scan_row_col m Hmode).
    destruct (scan_prefix_events m (rows (g_scan_plan m))) as [Hev Hres].
    assert (Hcalls :
      debounce (snd (scan_prefix m (rows (g_scan_plan m))))
      = snd (debounce_calls (fun j => column_sample (at_sampling m j))
               (s_bytes_per_row (sv m)) (upto (rows (g_scan_plan m))) (debounce m))
      /\ fst (scan_prefix m (rows (g_scan_plan m)))
         = existsb id (fst (debounce_calls (fun j => column_sample (at_sampling m j))
                              (s_bytes_per_row (sv m)) (upto (rows (g_scan_plan m)))
                              (debounce m)))
      /\ debounce_verdicts
           (flat_map (fun j => iteration_events (snd (scan_prefix m j)) j)
              (upto (rows (g_scan_plan m))))
         = fst (debounce_calls (fun j => column_sample (at_sampling m j))
                  (s_bytes_per_row (sv m)) (upto (rows (g_scan_plan m))) (debounce m))).
    { destruct (Z.le_gt_cases 0 (rows (g_scan_plan m))) as [Hk|Hk].
      - now apply scan_prefix_debounce.
      - rewrite scan_prefix_nonpos, upto_nonpos by lia. repeat split; reflexivity. }
    destruct Hcalls as (Hcd & Hcr & Hcv).
    split; [|split; [|split; [exact Hres|]]].
    + rewrite Hev. unfold debounce_rows. rewrite omap_flat_map.
      rewrite (flat_map_ext _ (fun k => [k])).
      * rewrite flat_map_singleton. apply map_id.
      * intros k. apply debounce_rows_iteration.
    + rewrite Hev. clear Hev Hres Hcd Hcr Hcv. unfold debounce_verdicts.
      rewrite omap_flat_map.
      rewrite <- length_upto.
      induction (upto (rows (g_scan_plan m))) as [|k l IH]; [reflexivity|].
      cbn [flat_map]. rewrite length_app, IH.
      destruct (scan_loop_body_spec k false (snd (scan_prefix m k))) as (v & _ & Hv & _).
      unfold debounce_verdicts in Hv. now rewrite Hv.
    + split; [now rewrite Hev|]. split; [exact Hcr | exact Hcd].
  - intros Hmode. unfold matrix_scan.
    destruct (mode_labels_neq Hd) as (?&?&?&?&?&?).
    assert ((mode (g_scan_plan m) =? MATRIX_SCANNER_MODE_COL_ROW)
            || (mode (g_scan_plan m) =? MATRIX_SCANNER_MODE_ROW_COL) = false) as ->.
    { apply orb_false_iff. split; apply Z.eqb_neq; destruct Hmode; congruence. }
    assert ((mode (g_scan_plan m) =? MATRIX_SCANNER_MODE_PIN_GND)
            || (mode (g_scan_plan m) =? MATRIX_SCANNER_MODE_PIN_VCC) = true) as ->.
    { apply orb_true_iff. destruct Hmode; [left | right]; now apply Z.eqb_eq. }
    unfold matrix_scan_pin_mode, scan_row. cbn [fst snd].
    fold (column_sample m).
    unfold new_events. cbn [log debounce emit with_debounce]. rewrite drop_app_length.
    split; [reflexivity|]. split; [|split; [reflexivity|split; [|reflexivity]]].
    + cbn. now destruct (fst (scanner_debounce_row _ _ _ _)).
    + now destruct (fst (scanner_debounce_row _ _ _ _)).
Qed.

(** C6.  The settle delay of a loop iteration is one delay, of the
    debouncing length when the debouncer's count of keys in debounce is
    non-zero as the iteration starts and of the idle length otherwise;
    the choice reads only that global count (and the clock regime), never
    the row, so any two rows scanned from the same state wait the same
    delay; over a whole cycle the delays are those of the successive
    iteration states. *)
Theorem settle_delay_follows_global_count (m : machine) (row : Z) (b : bool) :
  delays (new_events m (settle_delay m)) = [expected_delay m]
  /\ delays (new_events m (snd (scan_loop_body row (b, m)))) = [expected_delay m]
  /\ delays (new_events m (snd (matrix_scan_row_col_mode m)))
     = map (fun k => expected_delay (snd (scan_prefix m k))) (upto (rows (g_scan_plan m))).
Proof.
  split; [|split].
  - pose proof (log_settle_delay m) as Hlog.
    destruct (expected_delay m) as [c d]. cbn [fst snd] in Hlog.
    now rewrite (new_events_extends _ _ _ Hlog).
  - destruct (scan_loop_body_spec row b m) as (v & Hlog & _).
    rewrite (new_events_extends _ _ _ Hlog). apply delays_iteration.
  - change (matrix_scan_row_col_mode m) with (scan_prefix m (rows (g_scan_plan m))).
    destruct (scan_prefix_events m (rows (g_scan_plan m))) as [-> _].
    unfold delays. rewrite omap_flat_map.
    rewrite (flat_map_ext _ (fun k => [expected_delay (snd (scan_prefix m k))])).
    + apply flat_map_singleton.
    + intros k. apply delays_iteration.
Qed.

End ScanTheorems.

Section ExampleScans.
#[local] Existing Instance Example.board.
#[local] Existing Instance Example.collab.

Lemma ready_rows_in_range r :
  0 <= r < rows (g_scan_plan Runs.ready) -> r = 0 \/ r = 1 \/ r = 2.
Proof. change (rows (g_scan_plan Runs.ready)) with 3. lia. Qed.

Lemma ready_descriptors_ok : row_descriptors_ok Runs.ready.
Proof.
  split.
  - intros r Hr. destruct (ready_rows_in_range r Hr) as [-> | [-> | ->]];
      exists PORTA; split; reflexivity.
  - intros r1 r2 H1 H2 Hne _.
    destruct (ready_rows_in_range r1 H1) as [-> | [-> | ->]];
      destruct (ready_rows_in_range r2 H2) as [-> | [-> | ->]];
      reflexivity || congruence.
Qed.

Lemma ready_rows_released r :
  0 <= r < rows (g_scan_plan Runs.ready) -> row_released Runs.ready r.
Proof.
  intros Hr. destruct (ready_rows_in_range r Hr) as [-> | [-> | ->]];
    exists PORTA; split; reflexivity.
Qed.

(** C4 on the initialised 3 x 2 matrix: while row 1 is sampled, row 1 is
    asserted and rows 0 and 2 float. *)
Lemma scan_asserts_one_row_at_a_time_witness :
  row_asserted (at_sampling Runs.ready 1) 1
  /\ row_released (at_sampling Runs.ready 1) 0
  /\ row_released (at_sampling Runs.ready 1) 2
  /\ List.filter is_port_store (new_events Runs.ready (snd (matrix_scan Runs.ready)))
     = [EvPortStore PORTA R_OUTCLR 1; EvPortStore PORTA R_OUTSET 1;
        EvPortStore PORTA R_OUTCLR 2; EvPortStore PORTA R_OUTSET 2;
        EvPortStore PORTA R_OUTCLR 4; EvPortStore PORTA R_OUTSET 4].
Proof.
  destruct (scan_asserts_one_row_at_a_time Runs.ready) as (_ & _ & Hst & Hex).
  - left. reflexivity.
  - destruct (Hex ready_descriptors_ok ready_rows_released 1) as [Ha Hr].
    + split; [lia | reflexivity].
    + split; [exact Ha|]. split; [|split].
      * apply (Hr 0); [split; [lia | reflexivity] | lia].
      * apply (Hr 2); [split; [lia | reflexivity] | lia].
      * rewrite Hst. reflexivity.
Defined.

(** C5 on the initialised 3 x 2 matrix with the key of row 2 down: three
    debounce calls, rows 0, 1, 2, the scan reports a change, and the
    debouncer is left in the state the call for row 2 returned. *)
Lemma scan_debounces_each_row_once_witness :
  debounce_rows (new_events Runs.ready (snd (matrix_scan Runs.ready))) = [0; 1; 2]
  /\ fst (matrix_scan Runs.ready) = true
  /\ debounce (snd (matrix_scan Runs.ready))
     = snd (debounce_calls (fun k => column_sample (at_sampling Runs.ready k))
              (s_bytes_per_row (sv Runs.ready)) [0; 1; 2] (debounce Runs.ready)).
Proof.
  destruct (scan_debounces_each_row_once Runs.ready example_labels_distinct) as [Hrc _].
  destruct Hrc as (Hrows & _ & Hres & _ & _ & Hdb).
  - left. reflexivity.
  - split; [rewrite Hrows; reflexivity|].
    split; [rewrite Hres; reflexivity | exact Hdb].
Defined.

End ExampleScans.

(** ** Idle wake: arming, disarming and the interrupt handler *)

Lemma int0_level_written x lvl :
  lvl = PORT_INT0LVL_OFF_gc \/ lvl = PORT_INT0LVL_LO_gc ->
  Z.land (u8 (Z.lor (Z.land x (Z.lnot PORT_INT0LVL_gm)) lvl)) PORT_INT0LVL_gm = lvl.
Proof.
  intros Hl. unfold u8, PORT_INT0LVL_gm.
  change 256 with (2 ^ 8). rewrite <- Z.land_ones by lia.
  rewrite <- Z.land_assoc. change (Z.land (Z.ones 8) 3) with 3.
  rewrite Z.land_lor_distr_l, <- Z.land_assoc.
  change (Z.land (Z.lnot 3) 3) with 0. rewrite Z.land_0_r.
  destruct Hl as [-> | ->]; reflexivity.
Qed.


Lemma fold_left_invariant_in {S X T : Type} (f : S -> X -> S) (obs : S -> T) (l : list X) :
  (forall s x, In x l -> obs (f s x) = obs s) -> forall s, obs (fold_left f l s) = obs s.
Proof.
  induction l as [|x l IH]; intros Hf s; cbn [fold_left]; [reflexivity|].
  rewrite IH.
  - apply Hf. now left.
  - intros s' x' Hx'. apply Hf. now right.
Qed.

Section PortSweeps.
Context `{B : Board} `{C : Collaborators}.

(** A sweep stores to register [r] of each listed port a value computed
    from the current machine. *)
Variable r : port_reg.
Variable val : machine -> io_port * Z -> Z.

Hypothesis val_local :
  forall s p v pn, p <> fst pn -> val (port_store p r v s) pn = val s pn.

Lemma sweep_log l : forall m,
  List.NoDup (map fst l) ->
  log (sweep r val l m) = log m ++ map (fun pn => EvPortStore (fst pn) r (val m pn)) l.
Proof.
  induction l as [|x l IH]; intros m Hnd; cbn [sweep fold_left map].
  - now rewrite app_nil_r.
  - apply List.NoDup_cons_iff in Hnd as [Hx Hnd].
    fold (sweep r val l (port_store (fst x) r (val m x) m)). rewrite IH by assumption.
    replace (log (port_store (fst x) r (val m x) m))
      with (log m ++ [EvPortStore (fst x) r (val m x)]) by (now destruct r).
    rewrite <- app_assoc. cbn [app]. do 2 f_equal.
    apply map_ext_in. intros pn Hpn. rewrite val_local; [reflexivity|].
    intros E. apply Hx. rewrite E. now apply in_map.
Qed.

Lemma sweep_port l : forall m pn,
  List.NoDup (map fst l) -> In pn l -> r <> R_PIN0CTRL ->
  ports (sweep r val l m) (fst pn) = reg_store r (val m pn) (MPCMASK m) (ports m (fst pn)).
Proof.
  induction l as [|x l IH]; intros m pn Hnd Hin Hr; [contradiction|].
  apply List.NoDup_cons_iff in Hnd as [Hx Hnd]. cbn [sweep fold_left].
  fold (sweep r val l (port_store (fst x) r (val m x) m)).
  destruct Hin as [->|Hin].
  - unfold sweep.
    rewrite (fold_left_invariant_in _ (fun s => ports s (fst pn))).
    + rewrite ports_port_store. now destruct (decide (fst pn = fst pn)).
    + intros s y Hy. rewrite ports_port_store.
      destruct (decide (fst pn = fst y)) as [E|]; [|reflexivity].
      exfalso. apply Hx. rewrite E. now apply in_map.
  - rewrite IH by assumption.
    assert (Hne : fst x <> fst pn).
    { intros E. apply Hx. rewrite E. now apply in_map. }
    rewrite val_local, ports_port_store, MPCMASK_port_store_other by assumption.
    destruct (decide (fst pn = fst x)); [congruence | reflexivity].
Qed.

End PortSweeps.

Section IdleWake.
Context `{B : Board} `{C : Collaborators}.

Lemma scanner_port_names_cases p :
  In p scanner_port_names ->
  p = PORTA \/ p = PORTB \/ p = PORTC \/ p = PORTD \/ p = PORTE
  \/ (p = PORTF /\ (7 <=? IO_PORT_COUNT) = true) \/ p = PORTR.
Proof.
  unfold scanner_port_names, scanner_ports.
  destruct (7 <=? IO_PORT_COUNT); cbn; intuition (subst; auto).
Qed.


Lemma scanner_ports_nodup : List.NoDup (map fst scanner_ports).
Proof.
  unfold scanner_ports. destruct (7 <=? IO_PORT_COUNT); cbn;
    repeat (constructor; [cbn; intuition discriminate|]); constructor.
Qed.

Lemma INTFLAGS_port_store_other p r v m q :
  r <> R_INTFLAGS -> INTFLAGS (ports (port_store p r v m) q) = INTFLAGS (ports m q).
Proof.
  intros Hr. rewrite ports_port_store.
  destruct (decide (q = p)) as [->|]; [|reflexivity]. destruct r; congruence || reflexivity.
Qed.

Lemma INTCTRL_port_store_other p r v m q :
  r <> R_INTCTRL -> INTCTRL (ports (port_store p r v m) q) = INTCTRL (ports m q).
Proof.
  intros Hr. rewrite ports_port_store.
  destruct (decide (q = p)) as [->|]; [|reflexivity]. destruct r; congruence || reflexivity.
Qed.

Lemma INTCTRL_port_store_elsewhere p v m q :
  q <> p -> INTCTRL (ports (port_store p R_INTCTRL v m) q) = INTCTRL (ports m q).
Proof.
  intros Hne. rewrite ports_port_store. destruct (decide (q = p)); [congruence | reflexivity].
Qed.

Lemma INTFLAGS_port_store_elsewhere p v m q :
  q <> p -> INTFLAGS (ports (port_store p R_INTFLAGS v m) q) = INTFLAGS (ports m q).
Proof.
  intros Hne. rewrite ports_port_store. destruct (decide (q = p)); [congruence | reflexivity].
Qed.

Lemma log_select_all_rows m :
  log (select_all_rows m)
  = log m ++ map (fun pn => EvPortStore (fst pn) R_OUTCLR (row_port_mask_of m (snd pn)))
               scanner_ports.
Proof.
  apply (sweep_log R_OUTCLR (fun s pn => row_port_mask_of s (snd pn))).
  - reflexivity.
  - apply scanner_ports_nodup.
Qed.

Lemma log_unselect_all_rows m :
  log (unselect_all_rows m)
  = log m ++ map (fun pn => EvPortStore (fst pn) R_OUTSET (row_port_mask_of m (snd pn)))
               scanner_ports.
Proof.
  apply (sweep_log R_OUTSET (fun s pn => row_port_mask_of s (snd pn))).
  - reflexivity.
  - apply scanner_ports_nodup.
Qed.

Lemma log_clear_flags m :
  log (matrix_scan_irq_clear_flags m)
  = log m ++ map (fun pn => EvPortStore (fst pn) R_INTFLAGS
                              (u8 (Z.lor (INTFLAGS (ports m (fst pn))) PORT_INT0IF_bm)))
               scanner_ports.
Proof.
  apply (sweep_log R_INTFLAGS
           (fun s pn => u8 (Z.lor (INTFLAGS (ports s (fst pn))) PORT_INT0IF_bm))).
  - intros s p v pn Hne. now rewrite INTFLAGS_port_store_elsewhere by congruence.
  - apply scanner_ports_nodup.
Qed.

Lemma log_set_int0_level lvl m :
  log (set_int0_level lvl m)
  = log m ++ map (fun pn => EvPortStore (fst pn) R_INTCTRL
                              (u8 (Z.lor (Z.land (INTCTRL (ports m (fst pn)))
                                            (Z.lnot PORT_INT0LVL_gm)) lvl)))
               scanner_ports.
Proof.
  apply (sweep_log R_INTCTRL
           (fun s pn => u8 (Z.lor (Z.land (INTCTRL (ports s (fst pn)))
                                     (Z.lnot PORT_INT0LVL_gm)) lvl))).
  - intros s p v pn Hne. now rewrite INTCTRL_port_store_elsewhere by congruence.
  - apply scanner_ports_nodup.
Qed.

Lemma level_after_set_int0_level lvl m p :
  lvl = PORT_INT0LVL_OFF_gc \/ lvl = PORT_INT0LVL_LO_gc ->
  In p scanner_port_names ->
  Z.land (INTCTRL (ports (set_int0_level lvl m) p)) PORT_INT0LVL_gm = lvl.
Proof.
  intros Hl Hp. unfold scanner_port_names in Hp.
  apply in_map_iff in Hp as (pn & <- & Hpn).
  change (set_int0_level lvl m)
    with (sweep R_INTCTRL
            (fun s pn => u8 (Z.lor (Z.land (INTCTRL (ports s (fst pn)))
                                      (Z.lnot PORT_INT0LVL_gm)) lvl))
            scanner_ports m).
  rewrite (sweep_port R_INTCTRL
             (fun s pn => u8 (Z.lor (Z.land (INTCTRL (ports s (fst pn)))
                                       (Z.lnot PORT_INT0LVL_gm)) lvl))).
  - cbn [reg_store INTCTRL]. now apply int0_level_written.
  - intros s q v pn' Hne. now rewrite INTCTRL_port_store_elsewhere by congruence.
  - apply scanner_ports_nodup.
  - exact Hpn.
  - discriminate.
Qed.

Lemma INTFLAGS_select_all_rows m q :
  INTFLAGS (ports (select_all_rows m) q) = INTFLAGS (ports m q).
Proof.
  apply (fold_left_invariant _ (fun s => INTFLAGS (ports s q))).
  intros s x. now apply INTFLAGS_port_store_other.
Qed.

Lemma INTCTRL_select_all_rows m q :
  INTCTRL (ports (select_all_rows m) q) = INTCTRL (ports m q).
Proof.
  apply (fold_left_invariant _ (fun s => INTCTRL (ports s q))).
  intros s x. now apply INTCTRL_port_store_other.
Qed.

Lemma INTCTRL_unselect_all_rows m q :
  INTCTRL (ports (unselect_all_rows m) q) = INTCTRL (ports m q).
Proof.
  apply (fold_left_invariant _ (fun s => INTCTRL (ports s q))).
  intros s x. now apply INTCTRL_port_store_other.
Qed.

Lemma INTCTRL_clear_flags m q :
  INTCTRL (ports (matrix_scan_irq_clear_flags m) q) = INTCTRL (ports m q).
Proof.
  apply (fold_left_invariant _ (fun s => INTCTRL (ports s q))).
  intros s x. now apply INTCTRL_port_store_other.
Qed.

Lemma row_port_masks_blind : hw_blind (fun m => s_row_port_masks (sv m)).
Proof. split; reflexivity. Qed.

Lemma row_port_mask_of_port_store p r v m n :
  row_port_mask_of (port_store p r v m) n = row_port_mask_of m n.
Proof.
  unfold row_port_mask_of.
  now rewrite (obs_port_store _ row_port_masks_blind).
Qed.

Lemma in_scanner_port_names pn : In pn scanner_ports -> In (fst pn) scanner_port_names.
Proof. intros H. unfold scanner_port_names. now apply in_map. Qed.

(** What each straight-line port sequence leaves in a port it names. *)
Lemma ports_select_all_rows m pn :
  In pn scanner_ports ->
  ports (select_all_rows m) (fst pn)
  = reg_store R_OUTCLR (row_port_mask_of m (snd pn)) (MPCMASK m) (ports m (fst pn)).
Proof.
  intros Hpn.
  change (select_all_rows m)
    with (sweep R_OUTCLR (fun s pn => row_port_mask_of s (snd pn)) scanner_ports m).
  rewrite (sweep_port R_OUTCLR (fun s pn => row_port_mask_of s (snd pn)));
    [reflexivity | | apply scanner_ports_nodup | exact Hpn | discriminate].
  intros s p v pn' _. apply row_port_mask_of_port_store.
Qed.

Lemma ports_unselect_all_rows m pn :
  In pn scanner_ports ->
  ports (unselect_all_rows m) (fst pn)
  = reg_store R_OUTSET (row_port_mask_of m (snd pn)) (MPCMASK m) (ports m (fst pn)).
Proof.
  intros Hpn.
  change (unselect_all_rows m)
    with (sweep R_OUTSET (fun s pn => row_port_mask_of s (snd pn)) scanner_ports m).
  rewrite (sweep_port R_OUTSET (fun s pn => row_port_mask_of s (snd pn)));
    [reflexivity | | apply scanner_ports_nodup | exact Hpn | discriminate].
  intros s p v pn' _. apply row_port_mask_of_port_store.
Qed.

Lemma ports_set_int0_level lvl m pn :
  In pn scanner_ports ->
  ports (set_int0_level lvl m) (fst pn)
  = reg_store R_INTCTRL
      (u8 (Z.lor (Z.land (INTCTRL (ports m (fst pn))) (Z.lnot PORT_INT0LVL_gm)) lvl))
      (MPCMASK m) (ports m (fst pn)).
Proof.
  intros Hpn.
  change (set_int0_level lvl m)
    with (sweep R_INTCTRL
            (fun s pn => u8 (Z.lor (Z.land (INTCTRL (ports s (fst pn)))
                                      (Z.lnot PORT_INT0LVL_gm)) lvl))
            scanner_ports m).
  rewrite (sweep_port R_INTCTRL
             (fun s pn => u8 (Z.lor (Z.land (INTCTRL (ports s (fst pn)))
                                       (Z.lnot PORT_INT0LVL_gm)) lvl)));
    [reflexivity | | apply scanner_ports_nodup | exact Hpn | discriminate].
  intros s q v pn' Hne. now rewrite INTCTRL_port_store_elsewhere by congruence.
Qed.

Lemma ports_clear_flags m pn :
  In pn scanner_ports ->
  ports (matrix_scan_irq_clear_flags m) (fst pn)
  = reg_store R_INTFLAGS (u8 (Z.lor (INTFLAGS (ports m (fst pn))) PORT_INT0IF_bm))
      (MPCMASK m) (ports m (fst pn)).
Proof.
  intros Hpn.
  change (matrix_scan_irq_clear_flags m)
    with (sweep R_INTFLAGS
            (fun s pn => u8 (Z.lor (INTFLAGS (ports s (fst pn))) PORT_INT0IF_bm))
            scanner_ports m).
  rewrite (sweep_port R_INTFLAGS
             (fun s pn => u8 (Z.lor (INTFLAGS (ports s (fst pn))) PORT_INT0IF_bm)));
    [reflexivity | | apply scanner_ports_nodup | exact Hpn | discriminate].
  intros s q v pn' Hne. now rewrite INTFLAGS_port_store_elsewhere by congruence.
Qed.

(** [INTFLAGS |= PORT_INT0IF_bm] on a write-one-to-clear register writes
    back every flag it read as set: the low eight bits all end clear. *)
Lemma flags_written_back old :
  Z.ldiff old (u8 (Z.lor old PORT_INT0IF_bm)) = Z.ldiff old 255.
Proof.
  apply Z.bits_inj'. intros i Hi. rewrite !Z.ldiff_spec.
  destruct (Z.lt_ge_cases i 8) as [Hlt|Hge].
  - rewrite u8_testbit_low, Z.lor_spec by lia.
    change 255 with (Z.ones 8). rewrite Z.ones_spec_low by lia.
    destruct (Z.testbit old i); reflexivity.
  - unfold u8. change 256 with (2 ^ 8). rewrite Z.mod_pow2_bits_high by lia.
    change 255 with (Z.ones 8). now rewrite Z.ones_spec_high by lia.
Qed.

Lemma ldiff_255_8_bit old : 0 <= old < 256 -> Z.ldiff old 255 = 0.
Proof.
  intros Hold. change 255 with (Z.ones 8). rewrite Z.ldiff_ones_r by lia.
  rewrite Z.shiftr_div_pow2 by lia. change (2 ^ 8) with 256.
  rewrite Z.div_small by lia. apply Z.shiftl_0_l.
Qed.

Lemma INTFLAGS_clear_flags m pn :
  In pn scanner_ports ->
  INTFLAGS (ports (matrix_scan_irq_clear_flags m) (fst pn))
  = Z.ldiff (INTFLAGS (ports m (fst pn))) 255.
Proof.
  intros Hpn. rewrite ports_clear_flags by assumption.
  cbn [reg_store INTFLAGS]. apply flags_written_back.
Qed.

Lemma INTFLAGS_set_int0_level lvl m q :
  INTFLAGS (ports (set_int0_level lvl m) q) = INTFLAGS (ports m q).
Proof.
  apply (fold_left_invariant _ (fun s => INTFLAGS (ports s q))).
  intros s x. now apply INTFLAGS_port_store_other.
Qed.

Lemma OUT_port_store_other p r v m q :
  r = R_INTCTRL \/ r = R_INTFLAGS ->
  OUT (ports (port_store p r v m) q) = OUT (ports m q).
Proof.
  intros Hr. rewrite ports_port_store.
  destruct (decide (q = p)) as [->|]; [|reflexivity].
  destruct Hr as [-> | ->]; reflexivity.
Qed.

Lemma OUT_set_int0_level lvl m q :
  OUT (ports (set_int0_level lvl m) q) = OUT (ports m q).
Proof.
  apply (fold_left_invariant _ (fun s => OUT (ports s q))).
  intros s x. apply OUT_port_store_other. auto.
Qed.

Lemma OUT_clear_flags m q :
  OUT (ports (matrix_scan_irq_clear_flags m) q) = OUT (ports m q).
Proof.
  apply (fold_left_invariant _ (fun s => OUT (ports s q))).
  intros s x. apply OUT_port_store_other. auto.
Qed.

Lemma OUT_enable m pn :
  In pn scanner_ports ->
  OUT (ports (matrix_scan_irq_enable m) (fst pn))
  = Z.ldiff (OUT (ports m (fst pn))) (row_port_mask_of m (snd pn)).
Proof.
  intros Hpn. unfold matrix_scan_irq_enable.
  rewrite OUT_set_int0_level.
  unfold matrix_scan_irq_clear, set_triggered, emit, with_sv. cbn [ports].
  rewrite OUT_clear_flags.
  unfold parasitic_discharge_delay, emit. cbn [ports].
  now rewrite ports_select_all_rows.
Qed.

Lemma OUT_disable m pn :
  In pn scanner_ports ->
  OUT (ports (matrix_scan_irq_disable m) (fst pn))
  = Z.lor (OUT (ports m (fst pn))) (row_port_mask_of m (snd pn)).
Proof.
  intros Hpn. unfold matrix_scan_irq_disable.
  rewrite ports_unselect_all_rows by assumption.
  cbn [reg_store OUT]. rewrite OUT_set_int0_level.
  unfold row_port_mask_of.
  now rewrite (obs_set_int0_level _ row_port_masks_blind).
Qed.

Lemma INTFLAGS_enable m pn :
  In pn scanner_ports ->
  INTFLAGS (ports (matrix_scan_irq_enable m) (fst pn))
  = Z.ldiff (INTFLAGS (ports m (fst pn))) 255.
Proof.
  intros Hpn. unfold matrix_scan_irq_enable. rewrite INTFLAGS_set_int0_level.
  unfold matrix_scan_irq_clear, set_triggered, emit, with_sv. cbn [ports].
  rewrite INTFLAGS_clear_flags by assumption.
  unfold parasitic_discharge_delay, emit. cbn [ports].
  now rewrite INTFLAGS_select_all_rows.
Qed.

Lemma row_tables_enable m :
  row_tables_of (matrix_scan_irq_enable m) = row_tables_of m.
Proof.
  unfold matrix_scan_irq_enable.
  rewrite (obs_set_int0_level _ row_tables_blind).
  unfold matrix_scan_irq_clear, set_triggered, emit, with_sv, row_tables_of. cbn [sv
    s_row_port_masks s_row_pin_mask s_row_ports].
  fold (row_tables_of (matrix_scan_irq_clear_flags
          (parasitic_discharge_delay SLOW_CLOCK
             (s_parasitic_discharge_delay_idle (sv (select_all_rows m)))
             (select_all_rows m)))).
  rewrite (obs_matrix_scan_irq_clear_flags _ row_tables_blind).
  unfold parasitic_discharge_delay.
  rewrite (blind_emit _ row_tables_blind).
  apply (obs_select_all_rows _ row_tables_blind).
Qed.

Lemma row_descriptor_of_tables m m' r :
  row_tables_of m' = row_tables_of m ->
  row_port_of m' r = row_port_of m r /\ row_pin_mask_of m' r = row_pin_mask_of m r.
Proof.
  unfold row_tables_of, row_port_of, row_pin_mask_of. intros E.
  injection E as _ -> ->. split; reflexivity.
Qed.

Lemma land_ldiff_within O K R : Z.land R K = R -> Z.land (Z.ldiff O K) R = 0.
Proof.
  intros HR. apply Z.bits_inj'. intros i Hi.
  apply (f_equal (fun x => Z.testbit x i)) in HR.
  rewrite Z.land_spec in HR. rewrite Z.land_spec, Z.ldiff_spec, Z.bits_0.
  destruct (Z.testbit O i), (Z.testbit K i), (Z.testbit R i); cbn in *; congruence.
Qed.

Lemma land_lor_within O K R : Z.land R K = R -> Z.land (Z.lor O K) R = R.
Proof.
  intros HR. apply Z.bits_inj'. intros i Hi.
  apply (f_equal (fun x => Z.testbit x i)) in HR.
  rewrite Z.land_spec in HR. rewrite Z.land_spec, Z.lor_spec.
  destruct (Z.testbit O i), (Z.testbit K i), (Z.testbit R i); cbn in *; congruence.
Qed.

(** C7.  [matrix_scan_irq_enable] performs, in this order: the OUTCLR
    stores that assert the rows (one per port, A to R), the idle settle
    delay, the INTFLAGS stores that clear stale interrupt flags, the
    clearing of the triggered flag, and the INTCTRL stores.  Afterwards,
    on every port of the scanner, the OUT bits of the port's row mask are
    cleared and no other OUT bit has changed, so every row whose pin lies
    in the row mask of its port is asserted; the interrupt flags are
    clear; the triggered flag is clear and the INT0 level is LO.
    [matrix_scan_irq_disable] performs the INTCTRL stores first and the
    OUTSET stores that release the rows after them.  Afterwards the INT0
    level of every port is OFF, the OUT bits of each port's row mask are
    set and no other OUT bit has changed, so every such row is released. *)
Theorem irq_enable_and_disable_order (m : machine) :
  new_events m (matrix_scan_irq_enable m)
  = map (fun pn => EvPortStore (fst pn) R_OUTCLR (row_port_mask_of m (snd pn)))
      scanner_ports
    ++ [EvDelay SLOW_CLOCK (s_parasitic_discharge_delay_idle (sv m))]
    ++ map (fun pn => EvPortStore (fst pn) R_INTFLAGS
                        (u8 (Z.lor (INTFLAGS (ports m (fst pn))) PORT_INT0IF_bm)))
         scanner_ports
    ++ [EvTriggeredFlag false]
    ++ map (fun pn => EvPortStore (fst pn) R_INTCTRL
                        (u8 (Z.lor (Z.land (INTCTRL (ports m (fst pn)))
                                      (Z.lnot PORT_INT0LVL_gm))
                               PORT_INT0LVL_LO_gc)))
         scanner_ports
  /\ has_scan_irq_triggered (sv (matrix_scan_irq_enable m)) = false
  /\ (forall p, In p scanner_port_names ->
        Z.land (INTCTRL (ports (matrix_scan_irq_enable m) p)) PORT_INT0LVL_gm
        = PORT_INT0LVL_LO_gc)
  /\ new_events m (matrix_scan_irq_disable m)
     = map (fun pn => EvPortStore (fst pn) R_INTCTRL
                        (u8 (Z.lor (Z.land (INTCTRL (ports m (fst pn)))
                                      (Z.lnot PORT_INT0LVL_gm))
                               PORT_INT0LVL_OFF_gc)))
         scanner_ports
       ++ map (fun pn => EvPortStore (fst pn) R_OUTSET (row_port_mask_of m (snd pn)))
            scanner_ports
  /\ (forall p, In p scanner_port_names ->
        Z.land (INTCTRL (ports (matrix_scan_irq_disable m) p)) PORT_INT0LVL_gm
        = PORT_INT0LVL_OFF_gc)
  /\ (forall pn, In pn scanner_ports ->
        OUT (ports (matrix_scan_irq_enable m) (fst pn))
        = Z.ldiff (OUT (ports m (fst pn))) (row_port_mask_of m (snd pn))
        /\ INTFLAGS (ports (matrix_scan_irq_enable m) (fst pn))
           = Z.ldiff (INTFLAGS (ports m (fst pn))) 255
        /\ (0 <= INTFLAGS (ports m (fst pn)) < 256 ->
            INTFLAGS (ports (matrix_scan_irq_enable m) (fst pn)) = 0)
        /\ OUT (ports (matrix_scan_irq_disable m) (fst pn))
           = Z.lor (OUT (ports m (fst pn))) (row_port_mask_of m (snd pn)))
  /\ (forall r pn, In pn scanner_ports ->
        row_port_of m r = Some (fst pn) ->
        Z.land (row_pin_mask_of m r) (row_port_mask_of m (snd pn)) = row_pin_mask_of m r ->
        row_asserted (matrix_scan_irq_enable m) r
        /\ row_released (matrix_scan_irq_disable m) r).
Proof.
  split; [|split; [|split; [|split; [|split; [|split]]]]].
  - apply new_events_extends. unfold matrix_scan_irq_enable.
    rewrite log_set_int0_level.
    unfold matrix_scan_irq_clear, set_triggered, parasitic_discharge_delay.
    cbn [log emit with_sv ports].
    rewrite log_clear_flags. cbn [log emit ports].
    rewrite log_select_all_rows.
    rewrite (obs_select_all_rows _ sv_blind).
    rewrite <- !app_assoc.
    rewrite (map_ext
               (fun pn => EvPortStore (fst pn) R_INTFLAGS
                            (u8 (Z.lor (INTFLAGS (ports (select_all_rows m) (fst pn)))
                                   PORT_INT0IF_bm)))
               (fun pn => EvPortStore (fst pn) R_INTFLAGS
                            (u8 (Z.lor (INTFLAGS (ports m (fst pn))) PORT_INT0IF_bm))))
      by (intros pn; now rewrite INTFLAGS_select_all_rows).
    do 5 f_equal. apply map_ext. intros pn.
    rewrite INTCTRL_clear_flags. cbn [ports emit].
    now rewrite INTCTRL_select_all_rows.
  - unfold matrix_scan_irq_enable. now rewrite (obs_set_int0_level _ sv_blind).
  - intros p Hp. unfold matrix_scan_irq_enable.
    apply level_after_set_int0_level; [now right | exact Hp].
  - apply new_events_extends. unfold matrix_scan_irq_disable.
    rewrite log_unselect_all_rows, log_set_int0_level, <- app_assoc.
    do 2 f_equal. apply map_ext. intros pn.
    unfold row_port_mask_of. now rewrite (obs_set_int0_level _ sv_blind).
  - intros p Hp. unfold matrix_scan_irq_disable.
    rewrite INTCTRL_unselect_all_rows.
    apply level_after_set_int0_level; [now left | exact Hp].
  - intros pn Hpn.
    split; [now apply OUT_enable|].
    split; [now apply INTFLAGS_enable|].
    split; [|now apply OUT_disable].
    intros H8. rewrite INTFLAGS_enable by assumption. now apply ldiff_255_8_bit.
  - intros r pn Hpn Hport Hin. split.
    + exists (fst pn).
      destruct (row_descriptor_of_tables m (matrix_scan_irq_enable m) r
                  (row_tables_enable m)) as [-> ->].
      split; [exact Hport|].
      rewrite OUT_enable by assumption. now apply land_ldiff_within.
    + exists (fst pn).
      destruct (row_descriptor_of_tables m (matrix_scan_irq_disable m) r
                  (obs_matrix_scan_irq_disable _ row_tables_blind m)) as [-> ->].
      split; [exact Hport|].
      rewrite OUT_disable by assumption. now apply land_lor_within.
Qed.


End IdleWake.

Section Handler.
Context `{B : Board} `{C : Collaborators}.



Lemma ports_clear_flags_elsewhere m q :
  ~ In q scanner_port_names ->
  ports (matrix_scan_irq_clear_flags m) q = ports m q.
Proof.
  intros Hq. apply (fold_left_invariant_in _ (fun s => ports s q)).
  intros s x Hx. rewrite ports_port_store.
  destruct (decide (q = fst x)) as [->|]; [|reflexivity].
  exfalso. apply Hq. unfold scanner_port_names. now apply in_map.
Qed.





End Handler.

Section ExampleHandler.
#[local] Existing Instance Example.board.
#[local] Existing Instance Example.collab.


End ExampleHandler.

(** ** AES wrapper *)

Section AesWrapper.
Import Aes.
Context `{A : Aes128}.

(** C9.  [aes_key_init] builds the cipher context from the encrypt key
    alone: it is [aes128_init] on the encrypt key, two calls that differ
    only in the decrypt key leave the same context, and every later run
    of encryptions and decryptions produces the same blocks. *)
Theorem aes_key_init_ignores_decrypt_key
    (ekey dkey1 dkey2 : list Z) (ctx : aes128_ctx_t) (ops : list cipher_op) :
  aes_key_init ekey dkey1 ctx = aes128_init ekey ctx
  /\ aes_key_init ekey dkey1 ctx = aes_key_init ekey dkey2 ctx
  /\ run_ops ops (aes_key_init ekey dkey1 ctx) = run_ops ops (aes_key_init ekey dkey2 ctx).
Proof.
  assert (E : aes_key_init ekey dkey1 ctx = aes_key_init ekey dkey2 ctx) by reflexivity.
  split; [reflexivity|]. split; [exact E|]. now rewrite E.
Qed.

End AesWrapper.

(** The wrapper on a toy cipher: the decrypt key leaves no trace. *)
Example aes_key_init_toy_cipher :
  @Aes.run_ops Example.xor_cipher [Aes.OpEncrypt [1; 2]; Aes.OpDecrypt [7; 7]]
    (@Aes.aes_key_init Example.xor_cipher [5; 6] [9; 9] [])
  = [[4; 4]; [2; 1]].
Proof. reflexivity. Qed.

(** ** Radio bring-up *)

Section Radio.
Context `{B : Board} `{C : Collaborators}.
Context {T : Type} (obs : machine -> T) (Hobs : hw_blind obs).

Lemma obs_spi_store r v m : obs (spi_store r v m) = obs m.
Proof.
  unfold spi_store. now rewrite (blind_emit _ Hobs), (blind_SPIC _ Hobs).
Qed.

Lemma obs_spi_read_status m : obs (snd (spi_read_status m)) = obs m.
Proof. unfold spi_read_status. cbn [snd]. apply (blind_SPIC _ Hobs). Qed.

Lemma obs_spi_drain fuel : forall m m',
  spi_drain fuel m = Some m' -> obs m' = obs m.
Proof.
  induction fuel as [|fuel IH]; intros m m' H; cbn [spi_drain] in H; [discriminate|].
  destruct (truthy _).
  - rewrite (IH _ _ H). apply obs_spi_read_status.
  - injection H as <-. apply obs_spi_read_status.
Qed.

Lemma obs_spi_init fuel port m m' :
  spi_init fuel port m = Some m' -> obs m' = obs m.
Proof.
  unfold spi_init. intros H. rewrite (obs_spi_drain _ _ _ H).
  destruct (g_slow_clock_mode _);
    now rewrite !obs_spi_store, !(obs_port_store _ Hobs).
Qed.

Lemma obs_test_spi_poll fuel : forall counter m r,
  test_spi_poll fuel counter m = Some r -> obs (snd r) = obs m.
Proof.
  induction fuel as [|fuel IH]; intros counter m r H; cbn [test_spi_poll] in H;
    [discriminate|].
  destruct (truthy _).
  - injection H as <-. apply obs_spi_read_status.
  - destruct (SPI_TIMEOUT_COUNTER <? _).
    + injection H as <-. apply obs_spi_read_status.
    + rewrite (IH _ _ _ H). apply obs_spi_read_status.
Qed.

Lemma obs_nrf24_test_spi_connection fuel m r :
  nrf24_test_spi_connection fuel m = Some r -> obs (snd r) = obs m.
Proof.
  unfold nrf24_test_spi_connection. intros H.
  rewrite (obs_test_spi_poll _ _ _ _ H). apply obs_spi_store.
Qed.

Lemma obs_nrf24_ce_set port val m : obs (nrf24_ce_set port val m) = obs m.
Proof. unfold nrf24_ce_set. destruct (truthy val); apply (obs_port_store _ Hobs). Qed.

Lemma obs_nrf24_ce_init port m : obs (nrf24_ce_init port m) = obs m.
Proof. apply (obs_port_store _ Hobs). Qed.

End Radio.

Section RadioInit.
Context `{B : Board} `{C : Collaborators}.

(** A first call that gets past the guard returns with the initialized
    flag set, on every path. *)
Lemma nrf24_init_sets_flag fuel m m' :
  is_nrf24_initialized m || rf_disabled m = false ->
  nrf24_init fuel m = Some m' ->
  flags_of m' = (true, rf_disabled m).
Proof.
  intros Hg H. unfold nrf24_init in H. rewrite Hg in H.
  set (m0 := with_nrf24_initialized true m) in H.
  assert (H0 : flags_of m0 = (true, rf_disabled m)) by reflexivity.
  destruct (fst (claim_pins _ _ m0)).
  { injection H as <-. reflexivity. }
  destruct (spi_init fuel NRF24_SPI_PORT _) as [m1|] eqn:E1; [|discriminate].
  assert (H1 : flags_of m1 = (true, rf_disabled m)).
  { now rewrite (obs_spi_init _ flags_blind _ _ _ _ E1). }
  set (m2 := snd (claim_pins (PORT_TO_NUM NRF24_IRQ_PORT) NRF24_IRQ_PIN_MASK _)) in H.
  assert (H2 : flags_of m2 = (true, rf_disabled m)).
  { subst m2. now rewrite !(obs_claim_pins _ flags_blind). }
  destruct (has_critical_error (errors m2)).
  { injection H as <-. now rewrite (obs_raise_error _ flags_blind). }
  destruct (nrf24_test_spi_connection fuel m2) as [r|] eqn:E3; [|discriminate].
  assert (H3 : flags_of (snd r) = (true, rf_disabled m)).
  { now rewrite (obs_nrf24_test_spi_connection _ flags_blind _ _ _ E3). }
  destruct (truthy (fst r)); injection H as <-.
  - now rewrite (obs_raise_error _ flags_blind).
  - now rewrite (obs_nrf24_ce_set _ flags_blind), (obs_nrf24_ce_init _ flags_blind).
Qed.

(** C10.  When the initialized flag is set or the rf-disabled setting is
    active, [nrf24_init] returns the machine as it found it: no pin is
    claimed, no error registered, no port or SPI register written, no
    event logged.  Every first call that returns leaves one of the two
    conditions true, so a second call right after it, with any loop
    budget, returns and changes nothing. *)
Theorem nrf24_init_idempotent (m : machine) (fuel : nat) :
  (is_nrf24_initialized m = true \/ rf_disabled m = true ->
   nrf24_init fuel m = Some m)
  /\ (forall m' fuel', nrf24_init fuel m = Some m' ->
        (is_nrf24_initialized m' = true \/ rf_disabled m' = true)
        /\ nrf24_init fuel' m' = Some m').
Proof.
  assert (Hguard : forall f x,
            is_nrf24_initialized x = true \/ rf_disabled x = true ->
            nrf24_init f x = Some x).
  { intros f x Hx. unfold nrf24_init.
    assert (is_nrf24_initialized x || rf_disabled x = true) as ->; [|reflexivity].
    apply orb_true_iff. exact Hx. }
  split; [apply Hguard|].
  intros m' fuel' H.
  assert (Hm' : is_nrf24_initialized m' = true \/ rf_disabled m' = true).
  { destruct (is_nrf24_initialized m || rf_disabled m) eqn:Hg.
    - rewrite Hguard in H by (now apply orb_true_iff).
      injection H as <-. now apply orb_true_iff.
    - pose proof (nrf24_init_sets_flag fuel m m' Hg H) as Hf.
      injection Hf as Hi _. now left. }
  split; [exact Hm' | now apply Hguard].
Qed.

(** The polling loop of the connection test always ends within 32001
    status reads. *)
Lemma test_spi_poll_returns fuel : forall counter m,
  0 <= counter <= SPI_TIMEOUT_COUNTER ->
  (Z.to_nat (SPI_TIMEOUT_COUNTER + 1 - counter) <= fuel)%nat ->
  exists r, test_spi_poll fuel counter m = Some r.
Proof.
  unfold SPI_TIMEOUT_COUNTER.
  induction fuel as [|fuel IH]; intros counter m Hc Hf; [lia|].
  cbn [test_spi_poll]. destruct (truthy _); [eauto|].
  assert (E : u16 (counter + 1) = counter + 1) by (apply Z.mod_small; lia).
  rewrite E. unfold SPI_TIMEOUT_COUNTER.
  destruct (32000 <? counter + 1) eqn:Ht; [eauto|].
  apply Z.ltb_ge in Ht. apply IH; lia.
Qed.

(** The drain loop of [spi_init] ends as soon as a status read shows the
    interrupt flag clear. *)
Lemma spi_drain_returns fuel : forall m n,
  (n < fuel)%nat ->
  Z.land (u8 (spi_status (spi_status_reads (SPIC m) + n))) SPI_IF_bm = 0 ->
  exists m', spi_drain fuel m = Some m'.
Proof.
  induction fuel as [|fuel IH]; intros m n Hn Hclr; [lia|].
  cbn [spi_drain]. destruct (truthy _) eqn:Ht; [|eauto].
  destruct n as [|n].
  - exfalso. unfold spi_read_status in Ht. cbn [fst] in Ht.
    rewrite Nat.add_0_r in Hclr. now rewrite Hclr in Ht.
  - apply (IH _ n); [lia|].
    unfold spi_read_status. cbn [snd SPIC with_SPIC spi_status_reads].
    now rewrite <- Nat.add_succ_comm in Hclr.
Qed.

(** With a budget of 32001 loop rounds the first call returns whenever
    the SPI flag reads clear within the budget. *)
Lemma nrf24_init_returns fuel m n :
  SPI_TIMEOUT_COUNTER + 1 <= Z.of_nat fuel -> (n < fuel)%nat ->
  Z.land (u8 (spi_status (spi_status_reads (SPIC m) + n))) SPI_IF_bm = 0 ->
  exists m', nrf24_init fuel m = Some m'.
Proof.
  intros Hfuel Hn Hclr. unfold nrf24_init.
  destruct (is_nrf24_initialized m || rf_disabled m); [eauto|].
  destruct (fst (claim_pins _ _ _)); [eauto|].
  destruct (spi_init fuel NRF24_SPI_PORT _) as [m1|] eqn:E1.
  - destruct (has_critical_error _); [eauto|].
    match goal with |- context [nrf24_test_spi_connection fuel ?x] =>
      destruct (test_spi_poll_returns fuel 0 (spi_store R_SPI_DATA NRF_NOP x)) as [r Hr]
    end; [unfold SPI_TIMEOUT_COUNTER; lia | unfold SPI_TIMEOUT_COUNTER in *; lia |].
    unfold nrf24_test_spi_connection. rewrite Hr.
    destruct (truthy (fst r)); eauto.
  - exfalso. unfold spi_init in E1.
    match type of E1 with spi_drain fuel ?x = None =>
      destruct (spi_drain_returns fuel x n Hn) as [m' Hm'] end.
    + destruct (g_slow_clock_mode _); exact Hclr.
    + congruence.
Qed.

End RadioInit.

Section ExampleRadio.
#[local] Existing Instance Example.board.
#[local] Existing Instance Example.collab.

(** C10 on the example board: the first call brings the link up, the
    second one returns the same machine. *)
Lemma nrf24_init_idempotent_witness :
  nrf24_init 5 (Runs.fresh 1 true) = Some Runs.after_radio_init
  /\ is_nrf24_initialized Runs.after_radio_init = true
  /\ nrf24_init 5 Runs.after_radio_init = Some Runs.after_radio_init.
Proof.
  assert (E : nrf24_init 5 (Runs.fresh 1 true) = Some Runs.after_radio_init)
    by (vm_compute; reflexivity).
  destruct (nrf24_init_idempotent (Runs.fresh 1 true) 5) as [_ H2].
  destruct (H2 Runs.after_radio_init 5%nat E) as [_ Hsame].
  split; [exact E|]. split; [vm_compute; reflexivity | exact Hsame].
Defined.

End ExampleRadio.

Section ExampleIdleWake.
#[local] Existing Instance Example.board.
#[local] Existing Instance Example.collab.

Lemma portB_is_scanned : In PORTB scanner_port_names.
Proof. right. left. reflexivity. Qed.

Lemma portA_entry : In (PORTA, PORT_A_NUM) scanner_ports.
Proof. left. reflexivity. Qed.

(** C7 on the initialised 3 x 2 matrix: port B ends at level LO after
    arming and at level OFF after disarming; arming drives the three row
    pins of port A low, so row 1 is asserted, and disarming releases it. *)
Lemma irq_enable_and_disable_order_witness :
  Z.land (INTCTRL (ports (matrix_scan_irq_enable Runs.ready) PORTB)) PORT_INT0LVL_gm
  = PORT_INT0LVL_LO_gc
  /\ Z.land (INTCTRL (ports (matrix_scan_irq_disable Runs.ready) PORTB)) PORT_INT0LVL_gm
     = PORT_INT0LVL_OFF_gc
  /\ OUT (ports (matrix_scan_irq_enable Runs.ready) PORTA)
     = Z.ldiff (OUT (ports Runs.ready PORTA)) 7
  /\ row_asserted (matrix_scan_irq_enable Runs.ready) 1
  /\ row_released (matrix_scan_irq_disable Runs.ready) 1.
Proof.
  destruct (irq_enable_and_disable_order Runs.ready)
    as (_ & _ & Hlo & _ & Hoff & Hst & Hrow).
  split; [apply Hlo; exact portB_is_scanned|].
  split; [apply Hoff; exact portB_is_scanned|].
  split; [exact (proj1 (Hst (PORTA, PORT_A_NUM) portA_entry))|].
  apply (Hrow 1 (PORTA, PORT_A_NUM) portA_entry); reflexivity.
Defined.





End ExampleIdleWake.

(** * Further properties of the sources *)

(** ** Delay rescaling for any slow clock *)

Section MoreInit.
Context `{B : Board} `{C : Collaborators}.

Lemma accepted_passes_gate m :
  plan_accepted m ->
  (MAX_NUM_ROWS <? rows (g_scan_plan m))
  || (IO_PORT_MAX_PIN_NUM <? max_col_pin_num (g_scan_plan m)) = false.
Proof. intros [Hr Hp]. apply orb_false_iff. split; apply Z.ltb_ge; assumption. Qed.

Lemma rescale_8_bit D sf :
  0 <= D < 256 -> 0 <= sf < 256 ->
  u8 (u16 (u16 D * sf) / u8 (16000000 / 1000000)) = (D * sf / 16) mod 256
  /\ D * sf < 65536.
Proof.
  intros HD Hsf. change (16000000 / 1000000) with 16. unfold u8, u16.
  rewrite (Z.mod_small D) by lia. rewrite (Z.mod_small 16) by lia.
  assert (0 <= D * sf <= 255 * 255) by nia.
  rewrite (Z.mod_small (D * sf)) by lia. split; [reflexivity | lia].
Qed.

Lemma slow_delays_stored m :
  plan_accepted m -> g_slow_clock_mode m = true ->
  0 <= parasitic_discharge_delay_idle (g_scan_plan m) < 256 ->
  0 <= parasitic_discharge_delay_debouncing (g_scan_plan m) < 256 ->
  s_parasitic_discharge_delay_idle (sv (matrix_scanner_init m))
  = (parasitic_discharge_delay_idle (g_scan_plan m)
     * ((CLOCK_SPEED_SLOW / 1000000) mod 256) / 16) mod 256
  /\ s_parasitic_discharge_delay_debouncing (sv (matrix_scanner_init m))
     = (parasitic_discharge_delay_debouncing (g_scan_plan m)
        * ((CLOCK_SPEED_SLOW / 1000000) mod 256) / 16) mod 256.
Proof.
  intros Hacc Hslow HDi HDd.
  destruct (init_config_preserved m (accepted_passes_gate m Hacc)) as (m1 & Hcfg & Hinit).
  injection Hcfg as Hplan Hs. rewrite Hinit, Hs, Hslow, Hplan.
  cbn [sv set_delays with_sv s_parasitic_discharge_delay_idle
       s_parasitic_discharge_delay_debouncing].
  assert (Hsf : 0 <= u8 (CLOCK_SPEED_SLOW / 1000000) < 256)
    by (apply Z.mod_pos_bound; lia).
  destruct (rescale_8_bit _ _ HDi Hsf) as [-> _].
  destruct (rescale_8_bit _ _ HDd Hsf) as [-> _].
  split; reflexivity.
Qed.

(** X1.  For any value of CLOCK_SPEED_SLOW, slow-clock initialisation of
    an accepted plan with 8-bit nominal delays stores
    (D * sf / 16) mod 256 with sf = (CLOCK_SPEED_SLOW / 1000000) mod 256:
    the 16-bit product D * sf is always exact, but the quotient is cut to
    8 bits when it is stored. *)
Theorem slow_delay_is_cut_to_8_bits (m : machine) :
  plan_accepted m -> g_slow_clock_mode m = true ->
  0 <= parasitic_discharge_delay_idle (g_scan_plan m) < 256 ->
  0 <= parasitic_discharge_delay_debouncing (g_scan_plan m) < 256 ->
  s_parasitic_discharge_delay_idle (sv (matrix_scanner_init m))
  = (parasitic_discharge_delay_idle (g_scan_plan m)
     * ((CLOCK_SPEED_SLOW / 1000000) mod 256) / 16) mod 256
  /\ s_parasitic_discharge_delay_debouncing (sv (matrix_scanner_init m))
     = (parasitic_discharge_delay_debouncing (g_scan_plan m)
        * ((CLOCK_SPEED_SLOW / 1000000) mod 256) / 16) mod 256
  /\ parasitic_discharge_delay_idle (g_scan_plan m)
     * ((CLOCK_SPEED_SLOW / 1000000) mod 256) < 65536
  /\ parasitic_discharge_delay_debouncing (g_scan_plan m)
     * ((CLOCK_SPEED_SLOW / 1000000) mod 256) < 65536.
Proof.
  intros Hacc Hslow HDi HDd.
  destruct (slow_delays_stored m Hacc Hslow HDi HDd) as [Hi Hd].
  assert (Hsf : 0 <= (CLOCK_SPEED_SLOW / 1000000) mod 256 < 256)
    by (apply Z.mod_pos_bound; lia).
  split; [exact Hi|]. split; [exact Hd|]. split; nia.
Qed.

(** X2.  With a slow clock no faster than the 16 MHz reference, the
    stored slow-clock delay never exceeds the nominal one, and it is 0
    whenever D * (CLOCK_SPEED_SLOW / 1000000) is below 16 -- in
    particular for every D when the slow clock is below 1 MHz. *)
Theorem slow_delay_never_longer_than_nominal (m : machine) :
  plan_accepted m -> g_slow_clock_mode m = true ->
  0 <= parasitic_discharge_delay_idle (g_scan_plan m) < 256 ->
  0 <= parasitic_discharge_delay_debouncing (g_scan_plan m) < 256 ->
  0 <= CLOCK_SPEED_SLOW <= 16000000 ->
  s_parasitic_discharge_delay_idle (sv (matrix_scanner_init m))
  <= parasitic_discharge_delay_idle (g_scan_plan m)
  /\ s_parasitic_discharge_delay_debouncing (sv (matrix_scanner_init m))
     <= parasitic_discharge_delay_debouncing (g_scan_plan m)
  /\ (parasitic_discharge_delay_idle (g_scan_plan m) * (CLOCK_SPEED_SLOW / 1000000) < 16 ->
      s_parasitic_discharge_delay_idle (sv (matrix_scanner_init m)) = 0)
  /\ (parasitic_discharge_delay_debouncing (g_scan_plan m)
      * (CLOCK_SPEED_SLOW / 1000000) < 16 ->
      s_parasitic_discharge_delay_debouncing (sv (matrix_scanner_init m)) = 0).
Proof.
  intros Hacc Hslow HDi HDd Hclk.
  destruct (slow_delays_stored m Hacc Hslow HDi HDd) as [Hi Hd].
  assert (Hsf : 0 <= CLOCK_SPEED_SLOW / 1000000 <= 16).
  { split; [apply Z.div_pos; lia | apply Z.div_le_upper_bound; lia]. }
  rewrite (Z.mod_small (CLOCK_SPEED_SLOW / 1000000)) in Hi, Hd by lia.
  assert (Hq : forall D, 0 <= D < 256 ->
            0 <= D * (CLOCK_SPEED_SLOW / 1000000) / 16 <= D).
  { intros D HD. split.
    - apply Z.div_pos; nia.
    - apply Z.div_le_upper_bound; nia. }
  pose proof (Hq _ HDi) as Qi. pose proof (Hq _ HDd) as Qd.
  rewrite Z.mod_small in Hi, Hd by lia.
  rewrite Hi, Hd. split; [lia|]. split; [lia|]. split; intros Hlt.
  - apply Z.div_small. nia.
  - apply Z.div_small. nia.
Qed.

End MoreInit.

Section MoreInitExamples.
#[local] Existing Instance Example.collab.

(** X1 on a board whose slow clock is 32 MHz: nominal 200 is stored as
    (200 * 32 / 16) mod 256 = 144. *)
Lemma slow_delay_is_cut_to_8_bits_witness :
  s_parasitic_discharge_delay_idle
    (sv (@matrix_scanner_init MoreExamples.board_32mhz Example.collab
           MoreExamples.long_delays)) = 144.
Proof.
  destruct (@slow_delay_is_cut_to_8_bits MoreExamples.board_32mhz Example.collab
              MoreExamples.long_delays) as (Hi & _).
  - split; cbn; lia.
  - reflexivity.
  - cbn; lia.
  - cbn; lia.
  - rewrite Hi. reflexivity.
Defined.

(** X2 on the 1 MHz example board: nominal 40 is stored as 2. *)
Lemma slow_delay_never_longer_than_nominal_witness :
  s_parasitic_discharge_delay_idle
    (sv (@matrix_scanner_init Example.board Example.collab (Runs.fresh 1 true))) <= 40.
Proof.
  destruct (@slow_delay_never_longer_than_nominal Example.board Example.collab
              (Runs.fresh 1 true)) as (Hi & _).
  - split; cbn; lia.
  - reflexivity.
  - cbn; lia.
  - cbn; lia.
  - cbn; lia.
  - exact Hi.
Defined.

End MoreInitExamples.

(** ** Column setup *)

Section MoreColumns.
Context `{B : Board} `{C : Collaborators}.

Lemma column_keeps_refl m : column_setup_keeps m m.
Proof. intros q. repeat split; auto. intros i _ Hi. exact Hi. Qed.

Lemma column_keeps_same_ports m m' : ports m' = ports m -> column_setup_keeps m m'.
Proof. intros E q. rewrite E. apply column_keeps_refl. Qed.

Lemma column_keeps_trans m1 m2 m3 :
  column_setup_keeps m1 m2 -> column_setup_keeps m2 m3 -> column_setup_keeps m1 m3.
Proof.
  intros H12 H23 q. destruct (H12 q) as (O1 & C1 & F1 & D1 & M1).
  destruct (H23 q) as (O2 & C2 & F2 & D2 & M2).
  repeat split; try congruence.
  - intros i Hi Hb. apply D1; [assumption|]. now apply D2.
  - intros i Hi Hb. apply M2; [assumption|]. now apply M1.
Qed.

Lemma column_keeps_DIRCLR p v m : column_setup_keeps m (port_store p R_DIRCLR v m).
Proof.
  intros q. rewrite ports_port_store.
  destruct (decide (q = p)) as [->|]; [|apply column_keeps_refl].
  cbn [reg_store OUT INTCTRL INTFLAGS DIR INT0MASK]. repeat split; auto.
  intros i Hi. rewrite Z.ldiff_spec. now intros [Hb _]%andb_true_iff.
Qed.

Lemma column_keeps_INT0MASK p v m :
  column_setup_keeps m
    (port_store p R_INT0MASK (u8 (Z.lor (INT0MASK (ports m p)) v)) m).
Proof.
  intros q. rewrite ports_port_store.
  destruct (decide (q = p)) as [->|]; [|apply column_keeps_refl].
  cbn [reg_store OUT INTCTRL INTFLAGS DIR INT0MASK]. repeat split; auto.
  - intros i _ Hb. exact Hb.
  - intros i Hi Hb. rewrite u8_testbit_low, Z.lor_spec, Hb by assumption. reflexivity.
Qed.

Lemma column_keeps_PIN0CTRL p v m : column_setup_keeps m (port_store p R_PIN0CTRL v m).
Proof.
  intros q. rewrite ports_port_store.
  destruct (decide (q = p)) as [->|]; [|apply column_keeps_refl].
  cbn [reg_store OUT INTCTRL INTFLAGS DIR INT0MASK]. repeat split; auto.
  intros i _ Hb. exact Hb.
Qed.

Lemma column_keeps_setup_column_port p mask m :
  column_setup_keeps m (snd (setup_column_port p mask m)).
Proof.
  unfold setup_column_port.
  set (m1 := port_store p R_DIRCLR mask m).
  set (m2 := port_store p R_INT0MASK _ m1).
  assert (H2 : column_setup_keeps m (store_MPCMASK mask m2)).
  { eapply column_keeps_trans; [apply column_keeps_DIRCLR|]. fold m1.
    eapply column_keeps_trans; [apply column_keeps_INT0MASK|]. fold m2.
    now apply column_keeps_same_ports. }
  repeat match goal with |- context [if ?c then _ else _] => destruct c end;
    cbn [snd].
  - eapply column_keeps_trans; [exact H2 | apply column_keeps_PIN0CTRL].
  - eapply column_keeps_trans; [exact H2 | apply column_keeps_PIN0CTRL].
  - eapply column_keeps_trans; [exact H2 | now apply column_keeps_same_ports].
Qed.

Lemma column_keeps_setup_columns_ports l : forall m,
  column_setup_keeps m (setup_columns_ports l m).
Proof.
  induction l as [|ii l IH]; intros m; cbn [setup_columns_ports].
  - apply column_keeps_refl.
  - destruct (col_mask_of m ii =? 0); [apply IH|].
    assert (Hcl : column_setup_keeps m (snd (claim_pins ii (col_mask_of m ii) m)))
      by now apply column_keeps_same_ports.
    destruct (fst (claim_pins ii (col_mask_of m ii) m)).
    + eapply column_keeps_trans; [exact Hcl | now apply column_keeps_same_ports].
    + eapply column_keeps_trans; [exact Hcl|].
      destruct (fst (setup_column_port _ _ _)).
      * eapply column_keeps_trans; [apply column_keeps_setup_column_port | apply IH].
      * apply column_keeps_setup_column_port.
Qed.

Lemma ports_add_col_masks l m : ports (fold_left add_col_mask l m) = ports m.
Proof. apply (fold_left_invariant add_col_mask ports). reflexivity. Qed.

Lemma ports_port_store_elsewhere p r v m q :
  q <> p -> ports (port_store p r v m) q = ports m q.
Proof.
  intros Hne. rewrite ports_port_store. destruct (decide (q = p)); [congruence | reflexivity].
Qed.

Lemma ports_setup_column_port_elsewhere p mask m q :
  q <> p -> ports (snd (setup_column_port p mask m)) q = ports m q.
Proof.
  intros Hne. unfold setup_column_port.
  set (m1 := port_store p R_DIRCLR mask m).
  set (m2 := port_store p R_INT0MASK _ m1).
  assert (H2 : ports (store_MPCMASK mask m2) q = ports m q).
  { change (ports (store_MPCMASK mask m2) q) with (ports m2 q). subst m2 m1.
    now rewrite !ports_port_store_elsewhere. }
  repeat match goal with |- context [if ?c then _ else _] => destruct c end;
    cbn [snd].
  - now rewrite ports_port_store_elsewhere.
  - now rewrite ports_port_store_elsewhere.
  - exact H2.
Qed.

(** A port none of whose indices carries a column mask is never written. *)
Lemma setup_columns_ports_skips l : forall m q,
  (forall ii, In ii l -> IO_MAP_GET_PORT ii = q -> col_mask_of m ii = 0) ->
  ports (setup_columns_ports l m) q = ports m q.
Proof.
  induction l as [|ii l IH]; intros m q Hq; cbn [setup_columns_ports]; [reflexivity|].
  destruct (col_mask_of m ii =? 0) eqn:Hz.
  - apply IH. intros jj Hj. apply Hq. now right.
  - apply Z.eqb_neq in Hz.
    assert (Hne : q <> IO_MAP_GET_PORT ii).
    { intros ->. apply Hz. apply Hq; [now left | reflexivity]. }
    destruct (fst (claim_pins ii (col_mask_of m ii) m)); [reflexivity|].
    set (m1 := snd (claim_pins ii (col_mask_of m ii) m)).
    assert (H1 : ports (snd (setup_column_port (IO_MAP_GET_PORT ii) (col_mask_of m ii) m1)) q
                 = ports m q)
      by now rewrite ports_setup_column_port_elsewhere.
    destruct (fst (setup_column_port _ _ _)); [|exact H1].
    rewrite IH; [exact H1|].
    intros jj Hj Hp. unfold col_mask_of.
    rewrite (obs_setup_column_port _ sv_blind). subst m1.
    rewrite (obs_claim_pins _ sv_blind). apply Hq; [now right | exact Hp].
Qed.

Lemma setup_columns_keeps_and_skips (m : machine) :
  column_setup_keeps m (setup_columns m)
  /\ row_tables_of (setup_columns m) = row_tables_of m
  /\ (forall q,
        (forall ii,
           0 <= ii < u8 (INT_DIV_ROUND_UP (max_col_pin_num (g_scan_plan m) + 1) IO_PORT_SIZE) ->
           IO_MAP_GET_PORT ii = q -> col_mask_of (setup_columns m) ii = 0) ->
        ports (setup_columns m) q = ports m q).
Proof.
  split; [|split].
  - unfold setup_columns.
    eapply column_keeps_trans; [|apply column_keeps_setup_columns_ports].
    apply column_keeps_same_ports. apply ports_add_col_masks.
  - apply (obs_setup_columns _ row_tables_blind). reflexivity.
  - intros q Hq.
    assert (Hsv : sv (setup_columns m)
                  = sv (fold_left add_col_mask (upto (cols (g_scan_plan m))) m)).
    { unfold setup_columns. apply (obs_setup_columns_ports _ sv_blind). }
    assert (Hplan : g_scan_plan (fold_left add_col_mask (upto (cols (g_scan_plan m))) m)
                    = g_scan_plan m).
    { apply (fold_left_invariant add_col_mask g_scan_plan). reflexivity. }
    unfold setup_columns. cbv zeta. rewrite Hplan.
    rewrite setup_columns_ports_skips; [now rewrite ports_add_col_masks|].
    intros ii Hii Hp. apply upto_elem in Hii.
    specialize (Hq ii Hii Hp). unfold col_mask_of in *. now rewrite <- Hsv.
Qed.


(** X3.  [setup_columns] only turns pins into inputs: it leaves the OUT,
    INTCTRL and INTFLAGS registers of every port as they were, never sets
    a DIR bit, never clears one of the low eight INT0MASK bits, and does
    not touch the row tables.  A port none of whose visited indices has a
    column mask is not written at all. *)
Theorem setup_columns_only_makes_inputs (m : machine) :
  column_setup_keeps m (setup_columns m)
  /\ row_tables_of (setup_columns m) = row_tables_of m
  /\ (forall q,
        (forall ii,
           0 <= ii < u8 (INT_DIV_ROUND_UP (max_col_pin_num (g_scan_plan m) + 1) IO_PORT_SIZE) ->
           IO_MAP_GET_PORT ii = q -> col_mask_of (setup_columns m) ii = 0) ->
        ports (setup_columns m) q = ports m q).
Proof. apply setup_columns_keeps_and_skips. Qed.

Lemma arr_set_get_same l i v :
  (Z.to_nat i < length l)%nat -> arr_get (arr_set l i v) i = v.
Proof.
  intros Hi. unfold arr_get, arr_set. now apply list_lookup_total_insert_eq.
Qed.

Lemma arr_set_get_nat l i v k :
  arr_set l i v !!! k = if decide (Z.to_nat i = k /\ (k < length l)%nat) then v else l !!! k.
Proof.
  unfold arr_set. destruct (decide _) as [[<- Hk]|Hn].
  - now apply list_lookup_total_insert_eq.
  - destruct (decide (Z.to_nat i = k)) as [<-|Hne].
    + rewrite list_insert_ge; [reflexivity|]. lia.
    + now apply list_lookup_total_insert_ne.
Qed.

Lemma length_add_col_mask m c :
  length (s_col_masks (sv (add_col_mask m c))) = length (s_col_masks (sv m)).
Proof. unfold add_col_mask, arr_set. cbn. apply length_insert. Qed.

Lemma add_col_mask_grows m c k i :
  0 <= i < 8 ->
  Z.testbit (s_col_masks (sv m) !!! k) i = true ->
  Z.testbit (s_col_masks (sv (add_col_mask m c)) !!! k) i = true.
Proof.
  intros Hi Hb. unfold add_col_mask. cbn [sv set_col_masks with_sv s_col_masks].
  rewrite arr_set_get_nat. destruct (decide _) as [[<- Hk]|]; [|exact Hb].
  rewrite u8_testbit_low, Z.lor_spec by assumption.
  unfold col_mask_of, arr_get. now rewrite Hb.
Qed.

Lemma add_col_masks_grow l : forall m k i,
  0 <= i < 8 ->
  Z.testbit (s_col_masks (sv m) !!! k) i = true ->
  Z.testbit (s_col_masks (sv (fold_left add_col_mask l m)) !!! k) i = true.
Proof.
  induction l as [|c l IH]; intros m k i Hi Hb; cbn [fold_left]; [exact Hb|].
  apply IH; [assumption|]. now apply add_col_mask_grows.
Qed.

Lemma length_add_col_masks l : forall m,
  length (s_col_masks (sv (fold_left add_col_mask l m))) = length (s_col_masks (sv m)).
Proof.
  induction l as [|c l IH]; intros m; cbn [fold_left]; [reflexivity|].
  now rewrite IH, length_add_col_mask.
Qed.

Lemma add_col_masks_cover l : forall m c,
  In c l ->
  (Z.to_nat (col_pin_port_num c) < length (s_col_masks (sv m)))%nat ->
  col_pin_bit c < 8 ->
  Z.testbit (col_mask_of (fold_left add_col_mask l m) (col_pin_port_num c))
    (col_pin_bit c) = true.
Proof.
  induction l as [|c' l IH]; intros m c Hin Hlen Hbit; [contradiction|].
  cbn [fold_left]. destruct Hin as [->|Hin].
  - unfold col_mask_of, arr_get. apply add_col_masks_grow.
    + split; [apply Z.mod_pos_bound; lia | assumption].
    + unfold add_col_mask. cbn [sv set_col_masks with_sv s_col_masks].
      fold (col_pin_port_num c) (col_pin_bit c).
      rewrite arr_set_get_nat. destruct (decide _) as [_|Hn]; [|tauto].
      rewrite u8_testbit_low, Z.lor_spec.
      * rewrite Z.shiftl_1_l, Z.pow2_bits_eqb, Z.eqb_refl by (apply Z.mod_pos_bound; lia).
        apply orb_true_r.
      * split; [apply Z.mod_pos_bound; lia | assumption].
  - apply IH; [assumption | now rewrite length_add_col_mask | assumption].
Qed.

(** X4.  [setup_columns] never resets the column mask table: each of
    the low eight bits that was set in an entry before the call is still
    set afterwards, so masks left by an earlier initialisation persist.
    On top of them, the bit of every configured column is set in the
    entry of its port, provided that entry exists and the bit index is
    below 8. *)
Theorem setup_columns_accumulates_masks (m : machine) :
  (forall port_num i, 0 <= i < 8 ->
     Z.testbit (col_mask_of m port_num) i = true ->
     Z.testbit (col_mask_of (setup_columns m) port_num) i = true)
  /\ (forall c, 0 <= c < cols (g_scan_plan m) ->
        (Z.to_nat (col_pin_port_num c) < length (s_col_masks (sv m)))%nat ->
        col_pin_bit c < 8 ->
        Z.testbit (col_mask_of (setup_columns m) (col_pin_port_num c)) (col_pin_bit c)
        = true).
Proof.
  assert (Hsv : sv (setup_columns m)
                = sv (fold_left add_col_mask (upto (cols (g_scan_plan m))) m)).
  { unfold setup_columns. apply (obs_setup_columns_ports _ sv_blind). }
  split.
  - intros n i Hi Hb. unfold col_mask_of, arr_get in *. rewrite Hsv.
    now apply add_col_masks_grow.
  - intros c Hc Hlen Hbit. unfold col_mask_of at 1. rewrite Hsv.
    apply add_col_masks_cover; [now apply upto_elem | assumption | assumption].
Qed.

End MoreColumns.

Section MoreColumnsExamples.
#[local] Existing Instance Example.board.
#[local] Existing Instance Example.collab.

(** X4 on the fresh 3 x 2 matrix: column 1 (pin 16, PC0) ends up in the
    mask of port index 2. *)
Lemma setup_columns_accumulates_masks_witness :
  Z.testbit (col_mask_of (setup_columns (Runs.fresh 1 true)) 2) 0 = true.
Proof.
  destruct (setup_columns_accumulates_masks (Runs.fresh 1 true)) as [_ Hc].
  apply (Hc 1).
  - split; [lia | reflexivity].
  - vm_compute. lia.
  - reflexivity.
Defined.

End MoreColumnsExamples.

(** ** Row setup *)

Lemma fold_left_preorder {S X : Type} (R : S -> S -> Prop) (f : S -> X -> S) (l : list X) :
  (forall s, R s s) -> (forall a b c, R a b -> R b c -> R a c) ->
  (forall s x, R s (f s x)) -> forall s, R s (fold_left f l s).
Proof.
  intros Hrefl Htrans Hf. induction l as [|x l IH]; intros s; cbn [fold_left].
  - apply Hrefl.
  - eapply Htrans; [apply Hf | apply IH].
Qed.

Lemma bits_within_refl a : bits_within a a.
Proof. intros i _ H. exact H. Qed.

Lemma bits_within_trans a b c : bits_within a b -> bits_within b c -> bits_within a c.
Proof. intros Hab Hbc i Hi H. apply Hbc; [assumption|]. now apply Hab. Qed.

Lemma bits_within_lor a v : bits_within a (Z.lor a v).
Proof. intros i _ H. now rewrite Z.lor_spec, H. Qed.

Lemma bits_within_land a b K : bits_within a b -> Z.land a K = K -> Z.land b K = K.
Proof.
  intros Hab HK. apply Z.bits_inj'. intros i Hi.
  apply (f_equal (fun x => Z.testbit x i)) in HK.
  rewrite Z.land_spec in *. destruct (Z.testbit K i); [|apply andb_false_r].
  rewrite andb_true_r in *. now apply Hab.
Qed.

Lemma upto_nodup k : List.NoDup (upto k).
Proof.
  unfold upto. apply Finite.Injective_map_NoDup.
  - intros a b. apply Nat2Z.inj.
  - apply seq_NoDup.
Qed.

Section MoreRows.
Context `{B : Board} `{C : Collaborators}.

Lemma grow_refl m : outputs_only_grow m m.
Proof. intros q. split; apply bits_within_refl. Qed.

Lemma grow_same_ports m m' : ports m' = ports m -> outputs_only_grow m m'.
Proof. intros E q. rewrite E. split; apply bits_within_refl. Qed.

Lemma grow_trans m1 m2 m3 :
  outputs_only_grow m1 m2 -> outputs_only_grow m2 m3 -> outputs_only_grow m1 m3.
Proof.
  intros H12 H23 q. destruct (H12 q), (H23 q). split; eapply bits_within_trans; eassumption.
Qed.

Lemma grow_port_store p r v m :
  r <> R_DIRCLR -> r <> R_OUTCLR -> outputs_only_grow m (port_store p r v m).
Proof.
  intros H1 H2 q. rewrite ports_port_store.
  destruct (decide (q = p)) as [->|]; [|split; apply bits_within_refl].
  destruct r; try congruence; cbn [reg_store DIR OUT];
    split; (apply bits_within_refl || apply bits_within_lor).
Qed.

Lemma grow_column_setup m m' : column_setup_keeps m m' ->
  forall q, bits_within (OUT (ports m q)) (OUT (ports m' q)).
Proof. intros H q. destruct (H q) as (-> & _). apply bits_within_refl. Qed.

(** The two ways [setup_row_pin] can end. *)
Lemma setup_row_pin_cases port mask m :
  let m3 := store_MPCMASK mask
              (port_store port R_OUTSET mask (port_store port R_DIRSET mask m)) in
  (fst (setup_row_pin port mask m) = true
   /\ exists v, snd (setup_row_pin port mask m) = port_store port R_PIN0CTRL v m3)
  \/ (fst (setup_row_pin port mask m) = false
      /\ snd (setup_row_pin port mask m) = raise_error ERROR_UNSUPPORTED_SCAN_MODE m3).
Proof.
  unfold setup_row_pin.
  repeat match goal with |- context [if ?c then _ else _] => destruct c end;
    cbn [fst snd]; eauto.
Qed.

Lemma grow_setup_row_pin port mask m :
  outputs_only_grow m (snd (setup_row_pin port mask m)).
Proof.
  destruct (setup_row_pin_cases port mask m) as [(_ & v & ->) | (_ & ->)].
  - eapply grow_trans; [|apply grow_port_store; discriminate].
    eapply grow_trans; [|apply grow_same_ports; reflexivity].
    eapply grow_trans; apply grow_port_store; discriminate.
  - eapply grow_trans; [|apply grow_same_ports; reflexivity].
    eapply grow_trans; apply grow_port_store; discriminate.
Qed.

Lemma grow_setup_rows_loop l : forall m, outputs_only_grow m (setup_rows_loop l m).
Proof.
  induction l as [|i l IH]; intros m; cbn [setup_rows_loop]; [apply grow_refl|].
  destruct (fst (claim_pins _ _ m)); [now apply grow_same_ports|].
  match goal with |- context [setup_row_pin ?p ?k ?x] =>
    assert (Hs : outputs_only_grow m (snd (setup_row_pin p k x)))
      by (eapply grow_trans; [|apply grow_setup_row_pin]; now apply grow_same_ports)
  end.
  destruct (fst (setup_row_pin _ _ _)); [|exact Hs].
  eapply grow_trans; [exact Hs | apply IH].
Qed.

Lemma grow_unselect_all_rows m : outputs_only_grow m (unselect_all_rows m).
Proof.
  apply (fold_left_preorder outputs_only_grow);
    [apply grow_refl | apply grow_trans | intros; apply grow_port_store; discriminate].
Qed.

Lemma grow_set_int0_level lvl m : outputs_only_grow m (set_int0_level lvl m).
Proof.
  apply (fold_left_preorder outputs_only_grow);
    [apply grow_refl | apply grow_trans | intros; apply grow_port_store; discriminate].
Qed.

(** Descriptor entries of rows the loop does not visit stay as they are,
    and the tables keep their lengths. *)
Lemma setup_rows_loop_descriptors l : forall m,
  length (s_row_pin_mask (sv (setup_rows_loop l m))) = length (s_row_pin_mask (sv m))
  /\ length (s_row_ports (sv (setup_rows_loop l m))) = length (s_row_ports (sv m))
  /\ (forall j, 0 <= j -> (forall i, In i l -> 0 <= i) -> ~ In j l ->
        row_port_of (setup_rows_loop l m) j = row_port_of m j
        /\ row_pin_mask_of (setup_rows_loop l m) j = row_pin_mask_of m j).
Proof.
  induction l as [|i l IH]; intros m; cbn [setup_rows_loop].
  { split; [reflexivity|]. split; [reflexivity|]. intros; split; reflexivity. }
  destruct (fst (claim_pins _ _ m)).
  { split; [reflexivity|]. split; [reflexivity|]. intros; split; reflexivity. }
  match goal with |- context [setup_row_pin ?p ?k ?x] =>
    set (m2 := x); set (r := setup_row_pin p k m2) end.
  assert (Hsv : sv (snd r) = sv m2) by apply (obs_setup_row_pin _ sv_blind).
  assert (Hl1 : length (s_row_pin_mask (sv m2)) = length (s_row_pin_mask (sv m))).
  { subst m2. cbn. unfold arr_set. apply length_insert. }
  assert (Hl2 : length (s_row_ports (sv m2)) = length (s_row_ports (sv m))).
  { subst m2. cbn. apply length_insert. }
  assert (Hd : forall j, 0 <= j -> 0 <= i -> j <> i ->
             row_port_of m2 j = row_port_of m j
             /\ row_pin_mask_of m2 j = row_pin_mask_of m j).
  { intros j Hj Hi Hne. subst m2. unfold row_port_of, row_pin_mask_of, arr_get, arr_set.
    cbn [sv set_row_tables with_sv s_row_ports s_row_pin_mask].
    assert (Z.to_nat i <> Z.to_nat j) by lia.
    rewrite list_lookup_insert_ne, list_lookup_total_insert_ne by assumption.
    split; reflexivity. }
  assert (Hr : length (s_row_pin_mask (sv (snd r))) = length (s_row_pin_mask (sv m))
               /\ length (s_row_ports (sv (snd r))) = length (s_row_ports (sv m))
               /\ (forall j, 0 <= j -> 0 <= i -> j <> i ->
                     row_port_of (snd r) j = row_port_of m j
                     /\ row_pin_mask_of (snd r) j = row_pin_mask_of m j)).
  { rewrite Hsv. split; [exact Hl1|]. split; [exact Hl2|].
    intros j Hj Hi Hne. unfold row_port_of, row_pin_mask_of. rewrite Hsv.
    now apply Hd. }
  destruct Hr as (Hr1 & Hr2 & Hr3).
  destruct (fst r).
  - destruct (IH (snd r)) as (I1 & I2 & I3).
    split; [congruence|]. split; [congruence|].
    intros j Hj Hpos Hnin.
    destruct (I3 j Hj) as [-> ->].
    + intros i' Hi'. apply Hpos. now right.
    + intros Hin. apply Hnin. now right.
    + apply Hr3; [assumption | apply Hpos; now left |].
      intros ->. apply Hnin. now left.
  - split; [exact Hr1|]. split; [exact Hr2|].
    intros j Hj Hpos Hnin. apply Hr3; [assumption | apply Hpos; now left |].
    intros ->. apply Hnin. now left.
Qed.

Lemma grow_keeps_configured m m' i :
  outputs_only_grow m m' ->
  row_port_of m' i = row_port_of m i ->
  row_pin_mask_of m' i = row_pin_mask_of m i ->
  row_configured m i -> row_configured m' i.
Proof.
  intros Hg Hp Hm (Cp & Cm & Cd & Co). destruct (Hg (row_pin_port i)) as [Gd Go].
  split; [congruence|]. split; [congruence|].
  split; eapply bits_within_land; eassumption.
Qed.

Lemma extends_any_setup_row_pin port mask m :
  extends_log (fun _ => True) m (snd (setup_row_pin port mask m)).
Proof.
  destruct (setup_row_pin_cases port mask m) as [(_ & v & ->) | (_ & ->)].
  - exists [EvPortStore port R_DIRSET mask; EvPortStore port R_OUTSET mask;
            EvMpcmask mask; EvPortStore port R_PIN0CTRL v].
    split; [|repeat constructor].
    unfold port_store, store_MPCMASK, emit. cbn [log with_MPCMASK with_ports].
    now rewrite <- !app_assoc.
  - exists [EvPortStore port R_DIRSET mask; EvPortStore port R_OUTSET mask;
            EvMpcmask mask; EvRegisterError ERROR_UNSUPPORTED_SCAN_MODE].
    split; [|repeat constructor].
    unfold raise_error, port_store, store_MPCMASK, emit.
    cbn [log with_MPCMASK with_ports with_errors].
    now rewrite <- !app_assoc.
Qed.

Lemma extends_any_setup_rows_loop l : forall m,
  extends_log (fun _ => True) m (setup_rows_loop l m).
Proof.
  induction l as [|i l IH]; intros m; cbn [setup_rows_loop]; [apply extends_refl|].
  match goal with |- context [claim_pins ?a ?b m] =>
    assert (Hcl : extends_log (fun _ => True) m (snd (claim_pins a b m)))
      by now apply extends_claim_pins end.
  destruct (fst (claim_pins _ _ m)).
  { eapply extends_trans; [exact Hcl | now apply extends_raise_error]. }
  match goal with |- context [setup_row_pin ?p ?k ?x] =>
    assert (Hs : extends_log (fun _ => True) m (snd (setup_row_pin p k x))) end.
  { eapply extends_trans; [exact Hcl|].
    eapply extends_trans; [|apply extends_any_setup_row_pin].
    now apply extends_same_log. }
  destruct (fst (setup_row_pin _ _ _)); [|exact Hs].
  eapply extends_trans; [exact Hs | apply IH].
Qed.

Lemma new_events_split m1 m2 m3 :
  extends_log (fun _ => True) m1 m2 -> extends_log (fun _ => True) m2 m3 ->
  new_events m1 m3 = new_events m1 m2 ++ new_events m2 m3.
Proof.
  intros (e1 & L1 & _) (e2 & L2 & _).
  rewrite (new_events_extends _ _ _ L1), (new_events_extends _ _ _ L2).
  apply new_events_extends. now rewrite L2, L1, app_assoc.
Qed.

Lemma no_error_after_raise m1 m2 e :
  extends_log (fun _ => True) m1 m2 ->
  ~ Forall no_error (new_events m1 (raise_error e m2)).
Proof.
  intros H12 Hall.
  rewrite (new_events_split m1 m2) in Hall;
    [|exact H12 | now apply extends_raise_error].
  apply Forall_app in Hall as [_ Hall].
  rewrite (new_events_extends m2 (raise_error e m2) [EvRegisterError e]) in Hall
    by reflexivity.
  apply Forall_cons in Hall as [Hbad _]. discriminate Hbad.
Qed.

(** The loop run without an error event sets up every row it visits. *)
Lemma setup_rows_loop_configures l : forall m,
  List.NoDup l ->
  (forall i, In i l -> 0 <= i /\ row_slot_exists m i) ->
  Forall no_error (new_events m (setup_rows_loop l m)) ->
  forall i, In i l -> row_configured (setup_rows_loop l m) i.
Proof.
  induction l as [|i l IH]; intros m Hnd Hslots Hok j Hj; [contradiction|].
  apply List.NoDup_cons_iff in Hnd as [Hnin Hnd].
  cbn [setup_rows_loop] in *.
  fold (row_pin_port i) (row_pin_bit_mask i) in *.
  set (cl := claim_pins _ (row_pin_bit_mask i) m) in *.
  assert (Hcl : extends_log (fun _ => True) m (snd cl)) by now apply extends_claim_pins.
  destruct (fst cl).
  { exfalso. revert Hok. now apply no_error_after_raise. }
  set (m2 := set_row_tables _ _ _ (snd cl)) in *.
  assert (H2 : extends_log (fun _ => True) m m2).
  { eapply extends_trans; [exact Hcl | now apply extends_same_log]. }
  destruct (Hslots i (or_introl eq_refl)) as (Hi0 & Hs1 & Hs2).
  assert (Hdesc2 : row_port_of m2 i = Some (row_pin_port i)
                   /\ row_pin_mask_of m2 i = row_pin_bit_mask i).
  { subst m2. unfold row_port_of, row_pin_mask_of, arr_get, arr_set.
    cbn [sv set_row_tables with_sv s_row_ports s_row_pin_mask].
    rewrite list_lookup_insert_eq, list_lookup_total_insert_eq; [split; reflexivity | |].
    - exact Hs1.
    - exact Hs2. }
  destruct (setup_row_pin_cases (row_pin_port i) (row_pin_bit_mask i) m2)
    as [(Hf & v & Hr) | (Hf & Hr)]; rewrite Hf in *.
  2:{ exfalso. rewrite Hr in Hok. revert Hok. apply no_error_after_raise.
      eapply extends_trans; [exact H2|].
      exists [EvPortStore (row_pin_port i) R_DIRSET (row_pin_bit_mask i);
              EvPortStore (row_pin_port i) R_OUTSET (row_pin_bit_mask i);
              EvMpcmask (row_pin_bit_mask i)].
      split; [|repeat constructor].
      unfold port_store, store_MPCMASK, emit. cbn [log with_MPCMASK with_ports].
      now rewrite <- !app_assoc. }
  set (m3 := snd (setup_row_pin (row_pin_port i) (row_pin_bit_mask i) m2)) in *.
  assert (H3 : extends_log (fun _ => True) m m3).
  { eapply extends_trans; [exact H2 | apply extends_any_setup_row_pin]. }
  assert (Hsv3 : sv m3 = sv m2) by apply (obs_setup_row_pin _ sv_blind).
  assert (Hconf3 : row_configured m3 i).
  { destruct Hdesc2 as [Hp Hm].
    split; [unfold row_port_of in *; now rewrite Hsv3|].
    split; [unfold row_pin_mask_of in *; now rewrite Hsv3|].
    subst m3. rewrite Hr. rewrite !ports_port_store.
    destruct (decide (row_pin_port i = row_pin_port i)); [|congruence].
    cbn [ports store_MPCMASK emit with_MPCMASK].
    rewrite !ports_port_store.
    destruct (decide (row_pin_port i = row_pin_port i)); [|congruence].
    cbn [reg_store DIR OUT]. split.
    - apply land_lor_same.
    - apply land_lor_same. }
  rewrite (new_events_split m m3) in Hok; [|exact H3 | apply extends_any_setup_rows_loop].
  apply Forall_app in Hok as [_ Hok].
  destruct (setup_rows_loop_descriptors l m3) as (_ & _ & Hkeep).
  destruct Hj as [<-|Hj].
  - destruct (Hkeep i Hi0) as [Kp Km]; [|exact Hnin|].
    + intros i' Hi'. apply Hslots. now right.
    + apply (grow_keeps_configured m3); [apply grow_setup_rows_loop | | | ]; assumption.
  - apply IH; try assumption.
    intros i' Hi'. destruct (Hslots i' (or_intror Hi')) as (H0 & S1 & S2).
    split; [exact H0|]. unfold row_slot_exists. rewrite Hsv3. subst m2.
    cbn [sv set_row_tables with_sv s_row_ports s_row_pin_mask]. unfold arr_set.
    rewrite !length_insert. split; assumption.
Qed.

Lemma setup_rows_configures m :
  Forall no_error (new_events m (setup_rows m)) ->
  (forall i, 0 <= i < rows (g_scan_plan m) -> row_slot_exists m i) ->
  forall i, 0 <= i < rows (g_scan_plan m) -> row_configured (setup_rows m) i.
Proof.
  intros Hok Hslots i Hi. unfold setup_rows in *. cbv zeta in *.
  set (m0 := set_row_tables _ _ _ m) in *.
  apply setup_rows_loop_configures.
  - apply upto_nodup.
  - intros j Hj%upto_elem. split; [lia|]. now apply Hslots.
  - exact Hok.
  - now apply upto_elem.
Qed.

(** X5.  When [setup_rows] runs without registering an error and the
    descriptor tables have a slot for every row, then afterwards every
    row's descriptor names the port and the one-bit mask of its pin, the
    pin is an output and its OUT bit is set, i.e. the row is released. *)
Theorem setup_rows_without_error_configures_rows (m : machine) :
  Forall no_error (new_events m (setup_rows m)) ->
  (forall i, 0 <= i < rows (g_scan_plan m) -> row_slot_exists m i) ->
  forall i, 0 <= i < rows (g_scan_plan m) ->
    row_configured (setup_rows m) i /\ row_released (setup_rows m) i.
Proof.
  intros Hok Hslots i Hi.
  pose proof (setup_rows_configures m Hok Hslots i Hi) as Hc.
  split; [exact Hc|]. destruct Hc as (Cp & Cm & _ & Co).
  exists (row_pin_port i). rewrite Cm. split; assumption.
Qed.

End MoreRows.

(** ** The state initialisation leaves behind *)

Section MoreInitState.
Context `{B : Board} `{C : Collaborators}.

Lemma extends_weaken (Q : event -> Prop) m m' :
  extends_log Q m m' -> extends_log (fun _ => True) m m'.
Proof.
  intros (evs & L & _). exists evs. split; [exact L|].
  apply Forall_forall. intros; exact I.
Qed.

(** The steps of [matrix_scanner_init] on an accepted plan. *)
Lemma init_accepted_steps m :
  plan_accepted m ->
  let m0 := set_bytes_per_row
              (u8 (INT_DIV_ROUND_UP (max_col_pin_num (g_scan_plan m) + 1) IO_PORT_SIZE)) m in
  let mr := if (mode (g_scan_plan m) =? MATRIX_SCANNER_MODE_COL_ROW)
               || (mode (g_scan_plan m) =? MATRIX_SCANNER_MODE_ROW_COL)
            then setup_rows m0 else m0 in
  let mu := unselect_all_rows (matrix_scan_irq_disable (setup_columns mr)) in
  ports (matrix_scanner_init m) = ports mu
  /\ log (matrix_scanner_init m) = log mu
  /\ row_tables_of (matrix_scanner_init m) = row_tables_of mr
  /\ has_scan_irq_triggered (sv (matrix_scanner_init m)) = has_scan_irq_triggered (sv m).
Proof.
  intros Hacc m0 mr mu. unfold matrix_scanner_init.
  rewrite (accepted_passes_gate m Hacc).
  change (set_bytes_per_row
            (u8 (INT_DIV_ROUND_UP (max_col_pin_num (g_scan_plan m) + 1) IO_PORT_SIZE)) m)
    with m0.
  change (g_scan_plan m0) with (g_scan_plan m). fold mr. fold mu.
  set (m4 := with_debounce _ mu).
  assert (Htab : row_tables_of mu = row_tables_of mr).
  { subst mu.
    now rewrite (obs_unselect_all_rows _ row_tables_blind),
      (obs_matrix_scan_irq_disable _ row_tables_blind),
      (obs_setup_columns _ row_tables_blind) by reflexivity. }
  assert (Hblind : hw_blind (fun s => has_scan_irq_triggered (sv s)))
    by (constructor; reflexivity).
  assert (Htrig : has_scan_irq_triggered (sv mu) = has_scan_irq_triggered (sv m)).
  { subst mu.
    rewrite (obs_unselect_all_rows _ Hblind), (obs_matrix_scan_irq_disable _ Hblind),
      (obs_setup_columns _ Hblind) by reflexivity.
    subst mr. destruct (_ || _); [|reflexivity].
    now rewrite (obs_setup_rows _ Hblind) by reflexivity. }
  destruct (g_slow_clock_mode m4); (split; [reflexivity|]); (split; [reflexivity|]);
    (split; [exact Htab | exact Htrig]).
Qed.

(** X6.  After [matrix_scanner_init] of an accepted plan the column
    interrupt is off: the INT0 level of every scanner port is OFF and
    every bit of a port's row mask is set in its OUT register.  The
    has-triggered flag is not touched by initialisation. *)
Theorem init_leaves_scanner_disarmed (m : machine) :
  plan_accepted m ->
  (forall p, In p scanner_port_names ->
     Z.land (INTCTRL (ports (matrix_scanner_init m) p)) PORT_INT0LVL_gm
     = PORT_INT0LVL_OFF_gc)
  /\ (forall pn, In pn scanner_ports ->
        Z.land (OUT (ports (matrix_scanner_init m) (fst pn)))
          (row_port_mask_of (matrix_scanner_init m) (snd pn))
        = row_port_mask_of (matrix_scanner_init m) (snd pn))
  /\ has_scan_irq_triggered (sv (matrix_scanner_init m)) = has_scan_irq_triggered (sv m).
Proof.
  intros Hacc. destruct (init_accepted_steps m Hacc) as (Hp & _ & Htab & Htrig).
  cbv zeta in *. rewrite Hp. split; [|split; [|exact Htrig]].
  - intros p Hin. rewrite INTCTRL_unselect_all_rows.
    unfold matrix_scan_irq_disable. rewrite INTCTRL_unselect_all_rows.
    apply level_after_set_int0_level; [now left | exact Hin].
  - intros pn Hin.
    set (md := matrix_scan_irq_disable _) in *.
    assert (Hmask : row_port_mask_of (matrix_scanner_init m) (snd pn)
                    = row_port_mask_of md (snd pn)).
    { unfold row_port_mask_of.
      assert (E : row_tables_of (matrix_scanner_init m) = row_tables_of md).
      { rewrite Htab. subst md.
        now rewrite (obs_matrix_scan_irq_disable _ row_tables_blind),
          (obs_setup_columns _ row_tables_blind) by reflexivity. }
      injection E as E1 _ _. now rewrite E1. }
    rewrite Hmask.
    change (unselect_all_rows md)
      with (sweep R_OUTSET (fun s pn => row_port_mask_of s (snd pn)) scanner_ports md).
    rewrite (sweep_port R_OUTSET (fun s pn => row_port_mask_of s (snd pn)));
      [| reflexivity | apply scanner_ports_nodup | exact Hin | discriminate].
    cbn [reg_store OUT]. apply land_lor_same.
Qed.

(** X7.  When [matrix_scanner_init] of an accepted COL_ROW or ROW_COL
    plan registers no error and the descriptor tables have a slot for
    every row, then afterwards every row's descriptor names the port and
    one-bit mask of its pin and the row is released: the preconditions of
    a scan cycle about released rows hold after a clean initialisation. *)
Theorem init_without_error_releases_rows (m : machine) :
  plan_accepted m ->
  mode (g_scan_plan m) = MATRIX_SCANNER_MODE_COL_ROW
  \/ mode (g_scan_plan m) = MATRIX_SCANNER_MODE_ROW_COL ->
  Forall no_error (new_events m (matrix_scanner_init m)) ->
  (forall i, 0 <= i < rows (g_scan_plan m) -> row_slot_exists m i) ->
  forall i, 0 <= i < rows (g_scan_plan m) ->
    row_port_of (matrix_scanner_init m) i = Some (row_pin_port i)
    /\ row_pin_mask_of (matrix_scanner_init m) i = row_pin_bit_mask i
    /\ row_released (matrix_scanner_init m) i.
Proof.
  intros Hacc Hmode Hok Hslots i Hi.
  destruct (init_accepted_steps m Hacc) as (Hp & Hl & Htab & _). cbv zeta in *.
  assert ((mode (g_scan_plan m) =? MATRIX_SCANNER_MODE_COL_ROW)
          || (mode (g_scan_plan m) =? MATRIX_SCANNER_MODE_ROW_COL) = true) as Hc.
  { apply orb_true_iff. destruct Hmode; [left | right]; now apply Z.eqb_eq. }
  rewrite Hc in *.
  set (m0 := set_bytes_per_row _ m) in *.
  set (mr := setup_rows m0) in *.
  set (mc := setup_columns mr) in *.
  set (mu := unselect_all_rows (matrix_scan_irq_disable mc)) in *.
  assert (Hr : extends_log (fun _ => True) m0 mr).
  { subst mr. unfold setup_rows. cbv zeta.
    eapply extends_trans; [|apply extends_any_setup_rows_loop].
    now apply extends_same_log. }
  assert (Hu : extends_log (fun _ => True) mr mu).
  { subst mu mc.
    eapply extends_trans; [apply (extends_weaken _ _ _ (no_rows_setup_columns mr))|].
    eapply extends_trans; [apply (extends_weaken _ _ _ (no_rows_irq_disable _))|].
    apply (extends_weaken _ _ _ (no_rows_unselect_all _)). }
  assert (Hok0 : Forall no_error (new_events m0 mr)).
  { assert (E : new_events m (matrix_scanner_init m) = new_events m0 mu).
    { unfold new_events. now rewrite Hl. }
    rewrite E, (new_events_split m0 mr mu) in Hok by assumption.
    now apply Forall_app in Hok as [Hok _]. }
  pose proof (setup_rows_configures m0 Hok0 Hslots i Hi) as (Cp & Cm & _ & Co).
  fold mr in Cp, Cm, Co.
  assert (Hgrow : bits_within (OUT (ports mr (row_pin_port i)))
                    (OUT (ports mu (row_pin_port i)))).
  { subst mu mc.
    eapply bits_within_trans;
      [apply (grow_column_setup mr (setup_columns mr)),
             (proj1 (setup_columns_keeps_and_skips mr))|].
    eapply bits_within_trans.
    - apply (grow_trans _ _ _ (grow_set_int0_level PORT_INT0LVL_OFF_gc _)
               (grow_unselect_all_rows _)).
    - apply (grow_unselect_all_rows _). }
  assert (Hd : row_port_of (matrix_scanner_init m) i = row_port_of mr i
               /\ row_pin_mask_of (matrix_scanner_init m) i = row_pin_mask_of mr i).
  { unfold row_port_of, row_pin_mask_of. injection Htab as _ E2 E3.
    now rewrite E2, E3. }
  destruct Hd as [Hd1 Hd2].
  split; [congruence|]. split; [congruence|].
  exists (row_pin_port i). split; [congruence|].
  rewrite Hp, Hd2, Cm. eapply bits_within_land; eassumption.
Qed.

End MoreInitState.

Section MoreInitStateExamples.
#[local] Existing Instance Example.board.
#[local] Existing Instance Example.collab.

Lemma fresh_accepted : plan_accepted (Runs.fresh 1 true).
Proof. split; cbn; lia. Qed.

Lemma fresh_slots i :
  0 <= i < rows (g_scan_plan (Runs.fresh 1 true)) -> row_slot_exists (Runs.fresh 1 true) i.
Proof.
  change (rows (g_scan_plan (Runs.fresh 1 true))) with 3. intros Hi.
  split; cbn; lia.
Qed.

(** X5 on the fresh 3 x 2 matrix: the run logs no error and row 1 is
    released afterwards. *)
Lemma setup_rows_without_error_configures_rows_witness :
  row_released (setup_rows (Runs.fresh 1 true)) 1.
Proof.
  destruct (setup_rows_without_error_configures_rows (Runs.fresh 1 true)) with (i := 1)
    as [_ Hrel].
  - vm_compute. repeat constructor.
  - exact fresh_slots.
  - split; [lia | reflexivity].
  - exact Hrel.
Defined.

(** X6 on the fresh 3 x 2 matrix: port B ends with its INT0 level OFF. *)
Lemma init_leaves_scanner_disarmed_witness :
  Z.land (INTCTRL (ports (matrix_scanner_init (Runs.fresh 1 true)) PORTB)) PORT_INT0LVL_gm
  = PORT_INT0LVL_OFF_gc.
Proof.
  destruct (init_leaves_scanner_disarmed (Runs.fresh 1 true) fresh_accepted) as [Hoff _].
  apply Hoff. exact portB_is_scanned.
Defined.

(** X7 on the fresh 3 x 2 matrix: initialisation logs no error and row 2
    is released afterwards. *)
Lemma init_without_error_releases_rows_witness :
  row_released (matrix_scanner_init (Runs.fresh 1 true)) 2.
Proof.
  destruct (init_without_error_releases_rows (Runs.fresh 1 true) fresh_accepted)
    with (i := 2) as (_ & _ & Hrel).
  - left. reflexivity.
  - vm_compute. repeat constructor.
  - exact fresh_slots.
  - split; [lia | reflexivity].
  - exact Hrel.
Defined.

(** X3 on the fresh 3 x 2 matrix: port D, which carries no column, is
    not written by [setup_columns]. *)
Lemma setup_columns_only_makes_inputs_witness :
  ports (setup_columns (Runs.fresh 1 true)) PORTD = ports (Runs.fresh 1 true) PORTD.
Proof.
  destruct (setup_columns_only_makes_inputs (Runs.fresh 1 true)) as (_ & _ & Hskip).
  apply Hskip. intros ii Hii Hport.
  change (u8 (INT_DIV_ROUND_UP (max_col_pin_num (g_scan_plan (Runs.fresh 1 true)) + 1)
                IO_PORT_SIZE)) with 3 in Hii.
  assert (ii = 0 \/ ii = 1 \/ ii = 2) as [-> | [-> | ->]] by lia; discriminate Hport.
Defined.

End MoreInitStateExamples.

(** ** What a scan leaves behind *)

Lemma lor_ldiff_restores O K : Z.land O K = K -> Z.lor (Z.ldiff O K) K = O.
Proof.
  intros HK. apply Z.bits_inj'. intros i Hi.
  apply (f_equal (fun x => Z.testbit x i)) in HK.
  rewrite Z.land_spec in HK. rewrite Z.lor_spec, Z.ldiff_spec.
  destruct (Z.testbit O i), (Z.testbit K i); cbn in *; congruence.
Qed.

Section MoreScan.
Context `{B : Board} `{C : Collaborators}.

Lemma scan_frame_port_store p r v m :
  r <> R_PIN0CTRL -> scan_frame (port_store p r v m) = scan_frame m.
Proof. intros Hr. destruct r; congruence || reflexivity. Qed.

Lemma scan_frame_scan_loop_body row acc :
  scan_frame (snd (scan_loop_body row acc)) = scan_frame (snd acc).
Proof.
  unfold scan_loop_body, unselect_row, select_row. cbn [snd].
  set (m1 := match row_port_of (snd acc) row with
             | Some port => port_store port R_OUTCLR (row_pin_mask_of (snd acc) row) (snd acc)
             | None => snd acc end).
  assert (H1 : scan_frame m1 = scan_frame (snd acc)).
  { subst m1. destruct (row_port_of (snd acc) row); [|reflexivity].
    apply scan_frame_port_store. discriminate. }
  assert (H2 : scan_frame (settle_delay m1) = scan_frame m1).
  { unfold settle_delay. destruct (truthy _), (g_slow_clock_mode m1); reflexivity. }
  set (m3 := snd (scan_row row (settle_delay m1))).
  assert (H3 : scan_frame m3 = scan_frame (settle_delay m1)) by reflexivity.
  destruct (row_port_of m3 row).
  - rewrite scan_frame_port_store by discriminate. congruence.
  - congruence.
Qed.

(** One iteration gives the row's port its registers back when the row
    was released before it. *)
Lemma scan_loop_body_restores_ports row b m :
  (forall p, row_port_of m row = Some p ->
     Z.land (OUT (ports m p)) (row_pin_mask_of m row) = row_pin_mask_of m row) ->
  forall q, ports (snd (scan_loop_body row (b, m))) q = ports m q.
Proof.
  intros Hrel q. unfold scan_loop_body. cbn [fst snd].
  set (m1 := select_row row m).
  set (m3 := snd (scan_row row (settle_delay m1))).
  assert (Hsv3 : sv m3 = sv m).
  { subst m3 m1.
    now rewrite (obs_scan_row _ sv_blind), (obs_settle_delay _ sv_blind),
      (obs_select_row _ sv_blind). }
  assert (Hp3 : ports m3 = ports m1).
  { subst m3. now rewrite ports_scan_row, ports_settle_delay. }
  unfold unselect_row.
  rewrite (row_port_of_sv m m3), (row_pin_mask_of_sv m m3) by assumption.
  subst m1. unfold select_row in *.
  destruct (row_port_of m row) as [p|] eqn:Hp.
  - rewrite ports_port_store, Hp3.
    destruct (decide (q = p)) as [->|]; [|now apply ports_port_store_elsewhere].
    rewrite ports_port_store.
    destruct (decide (p = p)); [|congruence].
    specialize (Hrel p eq_refl).
    destruct (ports m p) as [d o c k f pc]. cbn [reg_store OUT DIR INTCTRL INT0MASK
      INTFLAGS PINCTRL] in *.
    f_equal. now apply lor_ldiff_restores.
  - now rewrite Hp3.
Qed.

Lemma scan_prefix_restores_ports m k :
  (forall r p, 0 <= r < k -> row_port_of m r = Some p ->
     Z.land (OUT (ports m p)) (row_pin_mask_of m r) = row_pin_mask_of m r) ->
  forall q, ports (snd (scan_prefix m k)) q = ports m q.
Proof.
  destruct (Z.le_gt_cases 0 k) as [Hk|Hk].
  2:{ intros _ q. now rewrite scan_prefix_nonpos by lia. }
  pattern k. apply natlike_ind; [| |exact Hk]; clear k Hk.
  - intros _ q. now rewrite scan_prefix_nonpos by lia.
  - intros k Hk IH Hrel q. change (Z.succ k) with (k + 1) in *.
    rewrite scan_prefix_succ by assumption.
    assert (IH' : forall q, ports (snd (scan_prefix m k)) q = ports m q).
    { apply IH. intros r p Hr. apply Hrel. lia. }
    destruct (scan_prefix m k) as [b mk] eqn:E. cbn [snd] in IH'.
    assert (Hsv : sv mk = sv m).
    { change mk with (snd (b, mk)). rewrite <- E. apply (obs_scan_prefix _ sv_blind). }
    rewrite scan_loop_body_restores_ports; [apply IH'|].
    intros p Hp. rewrite (row_port_of_sv m mk) in Hp by assumption.
    rewrite (row_pin_mask_of_sv m mk), IH' by assumption.
    apply (Hrel k p); [lia | exact Hp].
Qed.

Lemma scan_frame_scan_prefix m k : scan_frame (snd (scan_prefix m k)) = scan_frame m.
Proof.
  unfold scan_prefix.
  apply (fold_left_invariant (fun acc row => scan_loop_body row acc)
           (fun acc => scan_frame (snd acc))).
  intros acc row. apply scan_frame_scan_loop_body.
Qed.

(** X8.  In every mode, when each row that has a descriptor is released
    on entry, [matrix_scan] returns with all registers of every port
    exactly as it found them; it also leaves the scan plan, the scanner's
    tables and delays, MPCMASK, the SPI module, the pin ledger and the
    error state unchanged (it claims no pin and registers no error). *)
Theorem matrix_scan_restores_ports (m : machine) :
  (forall r p, 0 <= r < rows (g_scan_plan m) -> row_port_of m r = Some p ->
     Z.land (OUT (ports m p)) (row_pin_mask_of m r) = row_pin_mask_of m r) ->
  (forall q, ports (snd (matrix_scan m)) q = ports m q)
  /\ scan_frame (snd (matrix_scan m)) = scan_frame m.
Proof.
  intros Hrel. unfold matrix_scan.
  destruct (_ || _).
  - change (matrix_scan_row_col_mode m) with (scan_prefix m (rows (g_scan_plan m))).
    split; [now apply scan_prefix_restores_ports | apply scan_frame_scan_prefix].
  - destruct (_ || _); split; reflexivity || (intros; reflexivity).
Qed.

(** X9.  After [matrix_scanner_init] has rejected an oversized plan,
    [matrix_scan] returns false and does nothing at all, provided 0 is
    not the label of a pin mode: the zeroed plan has no row to scan. *)
Theorem scan_after_rejected_init_is_inert (m : machine) :
  MAX_NUM_ROWS < rows (g_scan_plan m)
  \/ IO_PORT_MAX_PIN_NUM < max_col_pin_num (g_scan_plan m) ->
  MATRIX_SCANNER_MODE_PIN_GND <> 0 ->
  MATRIX_SCANNER_MODE_PIN_VCC <> 0 ->
  matrix_scan (matrix_scanner_init m) = (false, matrix_scanner_init m).
Proof.
  intros Hbig Hg Hv. unfold matrix_scanner_init.
  assert ((MAX_NUM_ROWS <? rows (g_scan_plan m))
          || (IO_PORT_MAX_PIN_NUM <? max_col_pin_num (g_scan_plan m)) = true) as ->.
  { apply orb_true_iff. destruct Hbig; [left | right]; now apply Z.ltb_lt. }
  unfold matrix_scan.
  change (mode (g_scan_plan (raise_error ERROR_MATRIX_PINS_CONFIG_TOO_LARGE
                               (with_plan plan_zero m)))) with 0.
  destruct (_ || _); [reflexivity|].
  assert ((0 =? MATRIX_SCANNER_MODE_PIN_GND) || (0 =? MATRIX_SCANNER_MODE_PIN_VCC) = false)
    as ->; [|reflexivity].
  apply orb_false_iff. split; apply Z.eqb_neq; congruence.
Qed.

End MoreScan.

Section MoreScanExamples.
#[local] Existing Instance Example.board.
#[local] Existing Instance Example.collab.

Lemma ready_descriptors_released r p :
  0 <= r < rows (g_scan_plan Runs.ready) -> row_port_of Runs.ready r = Some p ->
  Z.land (OUT (ports Runs.ready p)) (row_pin_mask_of Runs.ready r)
  = row_pin_mask_of Runs.ready r.
Proof.
  intros Hr Hp. destruct (ready_rows_in_range r Hr) as [-> | [-> | ->]];
    injection Hp as <-; reflexivity.
Qed.

(** X8 on the initialised 3 x 2 matrix: port A, which drives the rows,
    reads back unchanged after a scan. *)
Lemma matrix_scan_restores_ports_witness :
  ports (snd (matrix_scan Runs.ready)) PORTA = ports Runs.ready PORTA.
Proof.
  destruct (matrix_scan_restores_ports Runs.ready ready_descriptors_released) as [Hp _].
  apply Hp.
Defined.

(** X9 on the plan with 19 rows. *)
Lemma scan_after_rejected_init_is_inert_witness :
  fst (matrix_scan (matrix_scanner_init Runs.oversized)) = false.
Proof.
  rewrite (scan_after_rejected_init_is_inert Runs.oversized).
  - reflexivity.
  - left. reflexivity.
  - discriminate.
  - discriminate.
Defined.

End MoreScanExamples.

(** ** Idle wake: what arming and disarming do to the ports *)

Section MoreIdleWake.
Context `{B : Board} `{C : Collaborators}.

(** A sweep over the scanner's ports leaves the other ports alone. *)
Lemma sweep_elsewhere (f : machine -> io_port * Z -> machine) m q :
  (forall s pn, exists r v, f s pn = port_store (fst pn) r v s) ->
  ~ In q scanner_port_names -> ports (fold_left f scanner_ports m) q = ports m q.
Proof.
  intros Hf Hq. apply (fold_left_invariant_in _ (fun s => ports s q)).
  intros s x Hx. destruct (Hf s x) as (r & v & ->).
  apply ports_port_store_elsewhere.
  intros ->. apply Hq. now apply in_scanner_port_names.
Qed.

(** The pin-direction and pin-configuration registers of a port. *)
Lemma pin_setup_port_store p r v m q :
  r = R_OUTSET \/ r = R_OUTCLR \/ r = R_INTCTRL \/ r = R_INTFLAGS ->
  (DIR (ports (port_store p r v m) q), INT0MASK (ports (port_store p r v m) q),
   PINCTRL (ports (port_store p r v m) q))
  = (DIR (ports m q), INT0MASK (ports m q), PINCTRL (ports m q)).
Proof.
  intros Hr. rewrite ports_port_store.
  destruct (decide (q = p)) as [->|]; [|reflexivity].
  destruct Hr as [-> | [-> | [-> | ->]]]; reflexivity.
Qed.

Lemma pin_setup_enable m q :
  (DIR (ports (matrix_scan_irq_enable m) q), INT0MASK (ports (matrix_scan_irq_enable m) q),
   PINCTRL (ports (matrix_scan_irq_enable m) q))
  = (DIR (ports m q), INT0MASK (ports m q), PINCTRL (ports m q)).
Proof.
  unfold matrix_scan_irq_enable, set_int0_level.
  rewrite (fold_left_invariant _
             (fun s => (DIR (ports s q), INT0MASK (ports s q), PINCTRL (ports s q))))
    by (intros; apply pin_setup_port_store; auto).
  unfold matrix_scan_irq_clear, set_triggered, emit, with_sv. cbn [ports].
  unfold matrix_scan_irq_clear_flags.
  rewrite (fold_left_invariant _
             (fun s => (DIR (ports s q), INT0MASK (ports s q), PINCTRL (ports s q))))
    by (intros; apply pin_setup_port_store; auto).
  unfold parasitic_discharge_delay, emit. cbn [ports].
  unfold select_all_rows.
  now rewrite (fold_left_invariant _
             (fun s => (DIR (ports s q), INT0MASK (ports s q), PINCTRL (ports s q))))
    by (intros; apply pin_setup_port_store; auto).
Qed.

Lemma pin_setup_disable m q :
  (DIR (ports (matrix_scan_irq_disable m) q), INT0MASK (ports (matrix_scan_irq_disable m) q),
   PINCTRL (ports (matrix_scan_irq_disable m) q))
  = (DIR (ports m q), INT0MASK (ports m q), PINCTRL (ports m q)).
Proof.
  unfold matrix_scan_irq_disable, unselect_all_rows, set_int0_level.
  rewrite (fold_left_invariant _
             (fun s => (DIR (ports s q), INT0MASK (ports s q), PINCTRL (ports s q))))
    by (intros; apply pin_setup_port_store; auto).
  now rewrite (fold_left_invariant _
             (fun s => (DIR (ports s q), INT0MASK (ports s q), PINCTRL (ports s q))))
    by (intros; apply pin_setup_port_store; auto).
Qed.

Lemma row_port_mask_of_enable m n :
  row_port_mask_of (matrix_scan_irq_enable m) n = row_port_mask_of m n.
Proof.
  unfold row_port_mask_of, matrix_scan_irq_enable.
  rewrite (obs_set_int0_level _ row_port_masks_blind).
  unfold matrix_scan_irq_clear, set_triggered, emit, with_sv. cbn [sv s_row_port_masks].
  rewrite (obs_matrix_scan_irq_clear_flags _ row_port_masks_blind).
  unfold parasitic_discharge_delay, emit. cbn [sv].
  now rewrite (obs_select_all_rows _ row_port_masks_blind).
Qed.

(** X10.  Arming and then disarming gives a port of the scanner its
    OUT register back when the port's row pins were released before; and
    across both calls no port has its DIR, its INT0MASK or any of its
    PINnCTRL registers changed. *)
Theorem arming_round_trip_on_row_pins (m : machine) (pn : io_port * Z) :
  In pn scanner_ports ->
  Z.land (OUT (ports m (fst pn))) (row_port_mask_of m (snd pn)) = row_port_mask_of m (snd pn) ->
  OUT (ports (matrix_scan_irq_disable (matrix_scan_irq_enable m)) (fst pn))
  = OUT (ports m (fst pn))
  /\ (forall q,
        (DIR (ports (matrix_scan_irq_disable (matrix_scan_irq_enable m)) q),
         INT0MASK (ports (matrix_scan_irq_disable (matrix_scan_irq_enable m)) q),
         PINCTRL (ports (matrix_scan_irq_disable (matrix_scan_irq_enable m)) q))
        = (DIR (ports m q), INT0MASK (ports m q), PINCTRL (ports m q))).
Proof.
  intros Hpn Hrel. split.
  - rewrite OUT_disable, OUT_enable, row_port_mask_of_enable by assumption.
    now apply lor_ldiff_restores.
  - intros q. now rewrite pin_setup_disable, pin_setup_enable.
Qed.

Lemma other_level_bits x lvl i :
  lvl = PORT_INT0LVL_OFF_gc \/ lvl = PORT_INT0LVL_LO_gc -> 2 <= i < 8 ->
  Z.testbit (u8 (Z.lor (Z.land x (Z.lnot PORT_INT0LVL_gm)) lvl)) i = Z.testbit x i.
Proof.
  intros Hl Hi. rewrite u8_testbit_low, Z.lor_spec, Z.land_spec, Z.lnot_spec by lia.
  assert (Z.testbit PORT_INT0LVL_gm i = false) as ->.
  { unfold PORT_INT0LVL_gm. change 3 with (Z.ones 2). apply Z.ones_spec_high. lia. }
  assert (Z.testbit lvl i = false) as ->.
  { destruct Hl as [-> | ->]; [apply Z.bits_0|].
    unfold PORT_INT0LVL_LO_gc. change 1 with (Z.ones 1). apply Z.ones_spec_high. lia. }
  cbn. now rewrite andb_true_r, orb_false_r.
Qed.

Lemma INTCTRL_bits_set_int0_level lvl m pn i :
  lvl = PORT_INT0LVL_OFF_gc \/ lvl = PORT_INT0LVL_LO_gc ->
  In pn scanner_ports -> 2 <= i < 8 ->
  Z.testbit (INTCTRL (ports (set_int0_level lvl m) (fst pn))) i
  = Z.testbit (INTCTRL (ports m (fst pn))) i.
Proof.
  intros Hl Hpn Hi. rewrite ports_set_int0_level by assumption.
  cbn [reg_store INTCTRL]. now apply other_level_bits.
Qed.

(** X11.  Arming and disarming rewrite only the INT0 level field of
    INTCTRL: on every port of the scanner bits 2 to 7 of the register
    (the INT1 level among them) read as before, and a port outside the
    scanner's list keeps all its registers. *)
Theorem arming_keeps_other_interrupt_levels (m : machine) :
  (forall pn i, In pn scanner_ports -> 2 <= i < 8 ->
     Z.testbit (INTCTRL (ports (matrix_scan_irq_enable m) (fst pn))) i
     = Z.testbit (INTCTRL (ports m (fst pn))) i
     /\ Z.testbit (INTCTRL (ports (matrix_scan_irq_disable m) (fst pn))) i
        = Z.testbit (INTCTRL (ports m (fst pn))) i)
  /\ (forall q, ~ In q scanner_port_names ->
        ports (matrix_scan_irq_enable m) q = ports m q
        /\ ports (matrix_scan_irq_disable m) q = ports m q).
Proof.
  split.
  - intros pn i Hpn Hi. split.
    + unfold matrix_scan_irq_enable.
      rewrite INTCTRL_bits_set_int0_level by auto.
      unfold matrix_scan_irq_clear, set_triggered, emit, with_sv. cbn [ports].
      rewrite INTCTRL_clear_flags.
      unfold parasitic_discharge_delay, emit. cbn [ports].
      now rewrite INTCTRL_select_all_rows.
    + unfold matrix_scan_irq_disable.
      rewrite INTCTRL_unselect_all_rows.
      now apply INTCTRL_bits_set_int0_level; auto.
  - intros q Hq. split.
    + unfold matrix_scan_irq_enable, set_int0_level.
      rewrite (sweep_elsewhere) by (eauto || exact Hq).
      unfold matrix_scan_irq_clear, set_triggered, emit, with_sv. cbn [ports].
      rewrite ports_clear_flags_elsewhere by exact Hq.
      unfold parasitic_discharge_delay, emit. cbn [ports].
      unfold select_all_rows.
      now rewrite (sweep_elsewhere) by (eauto || exact Hq).
    + unfold matrix_scan_irq_disable, unselect_all_rows, set_int0_level.
      now rewrite !(sweep_elsewhere) by (eauto || exact Hq).
Qed.

End MoreIdleWake.

(** ** Idle wake: the wake-up flag *)

Section MoreHandler.
Context `{B : Board} `{C : Collaborators}.

Lemma triggered_after_isrs ps : forall m,
  ps <> [] -> matrix_scan_irq_has_triggered (run_isrs ps m) = true.
Proof.
  induction ps as [|p ps IH] using rev_ind; intros m Hne; [congruence|].
  unfold run_isrs. rewrite fold_left_app. reflexivity.
Qed.

Lemma sv_matrix_scan m : sv (snd (matrix_scan m)) = sv m.
Proof.
  unfold matrix_scan. destruct (_ || _).
  - change (matrix_scan_row_col_mode m) with (scan_prefix m (rows (g_scan_plan m))).
    apply (obs_scan_prefix _ sv_blind).
  - destruct (_ || _); reflexivity.
Qed.

(** X12.  The wake-up flag is sticky: once any interrupt handler of the
    scanner has run, [matrix_scan_irq_has_triggered] stays true through
    [matrix_scan_irq_disable] and through a following [matrix_scan];
    [matrix_scan_irq_clear] resets it without touching a port register,
    and so does [matrix_scan_irq_enable]. *)
Theorem wake_flag_is_sticky (m : machine) (ps : list io_port) :
  ps <> [] ->
  let woken := run_isrs ps m in
  matrix_scan_irq_has_triggered woken = true
  /\ matrix_scan_irq_has_triggered (matrix_scan_irq_disable woken) = true
  /\ matrix_scan_irq_has_triggered (snd (matrix_scan (matrix_scan_irq_disable woken))) = true
  /\ matrix_scan_irq_has_triggered
       (matrix_scan_irq_clear (snd (matrix_scan (matrix_scan_irq_disable woken)))) = false
  /\ ports (matrix_scan_irq_clear woken) = ports woken
  /\ matrix_scan_irq_has_triggered (matrix_scan_irq_enable woken) = false.
Proof.
  intros Hne woken.
  assert (Hw : matrix_scan_irq_has_triggered woken = true)
    by now apply triggered_after_isrs.
  assert (Hd : matrix_scan_irq_has_triggered (matrix_scan_irq_disable woken) = true).
  { unfold matrix_scan_irq_has_triggered.
    rewrite (obs_matrix_scan_irq_disable _ sv_blind). exact Hw. }
  split; [exact Hw|]. split; [exact Hd|]. split.
  - unfold matrix_scan_irq_has_triggered. rewrite sv_matrix_scan. exact Hd.
  - split; [reflexivity|]. split; [reflexivity|].
    unfold matrix_scan_irq_has_triggered, matrix_scan_irq_enable.
    now rewrite (obs_set_int0_level _ sv_blind).
Qed.

End MoreHandler.

Section MoreIdleWakeExamples.
#[local] Existing Instance Example.board.
#[local] Existing Instance Example.collab.

(** X10 on the initialised 3 x 2 matrix: after arming and disarming,
    port A drives its pins as before. *)
Lemma arming_round_trip_on_row_pins_witness :
  OUT (ports (matrix_scan_irq_disable (matrix_scan_irq_enable Runs.ready)) PORTA)
  = OUT (ports Runs.ready PORTA).
Proof.
  destruct (arming_round_trip_on_row_pins Runs.ready (PORTA, PORT_A_NUM) portA_entry)
    as [H _].
  - reflexivity.
  - exact H.
Defined.

(** X11 on the initialised 3 x 2 matrix: port F, outside the list of a
    six-port part, is never written. *)
Lemma arming_keeps_other_interrupt_levels_witness :
  ports (matrix_scan_irq_enable Runs.ready) PORTF = ports Runs.ready PORTF.
Proof.
  destruct (arming_keeps_other_interrupt_levels Runs.ready) as [_ H].
  destruct (H PORTF) as [He _]; [|exact He].
  intros Hin. destruct (scanner_port_names_cases PORTF Hin)
    as [E | [E | [E | [E | [E | [[_ E] | E]]]]]]; discriminate E.
Defined.

(** X12 on the armed 3 x 2 matrix after the handlers of ports B and C. *)
Lemma wake_flag_is_sticky_witness :
  matrix_scan_irq_has_triggered
    (snd (matrix_scan (matrix_scan_irq_disable (run_isrs [PORTB; PORTC] Runs.armed))))
  = true.
Proof.
  destruct (wake_flag_is_sticky Runs.armed [PORTB; PORTC]) as (_ & _ & H & _).
  - discriminate.
  - exact H.
Defined.

End MoreIdleWakeExamples.

(** ** The SPI polling loops of nrf24.c *)

Section MoreRadio.
Context `{B : Board} `{C : Collaborators}.

Lemma spi_after_reads_add a b m :
  spi_after_reads a (spi_after_reads b m) = spi_after_reads (a + b) m.
Proof.
  unfold spi_after_reads, with_SPIC. cbn [SPIC SPI_CTRL SPI_INTCTRL SPI_DATA
    spi_status_reads g_scan_plan g_slow_clock_mode rf_disabled is_nrf24_initialized
    sv ports MPCMASK ledger errors debounce log].
  now rewrite Nat.add_assoc.
Qed.

Lemma spi_read_status_steps m :
  snd (spi_read_status m) = spi_after_reads 1 m.
Proof. reflexivity. Qed.

Lemma spi_read_status_flag m :
  truthy (Z.land (fst (spi_read_status m)) SPI_IF_bm) = spi_flag_at m 0.
Proof. reflexivity. Qed.

Lemma spi_flag_at_after a m j : spi_flag_at (spi_after_reads a m) j = spi_flag_at m (j + a).
Proof.
  unfold spi_flag_at, spi_after_reads. cbn [SPIC with_SPIC spi_status_reads].
  now rewrite Nat.add_assoc.
Qed.

(** The polling loop of the connection test when the flag stays clear:
    it counts up to the limit and gives up. *)
Lemma test_spi_poll_gives_up fuel : forall counter m,
  0 <= counter <= SPI_TIMEOUT_COUNTER ->
  (Z.to_nat (SPI_TIMEOUT_COUNTER + 1 - counter) <= fuel)%nat ->
  (forall j, (j < Z.to_nat (SPI_TIMEOUT_COUNTER + 1 - counter))%nat ->
     spi_flag_at m j = false) ->
  test_spi_poll fuel counter m
  = Some (u8 (-1), spi_after_reads (Z.to_nat (SPI_TIMEOUT_COUNTER + 1 - counter)) m).
Proof.
  unfold SPI_TIMEOUT_COUNTER.
  induction fuel as [|fuel IH]; intros counter m Hc Hf Hclr; [lia|].
  cbn [test_spi_poll]. rewrite spi_read_status_flag, spi_read_status_steps.
  rewrite (Hclr 0%nat) by lia.
  assert (E : u16 (counter + 1) = counter + 1) by (apply Z.mod_small; lia).
  rewrite E. unfold SPI_TIMEOUT_COUNTER.
  destruct (32000 <? counter + 1) eqn:Ht.
  - apply Z.ltb_lt in Ht. replace (32000 + 1 - counter) with 1 by lia. reflexivity.
  - apply Z.ltb_ge in Ht. rewrite IH.
    + rewrite spi_after_reads_add. do 3 f_equal. lia.
    + lia.
    + lia.
    + intros j Hj. rewrite spi_flag_at_after. apply Hclr. lia.
Qed.

(** The polling loop of the connection test when the flag shows at the
    read number [k], within the limit. *)
Lemma test_spi_poll_answers fuel : forall counter m k,
  0 <= counter -> counter + Z.of_nat k <= SPI_TIMEOUT_COUNTER -> (k < fuel)%nat ->
  (forall j, (j < k)%nat -> spi_flag_at m j = false) ->
  spi_flag_at m k = true ->
  test_spi_poll fuel counter m = Some (0, spi_after_reads (S k) m).
Proof.
  unfold SPI_TIMEOUT_COUNTER.
  induction fuel as [|fuel IH]; intros counter m k Hc Hk Hf Hclr Hset; [lia|].
  cbn [test_spi_poll]. rewrite spi_read_status_flag, spi_read_status_steps.
  destruct k as [|k].
  - now rewrite Hset.
  - rewrite (Hclr 0%nat) by lia.
    assert (E : u16 (counter + 1) = counter + 1) by (apply Z.mod_small; lia).
    rewrite E. unfold SPI_TIMEOUT_COUNTER.
    assert ((32000 <? counter + 1) = false) as -> by (apply Z.ltb_ge; lia).
    rewrite (IH _ _ k).
    + rewrite spi_after_reads_add. do 3 f_equal. lia.
    + lia.
    + lia.
    + lia.
    + intros j Hj. rewrite spi_flag_at_after. apply Hclr. lia.
    + rewrite spi_flag_at_after. now rewrite Nat.add_1_r.
Qed.

Lemma spi_flag_at_spi_store r v m j : spi_flag_at (spi_store r v m) j = spi_flag_at m j.
Proof. unfold spi_flag_at, spi_store. destruct r; reflexivity. Qed.

(** X13.  With no answer on the bus the connection test is bounded: when
    the SPI interrupt flag reads clear 32001 times in a row, the test
    has stored NRF_NOP to the data register, read the status register
    exactly 32001 times and returns 255, the non-zero error value. *)
Theorem connection_test_gives_up_after_32001_reads (m : machine) (fuel : nat) :
  SPI_TIMEOUT_COUNTER + 1 <= Z.of_nat fuel ->
  (forall j, Z.of_nat j <= SPI_TIMEOUT_COUNTER -> spi_flag_at m j = false) ->
  nrf24_test_spi_connection fuel m
  = Some (255, spi_after_reads (Z.to_nat (SPI_TIMEOUT_COUNTER + 1))
                 (spi_store R_SPI_DATA NRF_NOP m)).
Proof.
  intros Hfuel Hclr. unfold nrf24_test_spi_connection.
  rewrite test_spi_poll_gives_up.
  - reflexivity.
  - unfold SPI_TIMEOUT_COUNTER. lia.
  - unfold SPI_TIMEOUT_COUNTER in *. lia.
  - intros j Hj. rewrite spi_flag_at_spi_store. apply Hclr.
    unfold SPI_TIMEOUT_COUNTER in *. lia.
Qed.

(** X14.  The connection test succeeds exactly within its budget: when
    the flag first shows at the status read number k (counted from 0)
    and k is at most 32000, the test returns 0 after k + 1 reads; the
    flag may thus arrive as late as the 32001st read. *)
Theorem connection_test_answers_within_budget (m : machine) (fuel k : nat) :
  Z.of_nat k <= SPI_TIMEOUT_COUNTER -> (k < fuel)%nat ->
  (forall j, (j < k)%nat -> spi_flag_at m j = false) ->
  spi_flag_at m k = true ->
  nrf24_test_spi_connection fuel m
  = Some (0, spi_after_reads (S k) (spi_store R_SPI_DATA NRF_NOP m)).
Proof.
  intros Hk Hfuel Hclr Hset. unfold nrf24_test_spi_connection.
  apply test_spi_poll_answers; try lia.
  - intros j Hj. rewrite spi_flag_at_spi_store. now apply Hclr.
  - now rewrite spi_flag_at_spi_store.
Qed.

Lemma spi_wait_flag_never fuel : forall m,
  (forall j, spi_flag_at m j = false) -> spi_wait_flag fuel m = None.
Proof.
  induction fuel as [|fuel IH]; intros m Hclr; [reflexivity|].
  cbn [spi_wait_flag]. rewrite spi_read_status_flag, spi_read_status_steps.
  rewrite (Hclr 0%nat). apply IH.
  intros j. rewrite spi_flag_at_after. apply Hclr.
Qed.

Lemma spi_wait_flag_returns fuel : forall m k,
  (k < fuel)%nat ->
  (forall j, (j < k)%nat -> spi_flag_at m j = false) ->
  spi_flag_at m k = true ->
  spi_wait_flag fuel m = Some (spi_after_reads (S k) m).
Proof.
  induction fuel as [|fuel IH]; intros m k Hf Hclr Hset; [lia|].
  cbn [spi_wait_flag]. rewrite spi_read_status_flag, spi_read_status_steps.
  destruct k as [|k].
  - now rewrite Hset.
  - rewrite (Hclr 0%nat) by lia. rewrite (IH _ k).
    + rewrite spi_after_reads_add. do 2 f_equal. lia.
    + lia.
    + intros j Hj. rewrite spi_flag_at_after. apply Hclr. lia.
    + rewrite spi_flag_at_after. now rewrite Nat.add_1_r.
Qed.

(** X15.  [spi_send_byte] has no timeout: when the SPI interrupt flag
    never shows, no number of loop rounds lets [spi_send_byte] or
    [nrf24_spi_send_byte] return (the busy loop spins for ever), unlike
    the connection test, which gives up. *)
Theorem spi_send_byte_never_gives_up `{L : SpiLine} (m : machine) (byte : Z) :
  (forall j, spi_flag_at m j = false) ->
  forall fuel,
    spi_send_byte fuel byte m = None /\ nrf24_spi_send_byte fuel byte m = None.
Proof.
  intros Hclr fuel. unfold nrf24_spi_send_byte, spi_send_byte.
  rewrite spi_wait_flag_never; [split; reflexivity|].
  intros j. rewrite spi_flag_at_spi_store. apply Hclr.
Qed.

(** X16.  When the flag first shows at the status read number k,
    [spi_send_byte] returns as soon as the loop is given more than k
    rounds: it has stored the byte to the data register, read the status
    register k + 1 times, logged the one store and nothing else, and
    returns the low eight bits of the byte received by then. *)
Theorem spi_send_byte_returns_received_byte `{L : SpiLine}
    (m : machine) (byte : Z) (fuel k : nat) :
  (k < fuel)%nat ->
  (forall j, (j < k)%nat -> spi_flag_at m j = false) ->
  spi_flag_at m k = true ->
  spi_send_byte fuel byte m
  = Some (u8 (spi_data_in (S k + spi_status_reads (SPIC m))),
          spi_after_reads (S k) (spi_store R_SPI_DATA byte m))
  /\ nrf24_spi_send_byte fuel byte m = spi_send_byte fuel byte m
  /\ SPI_DATA (SPIC (spi_after_reads (S k) (spi_store R_SPI_DATA byte m))) = byte
  /\ new_events m (spi_after_reads (S k) (spi_store R_SPI_DATA byte m))
     = [EvSpiStore R_SPI_DATA byte]
  /\ ports (spi_after_reads (S k) (spi_store R_SPI_DATA byte m)) = ports m.
Proof.
  intros Hfuel Hclr Hset. split; [|split; [reflexivity|split; [reflexivity|split]]].
  - unfold spi_send_byte. rewrite (spi_wait_flag_returns fuel _ k).
    + reflexivity.
    + exact Hfuel.
    + intros j Hj. rewrite spi_flag_at_spi_store. now apply Hclr.
    + now rewrite spi_flag_at_spi_store.
  - unfold new_events, spi_after_reads, spi_store, with_SPIC, emit. cbn [log].
    now rewrite drop_app_length.
  - reflexivity.
Qed.

End MoreRadio.

Section MoreRadioExamples.
Import MoreExamples.
#[local] Existing Instance Example.board.

(** X13 on the board without a radio: the test returns 255. *)
Lemma connection_test_gives_up_after_32001_reads_witness :
  option_map fst
    (nrf24_test_spi_connection (C := collab_no_radio) (Z.to_nat 40000) no_radio)
  = Some 255.
Proof.
  rewrite (connection_test_gives_up_after_32001_reads (C := collab_no_radio)
             no_radio (Z.to_nat 40000)).
  - reflexivity.
  - rewrite Z2Nat.id by lia. unfold SPI_TIMEOUT_COUNTER. lia.
  - intros j _. reflexivity.
Defined.

(** X15 on the board without a radio: ten thousand rounds are not
    enough. *)
Lemma spi_send_byte_never_gives_up_witness :
  spi_send_byte (C := collab_no_radio) (H := silent_line) (Z.to_nat 10000) 0xFF no_radio
  = None.
Proof.
  apply (spi_send_byte_never_gives_up (C := collab_no_radio) (L := silent_line)
           no_radio 0xFF).
  intros j. reflexivity.
Defined.

End MoreRadioExamples.

Section MoreRadioExamplesLive.
Import MoreExamples.
#[local] Existing Instance Example.board.
#[local] Existing Instance Example.collab.
#[local] Existing Instance silent_line.

Lemma fresh_flag_clear j : (j < 2)%nat -> spi_flag_at (Runs.fresh 1 true) j = false.
Proof. intros Hj. destruct j as [|[|j]]; [reflexivity | reflexivity | lia]. Qed.

(** X14 on the example board, whose flag shows at the third read. *)
Lemma connection_test_answers_within_budget_witness :
  option_map fst (nrf24_test_spi_connection 5 (Runs.fresh 1 true)) = Some 0.
Proof.
  rewrite (connection_test_answers_within_budget (Runs.fresh 1 true) 5 2).
  - reflexivity.
  - unfold SPI_TIMEOUT_COUNTER. lia.
  - lia.
  - exact fresh_flag_clear.
  - reflexivity.
Defined.

(** X16 on the example board: the byte 0x0E of the line comes back after
    three status reads. *)
Lemma spi_send_byte_returns_received_byte_witness :
  option_map fst (spi_send_byte 5 0xFF (Runs.fresh 1 true)) = Some 0x0E.
Proof.
  destruct (spi_send_byte_returns_received_byte (Runs.fresh 1 true) 0xFF 5 2) as [H _].
  - lia.
  - exact fresh_flag_clear.
  - reflexivity.
  - rewrite H. reflexivity.
Defined.

End MoreRadioExamplesLive.

(** ** Radio bring-up and shut-down *)

Lemma bits_within_lor_r a v : bits_within v (Z.lor a v).
Proof.
  intros i Hi Hb. rewrite Z.lor_spec, Hb. apply orb_true_r.
Qed.

Section MoreRadioInit.
Context `{B : Board} `{C : Collaborators}.

(** X17.  When the claim of the four SPI pins conflicts, a first
    [nrf24_init] returns at once, whatever the loop budget: it has
    registered ERROR_PIN_MAPPING_CONFLICT and written no port or SPI
    register, but it has already set the initialized flag, so a later
    call does not try again and returns the machine unchanged. *)
Theorem nrf24_init_pin_conflict_is_final (m : machine) (fuel : nat) :
  is_nrf24_initialized m = false ->
  rf_disabled m = false ->
  fst (io_map_claim_pins (PORT_TO_NUM NRF24_SPI_PORT) SPI_PIN_MASK (ledger m)) = true ->
  exists m',
    nrf24_init fuel m = Some m'
    /\ is_nrf24_initialized m' = true
    /\ ports m' = ports m
    /\ SPIC m' = SPIC m
    /\ errors m' = register_error ERROR_PIN_MAPPING_CONFLICT (errors m)
    /\ new_events m m'
       = [EvClaimPins (PORT_TO_NUM NRF24_SPI_PORT) SPI_PIN_MASK;
          EvRegisterError ERROR_PIN_MAPPING_CONFLICT]
    /\ forall fuel', nrf24_init fuel' m' = Some m'.
Proof.
  intros Hi Hd Hc. unfold nrf24_init at 1. rewrite Hi, Hd. cbn [orb].
  unfold claim_pins at 1. cbn [fst ledger with_nrf24_initialized]. rewrite Hc.
  eexists. split; [reflexivity|].
  split; [reflexivity|]. split; [reflexivity|]. split; [reflexivity|].
  split; [reflexivity|]. split.
  - unfold new_events, raise_error, claim_pins, emit, with_errors, with_ledger,
      with_nrf24_initialized. cbn [snd log]. rewrite <- app_assoc.
    now rewrite drop_app_length.
  - intros fuel'. reflexivity.
Qed.

(** X18.  When [spi_init] returns, the SPI module is enabled as a master
    with its interrupt off and the control value of the active clock
    regime; SS, MOSI and SCK of the port are outputs and SS is driven
    high, with no other DIR or OUT bit of the port changed (MISO among
    them) and no other port touched.  The control value of the slow
    regime contains every bit of the fast one. *)
Theorem spi_init_sets_up_master (m m' : machine) (fuel : nat) (port : io_port) :
  spi_init fuel port m = Some m' ->
  SPI_CTRL (SPIC m')
  = (if g_slow_clock_mode m then SPI_SETTINGS_SLOW_CLOCK else SPI_SETTINGS)
  /\ SPI_INTCTRL (SPIC m') = 0
  /\ Z.land SPI_SETTINGS (Z.lor SPI_ENABLE_bm SPI_MASTER_bm)
     = Z.lor SPI_ENABLE_bm SPI_MASTER_bm
  /\ bits_within SPI_SETTINGS SPI_SETTINGS_SLOW_CLOCK
  /\ DIR (ports m' port) = Z.lor (DIR (ports m port)) 0xB0
  /\ OUT (ports m' port) = Z.lor (OUT (ports m port)) 0x10
  /\ (forall q, q <> port -> ports m' q = ports m q).
Proof.
  intros H. unfold spi_init in H.
  set (m1 := port_store port R_OUTSET (Z.shiftl 1 SS)
               (port_store port R_DIRSET
                  (Z.lor (Z.lor (Z.shiftl 1 SS) (Z.shiftl 1 MOSI)) (Z.shiftl 1 SCK)) m)) in H.
  set (m2 := spi_store R_SPI_INTCTRL 0 m1) in H.
  set (m3 := if g_slow_clock_mode m2
             then spi_store R_SPI_CTRL SPI_SETTINGS_SLOW_CLOCK m2
             else spi_store R_SPI_CTRL SPI_SETTINGS m2) in H.
  assert (Hctl : (fun s => (SPI_CTRL (SPIC s), SPI_INTCTRL (SPIC s), ports s)) m'
                 = (fun s => (SPI_CTRL (SPIC s), SPI_INTCTRL (SPIC s), ports s)) m3).
  { clear -H. revert H. generalize m3. clear m3.
    induction fuel as [|fuel IH]; intros s H; cbn [spi_drain] in H; [discriminate|].
    destruct (truthy _).
    - rewrite (IH _ H). reflexivity.
    - injection H as <-. reflexivity. }
  cbv beta in Hctl. injection Hctl as Hc Hi Hp.
  assert (Hslow : g_slow_clock_mode m2 = g_slow_clock_mode m) by reflexivity.
  split; [|split; [|split; [|split; [|split; [|split]]]]].
  - rewrite Hc. subst m3. rewrite Hslow. now destruct (g_slow_clock_mode m).
  - rewrite Hi. subst m3. now destruct (g_slow_clock_mode m2).
  - unfold SPI_SETTINGS, SPI_MODE.
    destruct (F_CPU / 2 <=? MAX_NRF24_SPI_SPEED); [reflexivity|].
    destruct (F_CPU / 4 <=? MAX_NRF24_SPI_SPEED); [reflexivity|].
    apply Z.bits_inj'. intros i Hi'.
    rewrite Z.land_spec, Z.lor_spec.
    destruct (Z.testbit (Z.lor SPI_ENABLE_bm SPI_MASTER_bm) i) eqn:E.
    + change (Z.lor (Z.lor SPI_ENABLE_bm SPI_MASTER_bm) SPI_MODE_0_gc)
        with (Z.lor SPI_ENABLE_bm SPI_MASTER_bm).
      now rewrite E.
    + apply andb_false_r.
  - unfold SPI_SETTINGS_SLOW_CLOCK.
    destruct (CLOCK_SPEED_SLOW / 2 <=? MAX_NRF24_SPI_SPEED);
      [|destruct (CLOCK_SPEED_SLOW / 4 <=? MAX_NRF24_SPI_SPEED)].
    + eapply bits_within_trans; apply bits_within_lor.
    + apply bits_within_lor.
    + apply bits_within_lor.
  - rewrite Hp. subst m3.
    assert (ports (if g_slow_clock_mode m2
                   then spi_store R_SPI_CTRL SPI_SETTINGS_SLOW_CLOCK m2
                   else spi_store R_SPI_CTRL SPI_SETTINGS m2) = ports m1) as ->
      by (now destruct (g_slow_clock_mode m2)).
    subst m1. rewrite !ports_port_store.
    destruct (decide (port = port)); [|congruence]. reflexivity.
  - rewrite Hp. subst m3.
    assert (ports (if g_slow_clock_mode m2
                   then spi_store R_SPI_CTRL SPI_SETTINGS_SLOW_CLOCK m2
                   else spi_store R_SPI_CTRL SPI_SETTINGS m2) = ports m1) as ->
      by (now destruct (g_slow_clock_mode m2)).
    subst m1. rewrite !ports_port_store.
    destruct (decide (port = port)); [|congruence]. reflexivity.
  - intros q Hq. rewrite Hp. subst m3.
    assert (ports (if g_slow_clock_mode m2
                   then spi_store R_SPI_CTRL SPI_SETTINGS_SLOW_CLOCK m2
                   else spi_store R_SPI_CTRL SPI_SETTINGS m2) = ports m1) as ->
      by (now destruct (g_slow_clock_mode m2)).
    subst m1. now rewrite !ports_port_store_elsewhere by assumption.
Qed.

(** X19.  [nrf24_disable] does nothing at all on a radio that is not
    initialized (the driver's power-down is not called); otherwise it
    clears the initialized flag after the power-down, leaves the CE pin
    an output and, when CE is not one of the three pins, SS, MOSI and SCK
    inputs.  Either way the flag is clear afterwards, so a second call
    changes nothing. *)
Theorem nrf24_disable_is_idempotent {R : RadioCore} (m : machine) :
  (is_nrf24_initialized m = false -> nrf24_disable m = m)
  /\ is_nrf24_initialized (nrf24_disable m) = false
  /\ nrf24_disable (nrf24_disable m) = nrf24_disable m
  /\ (is_nrf24_initialized m = true ->
      Z.land (DIR (ports (nrf24_disable m) NRF24_CE_PORT)) NRF24_CE_PIN = NRF24_CE_PIN
      /\ (NRF24_CE_PORT <> NRF24_SPI_PORT \/ Z.land NRF24_CE_PIN 0xB0 = 0 ->
          Z.land (DIR (ports (nrf24_disable m) NRF24_SPI_PORT)) 0xB0 = 0)
      /\ (forall q, OUT (ports (nrf24_disable m) q)
                    = OUT (ports (nrf24_power_set 0 m) q))).
Proof.
  assert (Hoff : is_nrf24_initialized (nrf24_disable m) = false).
  { unfold nrf24_disable. destruct (is_nrf24_initialized m) eqn:E; [reflexivity | exact E]. }
  split; [|split; [exact Hoff|split]].
  - intros E. unfold nrf24_disable. now rewrite E.
  - unfold nrf24_disable at 1. now rewrite Hoff.
  - intros E. unfold nrf24_disable. rewrite E.
    unfold with_nrf24_initialized. cbn [ports].
    set (m1 := nrf24_power_set 0 m).
    split; [|split].
    + rewrite ports_port_store. destruct (decide (NRF24_CE_PORT = NRF24_CE_PORT));
        [|congruence].
      cbn [reg_store DIR]. apply land_lor_same.
    + intros Hce. rewrite ports_port_store.
      destruct (decide (NRF24_SPI_PORT = NRF24_CE_PORT)) as [Heq|Hne].
      * destruct Hce as [Hce|Hce]; [congruence|].
        cbn [reg_store DIR]. rewrite <- Heq, ports_port_store.
        destruct (decide (NRF24_SPI_PORT = NRF24_SPI_PORT)); [|congruence].
        cbn [reg_store DIR].
        rewrite Z.land_lor_distr_l, Hce, Z.lor_0_r.
        apply land_ldiff_same.
      * rewrite ports_port_store.
        destruct (decide (NRF24_SPI_PORT = NRF24_SPI_PORT)); [|congruence].
        cbn [reg_store DIR]. apply land_ldiff_same.
    + intros q. rewrite ports_port_store.
      destruct (decide (q = NRF24_CE_PORT)) as [Hq|Hq].
      * cbn [reg_store OUT]. rewrite ports_port_store.
        destruct (decide (NRF24_CE_PORT = NRF24_SPI_PORT)) as [Heq|Hne].
        -- rewrite Hq, Heq. reflexivity.
        -- now rewrite Hq.
      * rewrite ports_port_store.
        destruct (decide (q = NRF24_SPI_PORT)) as [Hs|Hs]; [rewrite Hs|]; reflexivity.
Qed.

End MoreRadioInit.

Section MoreRadioInitExamples.
Import MoreExamples.
#[local] Existing Instance Example.board.
#[local] Existing Instance Example.collab.
#[local] Existing Instance radio_stub.

(** X17 on the board whose SS pin is already claimed: the flag is set
    although the SPI module was never written. *)
Lemma nrf24_init_pin_conflict_is_final_witness :
  exists m', nrf24_init 0 spi_pin_taken = Some m'
             /\ is_nrf24_initialized m' = true /\ SPIC m' = SPIC spi_pin_taken.
Proof.
  destruct (nrf24_init_pin_conflict_is_final spi_pin_taken 0)
    as (m' & H & Hf & _ & Hs & _); [reflexivity | reflexivity | reflexivity |].
  exists m'. split; [exact H|]. split; [exact Hf | exact Hs].
Defined.

(** X18 on the example board in slow-clock mode. *)
Lemma spi_init_sets_up_master_witness :
  exists m', spi_init 5 PORTC (Runs.fresh 1 true) = Some m'
             /\ SPI_CTRL (SPIC m') = SPI_SETTINGS_SLOW_CLOCK
             /\ DIR (ports m' PORTC) = 0xB0.
Proof.
  destruct (spi_init 5 PORTC (Runs.fresh 1 true)) as [m'|] eqn:E;
    [|vm_compute in E; discriminate E].
  destruct (spi_init_sets_up_master (Runs.fresh 1 true) m' 5 PORTC E)
    as (Hc & _ & _ & _ & Hd & _).
  exists m'. split; [reflexivity|]. split; [exact Hc | exact Hd].
Defined.

(** X19 on the machine after the radio bring-up: SS, MOSI and SCK are
    inputs again. *)
Lemma nrf24_disable_is_idempotent_witness :
  Z.land (DIR (ports (nrf24_disable Runs.after_radio_init) PORTC)) 0xB0 = 0.
Proof.
  destruct (nrf24_disable_is_idempotent Runs.after_radio_init) as (_ & _ & _ & H).
  destruct H as (_ & Hspi & _); [vm_compute; reflexivity|].
  apply Hspi. right. reflexivity.
Defined.

End MoreRadioInitExamples.

(** ** Reading the columns while idle *)

Section MoreColumnsRead.
Context `{B : Board} `{C : Collaborators}.

Lemma existsb_map_compose {X Y : Type} (f : Y -> bool) (g : X -> Y) (l : list X) :
  existsb f (map g l) = existsb (fun x => f (g x)) l.
Proof. induction l as [|x l IH]; cbn; [reflexivity|]. now rewrite IH. Qed.

(** X20.  [matrix_has_active_row] looks at the very sample [scan_row]
    hands to the debouncer in the same state: it is true exactly when
    one byte of that sample is non-zero, so only column pins recorded in
    the column masks can report an active row, and it is false while all
    column masks are zero. *)
Theorem matrix_has_active_row_reads_the_scan_sample (m : machine) (row : Z) :
  new_events m (snd (scan_row row m))
  = [EvDebounceRow row (column_sample m) (s_bytes_per_row (sv m))
       (fst (scanner_debounce_row row (column_sample m) (s_bytes_per_row (sv m))
               (debounce m)))]
  /\ matrix_has_active_row m = existsb truthy (column_sample m)
  /\ ((forall pn, In pn scanner_ports -> get_col_mask m (snd pn) = 0) ->
      matrix_has_active_row m = false).
Proof.
  split; [|split].
  - unfold new_events, scan_row, emit, with_debounce. cbn [snd log].
    now rewrite drop_app_length.
  - unfold matrix_has_active_row, column_sample. now rewrite existsb_map_compose.
  - intros Hz. unfold matrix_has_active_row.
    apply not_true_is_false. intros Ht. apply existsb_exists in Ht as (pn & Hpn & Ht).
    unfold get_col_mask in Hz. rewrite (Hz pn Hpn), Z.land_0_r in Ht. discriminate Ht.
Qed.

End MoreColumnsRead.

Section MoreColumnsReadExamples.
#[local] Existing Instance Example.board.
#[local] Existing Instance Example.collab.

(** X20 on the fresh board: no column mask is set yet, so no row reads
    as active. *)
Lemma matrix_has_active_row_reads_the_scan_sample_witness :
  matrix_has_active_row (Runs.fresh 1 true) = false.
Proof.
  destruct (matrix_has_active_row_reads_the_scan_sample (Runs.fresh 1 true) 0)
    as (_ & _ & H).
  apply H. intros pn Hpn.
  destruct Hpn as [<- | [<- | [<- | [<- | [<- | [<- | []]]]]]]; reflexivity.
Defined.

End MoreColumnsReadExamples.
